(** * Full catalogue synchronisation: a model of [cloud-functions/full-sync/main.py]

    The development follows the source file top to bottom: JSON values and the
    handful of Python operations the code applies to them, the WooCommerce
    client (retry gate and catalogue reader), the item enricher, the batch
    merger and writer, and the site synchronisation job. *)

From stdpp Require Import gmap strings list fin_maps.
From Stdlib Require Import ZArith.

#[local] Set Warnings "-register-all".
#[local] Open Scope Z_scope.

(** ** JSON values

    What [response.json()] returns and what the datastore keeps in its columns.
    A JSON object is a finite map from keys to values; a float is kept as a
    decimal [m * 10^e], which is all the code ever asks of one (is it zero). *)

Inductive value : Type :=
| VNull
| VBool (b : bool)
| VInt (z : Z)
| VFloat (m e : Z)
| VStr (s : string)
| VList (l : list value)
| VDict (d : gmap string value).

(** A Python [dict] with string keys. *)
Abbreviation dict := (gmap string value).

(** The builtin [float()]: [None] stands for the [ValueError] or [TypeError] it
    raises.  Its rounding to binary64 is left to the instance. *)
Class PyFloat := py_float : value → option value.

Module Py.

(** Truth value testing, as [if x], [not x] and [x or y] perform it. *)
Definition truthy (v : value) : bool :=
  match v with
  | VNull => false
  | VBool b => b
  | VInt z => negb (z =? 0)
  | VFloat m _ => negb (m =? 0)
  | VStr s => negb (String.eqb s "")
  | VList l => negb (bool_decide (l = []))
  | VDict d => negb (bool_decide (d = ∅))
  end.

(** [a or b] *)
Definition or (a b : value) : value := if truthy a then a else b.

(** [d.get(key)] and [d.get(key, default)] on a dict. *)
Definition get (d : dict) (key : string) : value := default VNull (d !! key).
Definition get_or (d : dict) (key : string) (dflt : value) : value :=
  default dflt (d !! key).

(** [v.get(key, default)] on an arbitrary value: only a dict has the method
    ([AttributeError] otherwise). *)
Definition attr_get_or (v : value) (key : string) (dflt : value) : option value :=
  match v with
  | VDict d => Some (get_or d key dflt)
  | _ => None
  end.
Definition attr_get (v : value) (key : string) : option value :=
  attr_get_or v key VNull.

(** [v[key]] with a string key: [KeyError] on a dict without the key,
    [TypeError] on everything else. *)
Definition getitem (v : value) (key : string) : option value :=
  match v with
  | VDict d => d !! key
  | _ => None
  end.

(** The characters of a string, each as a string of length one. *)
Fixpoint chars (s : string) : list value :=
  match s with
  | EmptyString => []
  | String c s' => VStr (String c EmptyString) :: chars s'
  end.

(** [for x in v]: lists yield their elements, strings their characters,
    dicts their keys; the other values are not iterable ([TypeError]). *)
Definition iter (v : value) : option (list value) :=
  match v with
  | VList l => Some l
  | VStr s => Some (chars s)
  | VDict d => Some (VStr <$> (map_to_list d).*1)
  | _ => None
  end.

(** [len(v)] *)
Definition len (v : value) : option nat :=
  match v with
  | VList l => Some (length l)
  | VStr s => Some (String.length s)
  | VDict d => Some (size d)
  | _ => None
  end.

(** [v[0]]: first element of a list, first character of a string;
    [IndexError], [KeyError] (the keys of a JSON object are strings) or
    [TypeError] otherwise. *)
Definition getitem0 (v : value) : option value :=
  match v with
  | VList (x :: _) => Some x
  | VStr (String c _) => Some (VStr (String c EmptyString))
  | _ => None
  end.

(** [s.lower()] on the ASCII letters.  The attribute names it is compared
    with are ASCII, and no character outside ASCII lower-cases to one of
    their letters. *)
Definition lower_ascii (c : Ascii.ascii) : Ascii.ascii :=
  let n := Ascii.nat_of_ascii c in
  if ((65 <=? n) && (n <=? 90))%nat then Ascii.ascii_of_nat (n + 32) else c.
Fixpoint lower (s : string) : string :=
  match s with
  | EmptyString => EmptyString
  | String c s' => String (lower_ascii c) (lower s')
  end.

(** The space character, code 32. *)
Definition space : Ascii.ascii :=
  Ascii.Ascii false false false false false true false false.

(** [s.replace(' ', '')] *)
Fixpoint strip_spaces (s : string) : string :=
  match s with
  | EmptyString => EmptyString
  | String c s' =>
      if Ascii.eqb c space then strip_spaces s'
      else String c (strip_spaces s')
  end.

(** [v == s] for a string literal [s]. *)
Definition eq_str (v : value) (s : string) : bool :=
  match v with
  | VStr s' => String.eqb s' s
  | _ => false
  end.

End Py.

(** ** [class WooCommerceClient] *)

(** [SITES]: the configured storefronts. *)
Definition SITES : list string := ["com"; "uk"; "de"; "fr"].

Module WooCommerceClient.

(** The REST resources the client reads. *)
Inductive endpoint :=
| Product (product_id : value)
| ProductsPage (page per_page : nat)
| ProductVariations (product_id : value).

(** What one [requests.get] can do: answer with a status code and a body
    (the body parsed as JSON, [None] when it is not JSON), or raise a
    [RequestException] of the transport (connection error, timeout). *)
Record response := Response { status_code : Z; json : option value }.

Inductive http_outcome :=
| Answered (r : response)
| TransportFailed.

(** The upstream storefront: for each resource, the outcome of the n-th
    attempt (counted from 0) of one call of the retry gate. *)
Definition upstream := endpoint → nat → http_outcome.

Inductive request_error :=
| HTTPError (status : Z)
| TransportError
| MaxRetriesExceeded
| JSONDecodeError.

(** What the gate does, in order. *)
Inductive event :=
| Get (attempt : nat)
| Sleep (seconds : nat).

(** [response.raise_for_status()] raises for the 4xx and 5xx codes. *)
Definition raises_for_status (r : response) : bool :=
  (400 <=? status_code r) && (status_code r <? 600).

(** [wait_time = (attempt + 1) * 2] *)
Definition wait_time (attempt : nat) : nat := (attempt + 1) * 2.

(** The body of [for attempt in range(max_retries)], over the attempts that
    are left.  A 503 before the last attempt sleeps and goes on; any other
    answer goes through [raise_for_status], whose [HTTPError] lands in the
    same [except RequestException] clause as a transport error: sleep and go
    on before the last attempt, re-raise at the last one. *)
Fixpoint request_attempts (get : nat → http_outcome) (max_retries : nat)
    (attempts : list nat) : (request_error + response) * list event :=
  match attempts with
  | [] => (inl MaxRetriesExceeded, [])
  | attempt :: rest =>
      let continue_after_sleep :=
        let '(res, evs) := request_attempts get max_retries rest in
        (res, Get attempt :: Sleep (wait_time attempt) :: evs) in
      let except (e : request_error) :=
        if (attempt <? max_retries - 1)%nat then continue_after_sleep
        else (inl e, [Get attempt]) in
      match get attempt with
      | Answered r =>
          if (status_code r =? 503) && (attempt <? max_retries - 1)%nat
          then continue_after_sleep
          else if raises_for_status r then except (HTTPError (status_code r))
          else (inr r, [Get attempt])
      | TransportFailed => except TransportError
      end
  end.

(** [_request_with_retry(url, max_retries)]: the result, and what the gate
    did to get it. *)
Definition _request_with_retry_n (get : nat → http_outcome) (max_retries : nat)
    : (request_error + response) * list event :=
  request_attempts get max_retries (seq 0 max_retries).

(** [_request_with_retry(url)] with the default [max_retries = 3]. *)
Definition _request_with_retry (get : nat → http_outcome)
    : (request_error + response) * list event :=
  _request_with_retry_n get 3.

(** [self._request_with_retry(url).json()]: the result of a client method,
    [inl] for the exception it raises. *)
Definition fetch_json (up : upstream) (url : endpoint) : request_error + value :=
  match fst (_request_with_retry (up url)) with
  | inl e => inl e
  | inr r =>
      match json r with
      | Some v => inr v
      | None => inl JSONDecodeError
      end
  end.

Definition get_product (up : upstream) (product_id : value) :=
  fetch_json up (Product product_id).

Definition get_products_page (up : upstream) (page : nat) (per_page : nat) :=
  fetch_json up (ProductsPage page per_page).

Definition get_product_variations (up : upstream) (product_id : value) :=
  fetch_json up (ProductVariations product_id).

(** The result of the catalogue reader: the list it returns, the exception
    that escapes it, or no result within the given number of iterations. *)
Inductive listing :=
| Listed (all_products : list value)
| ListingRaised
| ListingRunning.

(** [get_all_products]: the [while True] loop, [fuel] bounding the number of
    iterations.  The second component lists the pages requested, in order.
    [fetch page] is [self.get_products_page(page=page, per_page=100)]. *)
Fixpoint get_all_products_from {E} (fetch : nat → E + value) (fuel : nat)
    (page : nat) (all_products : list value) : listing * list nat :=
  match fuel with
  | O => (ListingRunning, [])
  | S fuel' =>
      let requested (r : listing * list nat) := (fst r, page :: snd r) in
      match fetch page with
      | inl _ => (ListingRaised, [page])
      | inr products =>
          if negb (Py.truthy products) then (Listed all_products, [page])
          else
            match Py.iter products, Py.len products with
            | Some items, Some n =>
                let all_products := all_products ++ items in
                if (n <? 100)%nat then (Listed all_products, [page])
                else requested (get_all_products_from fetch fuel' (page + 1) all_products)
            | _, _ => (ListingRaised, [page])
            end
      end
  end.

Definition get_all_products_with {E} (fetch : nat → E + value) (fuel : nat) :=
  get_all_products_from fetch fuel 1 [].

Definition get_all_products (up : upstream) (fuel : nat) : listing * list nat :=
  get_all_products_with (λ page, get_products_page up page 100) fuel.

End WooCommerceClient.

(** Classes of outcomes of one attempt, as the retry gate's contract names
    them. *)
Module Outcome.
Import WooCommerceClient.

(** A transient failure: a transport error or the status the gate tests
    for. *)
Definition transient (o : http_outcome) : bool :=
  match o with
  | Answered r => status_code r =? 503
  | TransportFailed => true
  end.

(** A client error: a 4xx status other than the rate-limit status 429. *)
Definition client_error (o : http_outcome) : bool :=
  match o with
  | Answered r =>
      (400 <=? status_code r) && (status_code r <? 500)
      && negb (status_code r =? 429)
  | TransportFailed => false
  end.

(** The exception a failed attempt raises inside the gate. *)
Definition error_of (o : http_outcome) : request_error :=
  match o with
  | Answered r => HTTPError (status_code r)
  | TransportFailed => TransportError
  end.

(** An attempt that ends in the [except] clause unless the 503 test
    intercepts it. *)
Definition failed (o : http_outcome) : bool :=
  match o with
  | Answered r => raises_for_status r
  | TransportFailed => true
  end.

(** "Fails immediately": one request, no sleep, an error for the caller. *)
Definition fails_immediately (get : nat → http_outcome) : Prop :=
  ∃ e, _request_with_retry get = (inl e, [Get 0%nat]).

(** The items of a page, for a page that is a JSON array. *)
Definition page_items {E} (fetch : nat → E + value) (page : nat) : list value :=
  match fetch page with
  | inr (VList l) => l
  | _ => []
  end.

(** A page that is a JSON array of [n] items. *)
Definition page_of_size {E} (fetch : nat → E + value) (page n : nat) : Prop :=
  ∃ l, fetch page = inr (VList l) ∧ length l = n.

End Outcome.

(** ** The item enricher: [fetch_product_from_woo] and [process_woo_product]

    Both functions build [update_data] with the same statements; the shared
    statements are defined once here, in source order. *)

Module Enricher.
Import WooCommerceClient.

Section extraction.
Context `{PyFloat}.

(** [{site: v}] *)
Definition per_site (site : string) (v : value) : value :=
  VDict {[ site := v ]}.

(** [float(woo_product.get(first) or woo_product.get('price') or 0)] *)
Definition price_of (woo_product : dict) (first : string) : option value :=
  py_float (Py.or (Py.get woo_product first)
              (Py.or (Py.get woo_product "price") (VInt 0))).

(** The [content] entry of a site. *)
Definition site_content (woo_product : dict) : value :=
  VDict
    (<["name" := Py.get_or woo_product "name" (VStr "")]>
    (<["description" := Py.get_or woo_product "description" (VStr "")]>
    (<["short_description" :=
         Py.get_or woo_product "short_description" (VStr "")]> ∅))).

(** The dict literal that opens [update_data], up to [last_synced_at];
    [now] is [datetime.utcnow().isoformat()].  The two [float()] calls are
    the only entries that can raise. *)
Definition site_update_data (site : string) (now : string)
    (woo_product : dict) (sku : value) : option dict :=
  price ← price_of woo_product "sale_price";
  regular_price ← price_of woo_product "regular_price";
  Some
    (<["sku" := sku]>
    (<["prices" := per_site site price]>
    (<["regular_prices" := per_site site regular_price]>
    (<["stock_quantities" :=
         per_site site (Py.or (Py.get woo_product "stock_quantity") (VInt 100))]>
    (<["stock_statuses" :=
         per_site site (Py.get_or woo_product "stock_status" (VStr "instock"))]>
    (<["statuses" :=
         per_site site (Py.get_or woo_product "status" (VStr "publish"))]>
    (<["content" := per_site site (site_content woo_product)]>
    (<["sync_status" := per_site site (VStr "synced")]>
    (<["last_synced_at" := VStr now]> ∅))))))))).

(** One round of [for attr in woo_product.get('attributes', [])]. *)
Definition attribute_step (attributes : dict) (attr : value) : option dict :=
  name ← Py.attr_get_or attr "name" (VStr "");
  attr_name ←
    match Py.or name (VStr "") with
    | VStr s => Some (Py.strip_spaces (Py.lower s))
    | _ => None
    end;
  options ← Py.attr_get attr "options";
  value ←
    (if Py.truthy options
     then Py.getitem0 (Py.or options (VList [VStr ""]))
     else Some (VStr ""));
  Some
    (if bool_decide (attr_name ∈ ["genderage"; "gender"])
     then <["gender" := value]> attributes
     else if String.eqb attr_name "season"
     then <["season" := value]> attributes
     else if bool_decide (attr_name ∈ ["jerseytype"; "type"])
     then <["type" := value]> attributes
     else if bool_decide (attr_name ∈ ["style"; "version"])
     then <["version" := value]> attributes
     else if bool_decide (attr_name ∈ ["sleevelength"; "sleeve"])
     then <["sleeve" := value]> attributes
     else if String.eqb attr_name "team"
     then <["team" := value]> attributes
     else if bool_decide (attr_name ∈ ["event"; "events"])
     then <["events" := default (VList []) (Py.attr_get_or attr "options" (VList []))]>
            attributes
     else attributes).

Fixpoint extract_attributes (attributes : dict) (attrs : list value)
    : option dict :=
  match attrs with
  | [] => Some attributes
  | attr :: attrs' =>
      attributes' ← attribute_step attributes attr;
      extract_attributes attributes' attrs'
  end.

(** [[x[key] for x in woo_product.get(field, [])]] *)
Definition pluck (woo_product : dict) (field key : string) : option value :=
  xs ← Py.iter (Py.get_or woo_product field (VList []));
  ys ← mapM (λ x, Py.getitem x key) xs;
  Some (VList ys).

(** The body of [if site == 'com':], which adds the shared fields. *)
Definition shared_update_data (woo_product : dict) (update_data : dict)
    : option dict :=
  let update_data :=
    <["name" := Py.get_or woo_product "name" (VStr "")]> update_data in
  images ← pluck woo_product "images" "src";
  let update_data := <["images" := images]> update_data in
  categories ← pluck woo_product "categories" "name";
  let update_data := <["categories" := categories]> update_data in
  attrs ← Py.iter (Py.get_or woo_product "attributes" (VList []));
  attributes ← extract_attributes ∅ attrs;
  Some (if Py.truthy (VDict attributes)
        then <["attributes" := VDict attributes]> update_data
        else update_data).

(** One element of the list comprehension over the variations. *)
Definition variation_record (v : value) : option value :=
  id ← Py.getitem v "id";
  sku ← Py.attr_get_or v "sku" (VStr "");
  attributes ← Py.attr_get_or v "attributes" (VList []);
  regular_price ← Py.attr_get_or v "regular_price" (VStr "");
  sale_price ← Py.attr_get_or v "sale_price" (VStr "");
  stock_quantity ← Py.attr_get v "stock_quantity";
  stock_status ← Py.attr_get_or v "stock_status" (VStr "instock");
  Some (VDict
    (<["id" := id]>
    (<["sku" := sku]>
    (<["attributes" := attributes]>
    (<["regular_price" := regular_price]>
    (<["sale_price" := sale_price]>
    (<["stock_quantity" := stock_quantity]>
    (<["stock_status" := stock_status]> ∅)))))))).

(** [site_variations]: empty unless the product is variable; the inner
    [try] leaves it empty when the request or the comprehension raises. *)
Definition site_variations (up : upstream) (woo_product : dict)
    (woo_id : value) : list value :=
  if Py.eq_str (Py.get woo_product "type") "variable" then
    match get_product_variations up woo_id with
    | inl _ => []
    | inr variations =>
        default [] (Py.iter variations ≫= mapM variation_record)
    end
  else [].

(** The last two assignments to [update_data]. *)
Definition with_variations (site : string) (site_variations : list value)
    (update_data : dict) : dict :=
  <["variation_counts" :=
      per_site site (VInt (Z.of_nat (length site_variations)))]>
  (<["variations" := per_site site (VList site_variations)]> update_data).

(** Everything after the opening literal, common to both functions. *)
Definition finish_update_data (up : upstream) (site : string)
    (woo_product : dict) (woo_id : value) (update_data : dict) : option dict :=
  update_data ←
    (if String.eqb site "com"
     then shared_update_data woo_product update_data
     else Some update_data);
  Some (with_variations site (site_variations up woo_product woo_id) update_data).

(** What a task of the worker pool ends with: an exception, [None], or a
    result dict [{'sku', 'success', 'data' | 'error'}]. *)
Inductive task_result :=
| TaskRaised
| TaskNone
| TaskOk (sku : value) (data : dict)
| TaskFailed (sku : value).

(** [process_woo_product], the closure of [full_sync_site]; [cancelled] is
    [progress['cancelled']] as the task reads it. *)
Definition process_woo_product (up : upstream) (site : string)
    (cancelled : bool) (now : string) (woo_product : value) : task_result :=
  if cancelled then TaskNone
  else
    match woo_product with
    | VDict woo_product =>
        let sku := Py.get_or woo_product "sku" (VStr "") in
        let woo_id := Py.get woo_product "id" in
        if negb (Py.truthy sku) then TaskNone
        else
          match
            update_data ← site_update_data site now woo_product sku;
            finish_update_data up site woo_product woo_id
              (<["woo_ids" := per_site site woo_id]> update_data)
          with
          | Some update_data => TaskOk sku update_data
          | None => TaskFailed sku
          end
    | _ => TaskRaised
    end.

(** [fetch_product_from_woo]: the whole body is inside the [try], the
    client's constructor included. *)
Definition fetch_product_from_woo (up : upstream) (now : string)
    (sku : value) (woo_id : value) (site : string) : task_result :=
  match
    (if bool_decide (site ∈ SITES) then Some () else None);;
    woo_product ←
      match get_product up woo_id with
      | inr (VDict woo_product) => Some woo_product
      | _ => None
      end;
    update_data ← site_update_data site now woo_product sku;
    finish_update_data up site woo_product woo_id update_data
  with
  | Some update_data => TaskOk sku update_data
  | None => TaskFailed sku
  end.

End extraction.
End Enricher.

(** ** The datastore *)

Module Datastore.

(** Modelled from the spec: the [products] table of the external datastore,
    of which the code uses a bulk select by key and a bulk upsert keyed by
    SKU.  A table maps the SKU (its text key column) to the columns of the
    row. *)
Abbreviation table := (gmap string dict).

(** Modelled from the spec: [select(columns).in_('sku', skus)], the rows
    whose key is among [skus], cut down to [columns], under their key. *)
Definition select_in (columns : list string) (skus : list string)
    (db : table) : table :=
  filter (λ col, col.1 ∈ columns) <$> filter (λ r, r.1 ∈ skus) db.

(** Modelled from the spec: the upsert of one row on conflict with its key,
    "last-write-wins-per-field": the columns of the payload replace the
    stored ones and the other columns of an existing row stay.  The table
    takes only a text key; a payload without one is refused. *)
Definition upsert_row (db : table) (row : dict) : option table :=
  match row !! "sku" with
  | Some (VStr sku) => Some (<[sku := row ∪ default ∅ (db !! sku)]> db)
  | _ => None
  end.

(** Modelled from the spec: [upsert(rows, on_conflict='sku')], row by row. *)
Fixpoint upsert (rows : list dict) (db : table) : option table :=
  match rows with
  | [] => Some db
  | row :: rows' => db' ← upsert_row db row; upsert rows' db'
  end.

End Datastore.

(** ** The batch merger and writer: [batch_update_products] *)

Module Batch.
Import Datastore.

(** The per-site-keyed columns, in the order of the [merged] literal. *)
Definition PER_SITE_FIELDS : list string :=
  ["prices"; "regular_prices"; "stock_quantities"; "stock_statuses";
   "statuses"; "content"; "sync_status"; "variations"; "variation_counts"].

(** The shared columns copied from an update that carries them. *)
Definition SHARED_FIELDS : list string :=
  ["name"; "images"; "categories"; "attributes"].

(** The columns the function selects. *)
Definition SELECTED : list string := "sku" :: PER_SITE_FIELDS.

(** [safe_dict(existing.get(field))] *)
Definition safe_dict (val : option value) : dict :=
  match val with
  | Some (VDict d) => d
  | _ => ∅
  end.

(** The operand of [**update.get(field, {})]: a dict, or a [TypeError]. *)
Definition mapping (val : option value) : option dict :=
  match val with
  | None => Some ∅
  | Some (VDict d) => Some d
  | Some _ => None
  end.

(** [{**safe_dict(existing.get(field)), **update.get(field, {})}] *)
Definition merge_field (existing update : dict) (field : string)
    : option value :=
  new ← mapping (update !! field);
  Some (VDict (new ∪ safe_dict (existing !! field))).

(** The per-site entries of the [merged] literal, added to [merged]. *)
Fixpoint merge_fields (existing update : dict) (fields : list string)
    (merged : dict) : option dict :=
  match fields with
  | [] => Some merged
  | field :: fields' =>
      v ← merge_field existing update field;
      merge_fields existing update fields' (<[field := v]> merged)
  end.

(** [if field in update: merged[field] = update[field]], for each shared
    field. *)
Definition copy_shared (update : dict) (merged : dict) : dict :=
  foldl (λ merged field,
           match update !! field with
           | Some v => <[field := v]> merged
           | None => merged
           end) merged SHARED_FIELDS.

(** [existing_map.get(sku, {})]: only a text key can be in the map; a list
    or a dict as key is a [TypeError]. *)
Definition existing_for (existing_map : table) (sku : value) : option dict :=
  match sku with
  | VStr sku => Some (default ∅ (existing_map !! sku))
  | VList _ | VDict _ => None
  | _ => Some ∅
  end.

(** The [merged] literal and the copies that follow it. *)
Definition merge_record (existing : dict) (sku : value) (update : dict)
    : option dict :=
  merged ← merge_fields existing update PER_SITE_FIELDS {[ "sku" := sku ]};
  Some (copy_shared update
          (<["last_synced_at" := Py.get update "last_synced_at"]> merged)).

(** The body of [for update in updates]. *)
Definition merge_update (existing_map : table) (update : dict) : option dict :=
  sku ← update !! "sku";
  existing ← existing_for existing_map sku;
  merge_record existing sku update.

(** The text keys among the SKUs of a batch. *)
Definition text_keys (skus : list value) : list string :=
  omap (λ sku, match sku with VStr s => Some s | _ => None end) skus.

(** [batch_update_products(supabase, updates, site)]: [None] when an
    exception escapes. *)
Definition batch_update_products (db : table) (updates : list dict)
    (site : string) : option table :=
  if bool_decide (updates = []) then Some db
  else
    skus ← mapM (λ u : dict, u !! "sku") updates;
    let existing_map := select_in SELECTED (text_keys skus) db in
    final_updates ← mapM (merge_update existing_map) updates;
    upsert final_updates db.

(** The entry of a site in a per-site column of the row stored under a
    SKU, and a whole column of that row; [None] where there is none. *)
Definition column (db : table) (sku field : string) : option value :=
  default ∅ (db !! sku) !! field.

Definition site_entry (db : table) (sku field site : string) : option value :=
  safe_dict (column db sku field) !! site.

(** The updates, or rows, of a batch that go to the row stored under
    [sku]. *)
Definition keyed_by (sku : string) (row : dict) : bool :=
  match row !! "sku" with
  | Some (VStr s) => bool_decide (s = sku)
  | _ => false
  end.

(** What the upsert of one payload leaves in a row. *)
Definition overwrite (stored : option dict) (payload : dict) : option dict :=
  Some (payload ∪ default ∅ stored).

(** An update carries only the key of [site] in its per-site fields. *)
Definition only_site (site : string) (update : dict) : Prop :=
  ∀ field new other,
    field ∈ PER_SITE_FIELDS → mapping (update !! field) = Some new →
    other ≠ site → new !! other = None.

(** The count invariant of a stored row for a site: the site's entry of
    [variation_counts] is the length of its entry of [variations]. *)
Definition count_matches (site : string) (row : option dict) : Prop :=
  ∃ variations,
    safe_dict (default ∅ row !! "variations") !! site = Some (VList variations)
    ∧ safe_dict (default ∅ row !! "variation_counts") !! site
      = Some (VInt (Z.of_nat (length variations))).

(** An update with all the per-site fields, each a map with the one key
    [site], as the enricher builds them. *)
Definition well_formed (site : string) (update : dict) : Prop :=
  ∀ field, field ∈ PER_SITE_FIELDS →
    ∃ x, update !! field = Some (VDict {[ site := x ]}).

(** A row, or an update, without its [last_synced_at]. *)
Definition without_sync_time (row : dict) : dict := delete "last_synced_at" row.

(** Two rows, or two updates, that differ at most in [last_synced_at]. *)
Definition same_but_sync_time (a b : dict) : Prop :=
  without_sync_time a = without_sync_time b.

(** An update whose SKU is a text. *)
Definition text_sku (update : dict) : Prop :=
  ∃ sku, update !! "sku" = Some (VStr sku).

(** The payloads of a list laid over one another, the later ones on top. *)
Definition stacked (rows : list dict) : dict :=
  foldl (λ below row, row ∪ below) ∅ rows.

(** Writing batches one after the other, when every write succeeds. *)
Fixpoint replay (site : string) (batches : list (list dict)) (db : table)
    : option table :=
  match batches with
  | [] => Some db
  | batch :: batches' =>
      db' ← batch_update_products db batch site; replay site batches' db'
  end.

End Batch.

(** ** The site synchronisation job: [full_sync_site] *)

Module Job.
Import WooCommerceClient Enricher Datastore Batch.

(** The [progress] dict shared between the loop and the tasks. *)
Record progress := Progress {
  completed : nat;
  success : nat;
  failed : nat;
  cancelled : bool;
}.

(** A row written to [sync_progress] by [update_progress] (the message and
    the time stamp are left out). *)
Record report := Report {
  status : string;
  report_site : string;
  current : nat;
  total : nat;
  report_success : nat;
  report_failed : nat;
}.

(** What the job shares with the outside: the [products] table, the rows
    written to [sync_progress] (oldest first), the number of times
    [check_if_cancelled] has been called, and the batches of updates that
    [batch_update_products] has written (oldest first). *)
Record world := World {
  db : table;
  reports : list report;
  polls : nat;
  writes : list (list dict);
}.

(** The local variables of the result loop, with the world. *)
Record state := State {
  prog : progress;
  pending_updates : list dict;
  failed_skus : list value;
  env : world;
}.

(** The dict the job returns. *)
Record summary := Summary {
  summary_site : string;
  summary_total : nat;
  summary_success : nat;
  summary_failed : nat;
  summary_cancelled : bool;
  summary_error : bool;
}.

Inductive job_result :=
| JobDone (s : summary)
| JobRaised
| JobRunning.

Definition BATCH_SIZE : nat := 300.

Section job.
Context `{PyFloat}.
(** The storefront of the site and the cancellation oracle: [oracle n] is
    what the n-th call of [check_if_cancelled] returns. *)
Context (up : upstream) (oracle : nat → bool).
Context (site : string).

(** [update_progress(supabase, site, current, total, success, failed,
    status, message)] *)
Definition update_progress (w : world) (current total success failed : nat)
    (status : string) : world :=
  {| db := db w;
     reports := reports w ++ [Report status site current total success failed];
     polls := polls w;
     writes := writes w |}.

(** [check_if_cancelled(supabase)] *)
Definition check_if_cancelled (w : world) : bool * world :=
  (oracle (polls w),
   {| db := db w; reports := reports w; polls := S (polls w);
      writes := writes w |}).

(** The world after [batch_update_products] has written [batch] and left
    the table [db']. *)
Definition written (w : world) (batch : list dict) (db' : table) : world :=
  {| db := db'; reports := reports w; polls := polls w;
     writes := writes w ++ [batch] |}.

(** The statements under [with progress_lock:] for a result that is not
    [None]; gives [batch_to_write] and the new state. *)
Definition accumulate (st : state) (result : task_result)
    : option (list dict) * state :=
  let p := prog st in
  let st :=
    match result with
    | TaskOk _ data =>
        {| prog := {| completed := completed p + 1; success := success p + 1;
                      failed := failed p; cancelled := cancelled p |};
           pending_updates :=
             if Py.truthy (VDict data) then pending_updates st ++ [data]
             else pending_updates st;
           failed_skus := failed_skus st;
           env := env st |}
    | TaskFailed sku =>
        {| prog := {| completed := completed p + 1; success := success p;
                      failed := failed p + 1; cancelled := cancelled p |};
           pending_updates := pending_updates st;
           failed_skus := failed_skus st ++ [sku];
           env := env st |}
    | _ => st
    end in
  if (BATCH_SIZE <=? length (pending_updates st))%nat
  then (Some (pending_updates st),
        {| prog := prog st; pending_updates := [];
           failed_skus := failed_skus st; env := env st |})
  else (None, st).

(** The progress tick: every 50 completions and at the last one, poll the
    oracle, raise the flag when it says so, and report [running] only
    while the flag is down. *)
Definition tick (total : nat) (st : state) : state :=
  let p := prog st in
  if ((completed p mod 50 =? 0) || (completed p =? total))%nat then
    let '(is_cancelled, w) := check_if_cancelled (env st) in
    let p :=
      if is_cancelled
      then {| completed := completed p; success := success p;
              failed := failed p; cancelled := true |}
      else p in
    let w :=
      if negb (cancelled p)
      then update_progress w (completed p) total (success p) (failed p) "running"
      else w in
    {| prog := p; pending_updates := pending_updates st;
       failed_skus := failed_skus st; env := w |}
  else st.

(** The body of [for future in as_completed(futures)] after the test of
    the flag, for a task that read the clock at [now].  Only the loop
    raises the flag, and it leaves at the next test, so a task whose
    result it takes has read the flag as the loop has it here.  An
    exception out of the task or out of the writer ends the round in the
    [except] clause, before the progress tick. *)
Definition handle (total : nat) (st : state) (now : string)
    (woo_product : value) : state :=
  match process_woo_product up site (cancelled (prog st)) now woo_product with
  | TaskRaised => st
  | TaskNone => st
  | result =>
      let '(batch_to_write, st) := accumulate st result in
      match batch_to_write with
      | Some ((_ :: _) as batch) =>
          match batch_update_products (db (env st)) batch site with
          | Some db' =>
              tick total
                {| prog := prog st; pending_updates := pending_updates st;
                   failed_skus := failed_skus st;
                   env := written (env st) batch db' |}
          | None => st
          end
      | _ => tick total st
      end
  end.

(** The result loop over the tasks in their order of completion; leaving
    it, the pool waits for the tasks still running, whose results are
    dropped. *)
Fixpoint consume (total : nat) (st : state)
    (futures : list (string * value)) : state :=
  match futures with
  | [] => st
  | (now, woo_product) :: futures' =>
      if cancelled (prog st) then st
      else consume total (handle total st now woo_product) futures'
  end.

(** After the pool: the last flush, the terminal status, the summary. *)
Definition finish (total : nat) (st : state) : job_result * world :=
  let p := prog st in
  let flushed :=
    if negb (bool_decide (pending_updates st = [])) && negb (cancelled p)
    then written (env st) (pending_updates st)
           <$> batch_update_products (db (env st)) (pending_updates st) site
    else Some (env st) in
  match flushed with
  | None => (JobRaised, env st)
  | Some w =>
      let final_status := if cancelled p then "cancelled" else "completed" in
      (JobDone {| summary_site := site; summary_total := total;
                  summary_success := success p; summary_failed := failed p;
                  summary_cancelled := cancelled p; summary_error := false |},
       update_progress w (completed p) total (success p) (failed p) final_status)
  end.

(** The state in which the result loop starts. *)
Definition start (w : world) : state :=
  {| prog := {| completed := 0; success := 0; failed := 0; cancelled := false |};
     pending_updates := []; failed_skus := []; env := w |}.

(** The job up to the result loop: either it is over ([inl]), or the loop
    starts from a world with the catalogue listed ([inr]). *)
Definition prepare (fuel : nat) (w : world)
    : (job_result * world) + (list value * world) :=
  if negb (bool_decide (site ∈ SITES)) then inl (JobRaised, w)
  else
    let w := update_progress w 0 0 0 0 "running" in
    match fst (get_all_products up fuel) with
    | ListingRunning => inl (JobRunning, w)
    | ListingRaised =>
        inl (JobDone (Summary site 0 0 0 false true),
             update_progress w 0 0 0 0 "error")
    | Listed [] =>
        inl (JobDone (Summary site 0 0 0 false false),
             update_progress w 0 0 0 0 "completed")
    | Listed woo_products =>
        let total := length woo_products in
        let '(is_cancelled, w) := check_if_cancelled w in
        if is_cancelled
        then inl (JobDone (Summary site total 0 0 true false),
                  update_progress w 0 total 0 0 "cancelled")
        else inr (woo_products, update_progress w 0 total 0 0 "running")
    end.

(** The state the result loop ends in, when the job gets that far.
    [pool] is the worker pool: the submitted products in their order of
    completion, each with the clock reading of its task. *)
Definition loop_end (pool : list value → list (string * value))
    (fuel : nat) (w : world) : option state :=
  match prepare fuel w with
  | inl _ => None
  | inr (woo_products, w) =>
      Some (consume (length woo_products) (start w) (pool woo_products))
  end.

(** [full_sync_site(supabase, site)] *)
Definition full_sync_site (pool : list value → list (string * value))
    (fuel : nat) (w : world) : job_result * world :=
  match prepare fuel w with
  | inl r => r
  | inr (woo_products, w) =>
      finish (length woo_products)
        (consume (length woo_products) (start w) (pool woo_products))
  end.

(** *** Notions the properties of the job are stated with *)

(** The updates the job hands to the writer: the [data] of a successful
    task. *)
Definition enriched (data : dict) : Prop :=
  ∃ cancelled now woo_product sku,
    process_woo_product up site cancelled now woo_product = TaskOk sku data.

(** Some poll of the oracle, from the [from]-th on, has answered
    "cancelled" by the time the world is [w]. *)
Definition polled_cancelled (from : nat) (w : world) : Prop :=
  ∃ n, (from ≤ n < polls w)%nat ∧ oracle n = true.

(** The flag is up exactly when a poll of this job, which started at the
    [from]-th, has answered "cancelled". *)
Definition flag_tracks_oracle (from : nat) (st : state) : Prop :=
  (from ≤ polls (env st))%nat
  ∧ (cancelled (prog st) = true ↔ polled_cancelled from (env st)).

(** Two worlds of two runs of the job that started with the write logs
    [ws] and [ws']: the oracle has been asked as often, and the batches
    written since the start differ in the time stamps at most. *)
Definition worlds_in_step (ws ws' : list (list dict)) (w w' : world) : Prop :=
  polls w = polls w'
  ∧ ∃ new new',
      writes w = ws ++ new ∧ writes w' = ws' ++ new'
      ∧ Forall2 (Forall2 same_but_sync_time) new new'.

(** Two states of the result loop of two such runs: the same counters and
    flag, pending updates that differ in the time stamps at most. *)
Definition in_step (ws ws' : list (list dict)) (st st' : state) : Prop :=
  prog st = prog st'
  ∧ Forall2 same_but_sync_time (pending_updates st) (pending_updates st')
  ∧ Forall enriched (pending_updates st)
  ∧ Forall enriched (pending_updates st')
  ∧ worlds_in_step ws ws' (env st) (env st').

End job.

(** Between the worlds [w] and [w'] a batch with an update for [sku] was
    written. *)
Definition wrote_to (w w' : world) (sku : string) : Prop :=
  ∃ new batch update,
    writes w' = writes w ++ new ∧ batch ∈ new ∧ update ∈ batch
    ∧ keyed_by sku update = true.

(** Two pools that complete the tasks in the same order, whatever the clock
    readings. *)
Definition same_order (pool pool' : list value → list (string * value)) : Prop :=
  ∀ woo_products, (pool woo_products).*2 = (pool' woo_products).*2.

(** The world in which a job is run again after it has left [w'] from [w]:
    the table and the logs are those of [w'], and the oracle is asked from
    where it was asked the first time. *)
Definition again (w w' : world) : world :=
  {| db := db w'; reports := reports w'; polls := polls w; writes := writes w' |}.

End Job.

(** ** Sample inputs *)

Module Sample.
Import WooCommerceClient.

(** A [float()] for numbers only. *)
Definition float_of_number : PyFloat :=
  λ v, match v with
       | VInt z => Some (VFloat z 0)
       | VFloat m e => Some (VFloat m e)
       | _ => None
       end.

(** A simple product of the catalogue: a SKU, an identifier, a price. *)
Definition jersey : dict :=
  <["sku" := VStr "A1"]> (<["id" := VInt 7]> (<["price" := VInt 20]> ∅)).

(** The same product with the stock quantity reported as zero. *)
Definition sold_out_jersey : dict :=
  <["stock_quantity" := VInt 0]> jersey.

(** A storefront whose catalogue is the one product, on one page. *)
Definition one_product_shop : upstream :=
  λ url _,
    match url with
    | ProductsPage 1 _ => Answered (Response 200 (Some (VList [VDict jersey])))
    | ProductsPage _ _ => Answered (Response 200 (Some (VList [])))
    | Product _ => Answered (Response 200 (Some (VDict sold_out_jersey)))
    | ProductVariations _ => Answered (Response 200 (Some (VList [])))
    end.

(** A pool that completes the tasks in the order of submission, all at the
    same clock reading. *)
Definition in_order (woo_products : list value) : list (string * value) :=
  (λ p, ("2024-01-01T00:00:00", p)) <$> woo_products.

(** An oracle that answers "cancelled" from the second poll on. *)
Definition cancel_at_second_poll (n : nat) : bool := (1 <=? n)%nat.

(** An empty datastore and nothing reported yet. *)
Definition fresh : Job.world := Job.World ∅ [] 0 [].

(** An oracle that never answers "cancelled". *)
Definition never_cancelled (n : nat) : bool := false.

(** A datastore that has the product from the primary site already. *)
Definition stocked : Job.world :=
  Job.World
    {[ "A1" :=
         <["sku" := VStr "A1"]>
         (<["name" := VStr "Home Jersey"]>
         (<["prices" := VDict {[ "com" := VInt 25 ]}]> ∅)) ]}
    [] 0 [].

(** An update for the site "uk" that carries a price only. *)
Definition uk_price : dict :=
  <["sku" := VStr "A1"]> (<["prices" := VDict {[ "uk" := VInt 19 ]}]> ∅).

(** The table after that update has been written to that datastore. *)
Definition uk_price_written : Datastore.table :=
  Eval vm_compute in
    default ∅ (Batch.batch_update_products (Job.db stocked) [uk_price] "uk").

(** The job for the site "uk" over that storefront and that datastore. *)
Definition uk_sync : Job.job_result * Job.world :=
  Job.full_sync_site (H:=float_of_number) one_product_shop
    never_cancelled "uk" in_order 5 stocked.

(** The batches that job has written, the first of them, and its first
    update. *)
Definition uk_sync_writes : list (list dict) :=
  Eval vm_compute in Job.writes uk_sync.2.

Definition uk_sync_batch : list dict := default [] (head uk_sync_writes).

Definition uk_sync_update : dict := default ∅ (head uk_sync_batch).

(** The job for the site "uk" over that storefront, cancelled at the second
    poll, and the state its result loop ends in. *)
Definition cancelled_sync : Job.job_result * Job.world :=
  Job.full_sync_site (H:=float_of_number) one_product_shop
    cancel_at_second_poll "uk" in_order 5 fresh.

Definition cancelled_loop_end : option Job.state :=
  Job.loop_end (H:=float_of_number) one_product_shop
    cancel_at_second_poll "uk" in_order 5 fresh.

(** Whether writing the updates a state holds pending would store a row
    under [sku]. *)
Definition flush_would_store (sku : string) (st : Job.state) : option bool :=
  flushed ← Batch.batch_update_products (Job.db (Job.env st))
               (Job.pending_updates st) "uk";
  Some (bool_decide (is_Some (flushed !! sku))).

End Sample.

(** ** The rest of the file: single products, the table scan, all sites *)

(** What the retry gate's trace looks like. *)
Module Trace.
Import WooCommerceClient.

(** [k] failed attempts, each followed by its sleep, then attempt [k]. *)
Definition retry_trace (k : nat) : list event :=
  flat_map (λ attempt, [Get attempt; Sleep (wait_time attempt)]) (seq 0 k)
  ++ [Get k].

(** The seconds slept and the requests made in a trace. *)
Definition slept (events : list event) : nat :=
  sum_list_with (λ e, match e with Sleep s => s | Get _ => 0%nat end) events.

Definition requests (events : list event) : nat :=
  sum_list_with (λ e, match e with Get _ => 1%nat | Sleep _ => 0%nat end) events.

(** The elements [extend] takes from a page: those of the value fetched,
    none when the fetch raised or the value is not iterable. *)
Definition page_elements {E} (fetch : nat → E + value) (page : nat)
    : list value :=
  match fetch page with
  | inr products => default [] (Py.iter products)
  | inl _ => []
  end.

(** A page on which the reader goes on: truthy, with at least 100
    elements. *)
Definition full_page {E} (fetch : nat → E + value) (page : nat) : Prop :=
  ∃ products items,
    fetch page = inr products ∧ Py.truthy products = true
    ∧ Py.iter products = Some items ∧ (100 ≤ length items)%nat.

(** A page the reader stops at without an exception: a value that is falsy,
    or iterable with fewer than 100 elements. *)
Definition last_page {E} (fetch : nat → E + value) (page : nat) : Prop :=
  ∃ products,
    fetch page = inr products
    ∧ (Py.truthy products = false
       ∨ ∃ items, Py.iter products = Some items ∧ (length items < 100)%nat).

(** A page at which an exception escapes the reader: the request raises, or
    the value is truthy and not iterable. *)
Definition raising_page {E} (fetch : nat → E + value) (page : nat) : Prop :=
  (∃ e, fetch page = inl e)
  ∨ ∃ products,
      fetch page = inr products ∧ Py.truthy products = true
      ∧ Py.iter products = None.

End Trace.

(** [pull_product_from_site] *)
Module Single.
Import WooCommerceClient Enricher Datastore Batch.

Section single.
Context `{PyFloat}.

(** [pull_product_from_site(supabase, sku, woo_id, site)]: the result of
    the fetch and the table afterwards, [None] when the writer raises. *)
Definition pull_product_from_site (up : upstream) (now : string)
    (db : table) (sku : value) (woo_id : value) (site : string)
    : option (task_result * table) :=
  let result := fetch_product_from_woo up now sku woo_id site in
  match result with
  | TaskOk _ data =>
      if Py.truthy (VDict data)
      then db' ← batch_update_products db [data] site; Some (result, db')
      else Some (result, db)
  | _ => Some (result, db)
  end.

End single.
End Single.

(** [get_all_products(supabase)], the scan of the [products] table *)
Module Scan.

Definition page_size : nat := 1000.

(** The result of the scan: the rows, or no result within the given
    number of iterations. *)
Inductive scan :=
| Scanned (all_products : list dict)
| Scanning.

(** [get_all_products(supabase)]: the [while True] loop with [fuel]
    bounding its iterations; [range from to] is
    [select('sku, woo_ids').range(from, to).execute().data].  The second
    component lists the offsets asked for. *)
Fixpoint get_all_products_from (range : nat → nat → list dict) (fuel : nat)
    (offset : nat) (all_products : list dict) : scan * list nat :=
  match fuel with
  | O => (Scanning, [])
  | S fuel' =>
      let data := range offset (offset + page_size - 1)%nat in
      if bool_decide (data = []) then (Scanned all_products, [offset])
      else
        let all_products := all_products ++ data in
        if (length data <? page_size)%nat then (Scanned all_products, [offset])
        else
          let r := get_all_products_from range fuel' (offset + page_size)
                     all_products in
          (r.1, offset :: r.2)
  end.

Definition get_all_products (range : nat → nat → list dict) (fuel : nat) :=
  get_all_products_from range fuel 0 [].

(** A datastore that answers [range(from, to)] with the rows [from] to
    [to], both included, of one list of rows. *)
Definition ranges_over (rows : list dict) (range : nat → nat → list dict)
    : Prop :=
  ∀ from to, range from to = take (S to - from) (drop from rows).

End Scan.

(** [full_sync_all] *)
Module SyncAll.
Import WooCommerceClient Datastore Job.

(** What [full_sync_all] ends with: the [results] dict, an exception, or no
    result within the bound of a catalogue reader. *)
Inductive all_result :=
| AllDone (results : gmap string summary)
| AllRaised
| AllRunning.

Section all.
Context `{PyFloat}.
(** The storefront of each site. *)
Context (ups : string → upstream) (oracle : nat → bool).
Context (pool : list value → list (string * value)) (fuel : nat).

(** [site not in SITES], for a value: only a text can be a key of
    [SITES]; a list or a dict raises [TypeError]. *)
Definition unknown_site (site : value) : option bool :=
  match site with
  | VStr s => Some (negb (bool_decide (s ∈ SITES)))
  | VList _ | VDict _ => None
  | _ => Some true
  end.

(** The [for site in sites] loop. *)
Fixpoint sync_sites (sites : list value) (results : gmap string summary)
    (w : world) : all_result * world :=
  match sites with
  | [] => (AllDone results, w)
  | site :: sites' =>
      match unknown_site site, site with
      | None, _ => (AllRaised, w)
      | Some false, VStr s =>
          match full_sync_site (ups s) oracle s pool fuel w with
          | (JobDone r, w') => sync_sites sites' (<[s := r]> results) w'
          | (JobRaised, w') => (AllRaised, w')
          | (JobRunning, w') => (AllRunning, w')
          end
      | _, _ => sync_sites sites' results w
      end
  end.

(** [full_sync_all(supabase, sites)]; [sites] is [None] by default. *)
Definition full_sync_all (sites : option (list value)) (w : world)
    : all_result * world :=
  let sites :=
    match sites with
    | None => [VStr "com"; VStr "uk"; VStr "de"; VStr "fr"]
    | Some sites => sites
    end in
  sync_sites sites ∅ w.

End all.
End SyncAll.

(** ** Notions for the result loop *)

Module Loop.
Import WooCommerceClient Enricher Job.

Section loop.
Context `{PyFloat} (up : upstream) (site : string).

(** The update a task hands to the loop, while the flag is down. *)
Definition task_update (future : string * value) : option dict :=
  match process_woo_product up site false future.1 future.2 with
  | TaskOk _ data => Some data
  | _ => None
  end.

(** The writer raises on no batch made of the given updates, whatever
    the table. *)
Definition accepted (updates : list dict) : Prop :=
  ∀ (db : Datastore.table) (batch : list dict),
    batch ≠ [] → (∀ u, u ∈ batch → u ∈ updates) →
    is_Some (Batch.batch_update_products db batch site).

(** The loop has its flag down and nothing of the tasks [done] is lost:
    their updates, in order, are the batches written since the write log
    was [ws] followed by the pending ones, and [success] counts them. *)
Definition all_written (ws : list (list dict))
    (done : list (string * value)) (st : state) : Prop :=
  cancelled (prog st) = false
  ∧ Forall (enriched up site) (pending_updates st)
  ∧ success (prog st) = length (omap task_update done)
  ∧ ∃ new,
      writes (env st) = ws ++ new
      ∧ concat new ++ pending_updates st = omap task_update done.

End loop.

(** The state after a batch has been written. *)
Definition after_write (st : state) (batch : list dict)
    (db' : Datastore.table) : state :=
  {| prog := prog st; pending_updates := pending_updates st;
     failed_skus := failed_skus st;
     env := {| db := db'; reports := reports (env st); polls := polls (env st);
               writes := writes (env st) ++ [batch] |} |}.

(** What a result adds to [pending_updates]. *)
Definition incoming (result : task_result) : list dict :=
  match result with
  | TaskOk _ data => if Py.truthy (VDict data) then [data] else []
  | _ => []
  end.

(** A status row of the job for [site] whose counters add up. *)
Definition consistent (site : string) (r : report) : Prop :=
  report_site r = site
  ∧ current r = (report_success r + report_failed r)%nat.

(** The status the job reports last when it returns [s]. *)
Definition terminal_status (s : summary) : string :=
  if summary_error s then "error"
  else if summary_cancelled s then "cancelled"
  else "completed".

End Loop.

(** ** More sample inputs *)

Module Shop.
Import WooCommerceClient Enricher.

(** A product of the primary site with two attributes, one of them under a
    name the enricher does not know. *)
Definition team_jersey : dict :=
  <["sku" := VStr "B2"]>
  (<["id" := VInt 8]>
  (<["attributes" :=
       VList [VDict (<["name" := VStr "Team"]>
                    (<["options" := VList [VStr "Arsenal"]]> ∅));
              VDict (<["name" := VStr "Fabric"]>
                    (<["options" := VList [VStr "Cotton"]]> ∅))]]> ∅)).

(** Its update, as the task of the job builds it. *)
Definition team_jersey_update : dict :=
  Eval vm_compute in
    match process_woo_product (H:=Sample.float_of_number)
            Sample.one_product_shop "com" false "2024-01-01T00:00:00"
            (VDict team_jersey) with
    | TaskOk _ data => data
    | _ => ∅
    end.

(** A variable product, and a storefront that lists two sizes of it. *)
Definition sized_jersey : dict :=
  <["sku" := VStr "C3"]> (<["id" := VInt 9]> (<["type" := VStr "variable"]> ∅)).

Definition sizes : list value :=
  [VDict (<["id" := VInt 91]> (<["sku" := VStr "C3-M"]> ∅));
   VDict (<["id" := VInt 92]> (<["sku" := VStr "C3-L"]> ∅))].

Definition sizes_shop : upstream :=
  λ url _,
    match url with
    | ProductVariations _ => Answered (Response 200 (Some (VList sizes)))
    | _ => Answered (Response 200 (Some (VList [])))
    end.

(** A second update for the site "uk", for another SKU, and the table
    after a batch of the two has been written. *)
Definition uk_price_b2 : dict :=
  <["sku" := VStr "B2"]> (<["prices" := VDict {[ "uk" := VInt 29 ]}]> ∅).

Definition two_prices_written : Datastore.table :=
  Eval vm_compute in
    default ∅ (Batch.batch_update_products (Job.db Sample.stocked)
                 [Sample.uk_price; uk_price_b2] "uk").

(** One product pulled for the site "uk" into the datastore that has it
    from the primary site: what the function returns. *)
Definition pulled : Enricher.task_result * Datastore.table :=
  Eval vm_compute in
    default (TaskRaised, ∅)
      (Single.pull_product_from_site (H:=Sample.float_of_number)
         Sample.one_product_shop "2024-01-01T00:00:00" (Job.db Sample.stocked)
         (VStr "A1") (VInt 7) "uk").

Definition pulled_result : Enricher.task_result := Eval vm_compute in pulled.1.
Definition pulled_table : Datastore.table := Eval vm_compute in pulled.2.

(** A run over two names, one of them not configured, on the datastore
    that has the product from the primary site; the storefront of every
    site is the one-product shop. *)
Definition two_names : list value := [VStr "uk"; VStr "mars"].

Definition two_names_sync : SyncAll.all_result * Job.world :=
  SyncAll.full_sync_all (H:=Sample.float_of_number)
    (λ _, Sample.one_product_shop) Sample.never_cancelled Sample.in_order 5
    (Some two_names) Sample.stocked.

Definition two_names_results : gmap string Job.summary :=
  Eval vm_compute in
    match two_names_sync.1 with
    | SyncAll.AllDone results => results
    | _ => ∅
    end.

(** A product whose SKU is a list, and a state of the result loop one
    update short of a full batch. *)
Definition list_sku_jersey : dict :=
  <["sku" := VList [VStr "A1"]]> Sample.jersey.

Definition almost_full : Job.state :=
  Job.State (Job.Progress 299 299 0 false)
    (replicate 299 Sample.uk_sync_update) [] Sample.stocked.

(** The round of the loop that takes that product in that state. *)
Definition filling_round : option (list dict) * Job.state :=
  Job.accumulate almost_full
    (process_woo_product (H:=Sample.float_of_number) Sample.one_product_shop
       "uk" false "2024-01-01T00:00:00" (VDict list_sku_jersey)).

End Shop.

(** ** A catalogue of more than one batch *)

Module Crowd.
Import WooCommerceClient.

(** A two-letter SKU for each number below 676. *)
Definition sku_of (i : nat) : string :=
  String (Ascii.ascii_of_nat (97 + i / 26))
    (String (Ascii.ascii_of_nat (97 + i mod 26)) EmptyString).

Definition numbered (i : nat) (sku : string) (price : Z) : value :=
  VDict (<["sku" := VStr sku]>
        (<["id" := VInt (Z.of_nat i)]> (<["price" := VInt price]> ∅))).

(** 301 products: the first and the last carry the SKU "A1", at the prices
    20 and 30; the 299 between them have SKUs of their own. *)
Definition crowd : list value :=
  numbered 0 "A1" 20
  :: ((λ i, numbered i (sku_of i) 10) <$> seq 1 299)
  ++ [numbered 300 "A1" 30].

(** The storefront that lists them, page by page, and answers every request
    at the first attempt, the same way each time. *)
Definition crowd_shop : upstream :=
  λ url _,
    match url with
    | ProductsPage page per_page =>
        Answered (Response 200
          (Some (VList (take per_page (drop ((page - 1) * per_page) crowd)))))
    | _ => Answered (Response 200 (Some (VList [])))
    end.

(** A pool that completes the tasks in the reverse order of submission, and
    one that completes them in order at a later clock reading. *)
Definition backwards (woo_products : list value) : list (string * value) :=
  Sample.in_order (reverse woo_products).

Definition later (woo_products : list value) : list (string * value) :=
  (λ p, ("2024-06-30T12:00:00", p)) <$> woo_products.

(** The job for the site "uk" on an empty datastore, and the job run again
    on what it left, the tasks completing in the reverse order. *)
Definition first_run : Job.job_result * Job.world :=
  Job.full_sync_site (H:=Sample.float_of_number) crowd_shop
    Sample.never_cancelled "uk" Sample.in_order 6 Sample.fresh.

Definition second_run : Job.job_result * Job.world :=
  Job.full_sync_site (H:=Sample.float_of_number) crowd_shop
    Sample.never_cancelled "uk" backwards 6
    (Job.again Sample.fresh first_run.2).

End Crowd.

(** * Properties *)

(** ** Python helpers *)

Section python.

Example strip_spaces_ex : Py.strip_spaces (Py.lower "Jersey Type") = "jerseytype".
Proof. reflexivity. Qed.

Example or_zero : Py.or (VInt 0) (VInt 100) = VInt 100.
Proof. reflexivity. Qed.

Example or_empty_dict : Py.or (VDict ∅) (VInt 1) = VInt 1.
Proof. reflexivity. Qed.

Lemma or_falsy a b : Py.truthy a = false → Py.or a b = b.
Proof. unfold Py.or. by intros ->. Qed.

Lemma or_truthy a b : Py.truthy a = true → Py.or a b = a.
Proof. unfold Py.or. by intros ->. Qed.

End python.

(** ** The retry gate *)

Section retry_gate.
Import WooCommerceClient Outcome.

Example request_ok_first :
  _request_with_retry (λ _, Answered (Response 200 (Some VNull)))
  = (inr (Response 200 (Some VNull)), [Get 0%nat]).
Proof. reflexivity. Qed.

Example request_recovers :
  _request_with_retry
    (λ n, if (n =? 0)%nat then Answered (Response 404 None)
          else Answered (Response 200 (Some VNull)))
  = (inr (Response 200 (Some VNull)), [Get 0; Sleep 2; Get 1]%nat).
Proof. reflexivity. Qed.

Lemma transient_failed o : transient o = true → failed o = true.
Proof.
  destruct o as [[st body]|]; simpl; [|done].
  intros ->%Z.eqb_eq. reflexivity.
Qed.

Lemma client_error_failed o : client_error o = true → failed o = true.
Proof.
  destruct o as [[st body]|]; simpl; [|done].
  unfold raises_for_status; simpl. intros H.
  apply andb_prop in H as [H _]. apply andb_prop in H as [H1 H2].
  rewrite H1. simpl. apply Z.ltb_lt. apply Z.ltb_lt in H2. lia.
Qed.

(** One iteration that fails before the last attempt sleeps for
    [wait_time attempt] and hands over to the next iteration. *)
Lemma request_attempts_failed_early get max_retries attempt rest :
  failed (get attempt) = true →
  (attempt < max_retries - 1)%nat →
  request_attempts get max_retries (attempt :: rest)
  = (fst (request_attempts get max_retries rest),
     Get attempt :: Sleep (wait_time attempt)
       :: snd (request_attempts get max_retries rest)).
Proof.
  intros Hf Hlt. simpl.
  apply Nat.ltb_lt in Hlt. rewrite Hlt.
  destruct (request_attempts get max_retries rest) as [res evs]; simpl.
  destruct (get attempt) as [r|]; simpl in *; [|done].
  rewrite Hf, andb_true_r. by destruct (status_code r =? 503).
Qed.

(** At the last attempt a failure is re-raised without a sleep. *)
Lemma request_attempts_failed_last get max_retries attempt rest :
  failed (get attempt) = true →
  ¬ (attempt < max_retries - 1)%nat →
  request_attempts get max_retries (attempt :: rest)
  = (inl (error_of (get attempt)), [Get attempt]).
Proof.
  intros Hf Hlt. simpl.
  apply Nat.ltb_nlt in Hlt. rewrite Hlt.
  destruct (get attempt) as [r|]; simpl in *; [|done].
  by rewrite Hf, andb_false_r.
Qed.

(** Three failed attempts: two sleeps, then the third error. *)
Lemma request_fails_three_times get :
  (∀ n, (n < 3)%nat → failed (get n) = true) →
  _request_with_retry get
  = (inl (error_of (get 2%nat)), [Get 0; Sleep 2; Get 1; Sleep 4; Get 2]%nat).
Proof.
  intros Hf. unfold _request_with_retry, _request_with_retry_n.
  change (seq 0 3) with [0; 1; 2]%nat.
  rewrite request_attempts_failed_early by (auto with lia).
  rewrite request_attempts_failed_early by (auto with lia).
  rewrite request_attempts_failed_last by (auto with lia).
  reflexivity.
Qed.

(** C6: a request that fails transiently on every attempt is attempted
    exactly three times; the gate sleeps 2 seconds after the first failure,
    4 seconds after the second, not at all after the third, and then raises
    the third attempt's error. *)
Theorem retry_bound_transient (get : nat → http_outcome) :
  (∀ n, (n < 3)%nat → transient (get n) = true) →
  _request_with_retry get
  = (inl (error_of (get 2%nat)), [Get 0; Sleep 2; Get 1; Sleep 4; Get 2]%nat).
Proof.
  intros Ht. apply request_fails_three_times.
  intros n Hn. apply transient_failed, Ht, Hn.
Qed.

Lemma retry_bound_transient_witness :
  _request_with_retry (λ _, TransportFailed)
  = (inl TransportError, [Get 0; Sleep 2; Get 1; Sleep 4; Get 2]%nat).
Proof.
  apply (retry_bound_transient (λ _, TransportFailed)). reflexivity.
Defined.

(** C3, as stated, fails: a 404 on every attempt is requested three times,
    with both sleeps, before the error reaches the caller. *)
Lemma client_error_is_retried :
  let get := λ _ : nat, Answered (Response 404 None) in
  client_error (get 0%nat) = true
  ∧ _request_with_retry get
    = (inl (HTTPError 404), [Get 0; Sleep 2; Get 1; Sleep 4; Get 2]%nat)
  ∧ ¬ fails_immediately get.
Proof.
  split; [reflexivity|]. split; [reflexivity|].
  intros [e He]. vm_compute in He. discriminate He.
Qed.

(** C3, amended: a client error (a 4xx status other than 429) takes the same
    path as every other failed request.  After such an answer to the first
    attempt the gate sleeps 2 seconds and asks again; when every attempt is
    answered so, the error of the third attempt is raised after sleeps of 2
    and 4 seconds. *)
Theorem client_error_retried (get : nat → http_outcome) :
  client_error (get 0%nat) = true →
  (∃ res evs, _request_with_retry get
              = (res, Get 0%nat :: Sleep 2 :: evs) ∧ evs ≠ [])
  ∧ ((∀ n, (n < 3)%nat → client_error (get n) = true) →
     _request_with_retry get
     = (inl (error_of (get 2%nat)), [Get 0; Sleep 2; Get 1; Sleep 4; Get 2]%nat)).
Proof.
  intros H0. split.
  - unfold _request_with_retry, _request_with_retry_n.
    change (seq 0 3) with [0; 1; 2]%nat.
    rewrite request_attempts_failed_early
      by (simpl; auto using client_error_failed with lia).
    eexists _, _. split; [reflexivity|].
    simpl. repeat case_match; simplify_eq; done.
  - intros Hall. apply request_fails_three_times.
    intros n Hn. apply client_error_failed, Hall, Hn.
Qed.

Lemma client_error_retried_witness :
  _request_with_retry (λ _, Answered (Response 404 None))
  = (inl (HTTPError 404), [Get 0; Sleep 2; Get 1; Sleep 4; Get 2]%nat).
Proof.
  apply (client_error_retried (λ _, Answered (Response 404 None)));
    reflexivity.
Defined.

End retry_gate.

(** ** The catalogue reader *)

Section catalog_reader.
Import WooCommerceClient Outcome.
Context {E : Type} (fetch : nat → E + value).

Example reader_two_pages :
  get_all_products_with
    (λ page, if (page =? 1)%nat then inr (VList (replicate 100 VNull))
             else inr (VList [VInt 1; VInt 2]) : unit + value) 5
  = (Listed (replicate 100 VNull ++ [VInt 1; VInt 2]), [1; 2]%nat).
Proof. vm_compute. reflexivity. Qed.

(** A non-empty short page ends the loop after its items are appended. *)
Lemma reader_short_page fuel page acc l :
  fetch page = inr (VList l) → (length l < 100)%nat →
  get_all_products_from fetch (S fuel) page acc = (Listed (acc ++ l), [page]).
Proof.
  intros Hp Hlen. simpl. rewrite Hp.
  destruct l as [|x l]; simpl.
  - by rewrite app_nil_r.
  - apply Nat.ltb_lt in Hlen. simpl in Hlen. by rewrite Hlen.
Qed.

(** A full page is appended and the next page is requested. *)
Lemma reader_full_page fuel page acc l :
  fetch page = inr (VList l) → length l = 100%nat →
  get_all_products_from fetch (S fuel) page acc
  = (fst (get_all_products_from fetch fuel (page + 1) (acc ++ l)),
     page :: snd (get_all_products_from fetch fuel (page + 1) (acc ++ l))).
Proof.
  intros Hp Hlen. simpl. rewrite Hp.
  assert (Py.truthy (VList l) = true) as ->.
  { destruct l; [discriminate Hlen | reflexivity]. }
  simpl. rewrite Hlen. reflexivity.
Qed.

(** [k] full pages from [page] on, then a short one. *)
Lemma reader_from_spec k : ∀ fuel page acc M,
  (k < fuel)%nat →
  (∀ i, (i < k)%nat → page_of_size fetch (page + i) 100) →
  page_of_size fetch (page + k) M → (M < 100)%nat →
  get_all_products_from fetch fuel page acc
  = (Listed (acc ++ flat_map (page_items fetch) (seq page (S k))),
     seq page (S k)).
Proof.
  induction k as [|k IH]; intros fuel page acc M Hfuel Hfull Hlast HM.
  - destruct fuel as [|fuel]; [lia|].
    destruct Hlast as (l & Hl & Hlen). rewrite Nat.add_0_r in Hl.
    rewrite (reader_short_page _ _ _ l) by (done || lia).
    cbn [seq flat_map]. unfold page_items. rewrite Hl, app_nil_r. reflexivity.
  - destruct fuel as [|fuel]; [lia|].
    destruct (Hfull 0%nat) as (l & Hl & Hlen); [lia|].
    rewrite Nat.add_0_r in Hl.
    rewrite (reader_full_page _ _ _ l) by done.
    rewrite (IH fuel (page + 1)%nat (acc ++ l) M); [| lia | | | done].
    + rewrite Nat.add_1_r. cbn [seq flat_map fst snd].
      replace (page_items fetch page) with l
        by (unfold page_items; by rewrite Hl).
      by rewrite <- app_assoc.
    + intros i Hi. replace (page + 1 + i)%nat with (page + S i)%nat by lia.
      apply Hfull. lia.
    + replace (page + 1 + k)%nat with (page + S k)%nat by lia. done.
Qed.

Lemma flat_map_pages_length k : ∀ page M,
  (∀ i, (i < k)%nat → page_of_size fetch (page + i) 100) →
  page_of_size fetch (page + k) M →
  length (flat_map (page_items fetch) (seq page (S k))) = (k * 100 + M)%nat.
Proof.
  induction k as [|k IH]; intros page M Hfull Hlast.
  - destruct Hlast as (l & Hl & Hlen). rewrite Nat.add_0_r in Hl.
    cbn [seq flat_map]. unfold page_items. rewrite Hl, app_nil_r. done.
  - destruct (Hfull 0%nat) as (l & Hl & Hlen); [lia|].
    rewrite Nat.add_0_r in Hl.
    change (seq page (S (S k))) with (page :: seq (S page) (S k)).
    cbn [flat_map]. rewrite length_app.
    rewrite (IH (S page) M).
    + unfold page_items. rewrite Hl. lia.
    + intros i Hi. replace (S page + i)%nat with (page + S i)%nat by lia.
      apply Hfull. lia.
    + replace (S page + k)%nat with (page + S k)%nat by lia. done.
Qed.

(** C7: when pages 1..N-1 are full (100 items) and page N has M < 100 items
    (M = 0 included), the reader returns, for every bound of at least N
    iterations, the pages concatenated in page order, (N-1)*100 + M items in
    all, and it has requested pages 1..N and no other. *)
Theorem pagination_termination (N M fuel : nat) :
  (1 ≤ N)%nat → (M < 100)%nat → (N ≤ fuel)%nat →
  (∀ p, (1 ≤ p < N)%nat → page_of_size fetch p 100) →
  page_of_size fetch N M →
  ∃ items,
    get_all_products_with fetch fuel = (Listed items, seq 1 N)
    ∧ items = flat_map (page_items fetch) (seq 1 N)
    ∧ length items = ((N - 1) * 100 + M)%nat
    ∧ (N + 1)%nat ∉ seq 1 N.
Proof.
  intros HN HM Hfuel Hfull Hlast.
  destruct N as [|k]; [lia|].
  assert (Hfull' : ∀ i, (i < k)%nat → page_of_size fetch (1 + i) 100).
  { intros i Hi. apply Hfull. lia. }
  assert (Hlast' : page_of_size fetch (1 + k) M) by exact Hlast.
  exists (flat_map (page_items fetch) (seq 1 (S k))).
  split; [|split; [done|split]].
  - unfold get_all_products_with.
    rewrite (reader_from_spec k fuel 1%nat [] M) by (done || lia).
    reflexivity.
  - rewrite (flat_map_pages_length k 1%nat M) by done.
    f_equal. lia.
  - rewrite list_elem_of_In, in_seq. lia.
Qed.

End catalog_reader.

Lemma pagination_termination_witness :
  ∃ items,
    WooCommerceClient.get_all_products_with
      (λ page, if (page =? 1)%nat then inr (VList (replicate 100 VNull))
               else inr (VList [VInt 1; VInt 2]) : unit + value) 2
    = (WooCommerceClient.Listed items, [1; 2]%nat)
    ∧ length items = 102%nat.
Proof.
  destruct (pagination_termination
              (λ page, if (page =? 1)%nat then inr (VList (replicate 100 VNull))
                       else inr (VList [VInt 1; VInt 2]) : unit + value)
              2 2 2) as (items & H1 & _ & H3 & _).
  - lia.
  - lia.
  - lia.
  - intros p Hp. assert (p = 1%nat) as -> by lia.
    eexists. split; [reflexivity|]. apply length_replicate.
  - eexists. split; reflexivity.
  - exists items. split; [exact H1 | exact H3].
Defined.

(** ** The item enricher *)

(** Membership of a literal key in a literal list of keys. *)
Ltac solve_key_notin :=
  repeat (apply not_elem_of_cons; split; [discriminate|]); apply not_elem_of_nil.

Section enricher.
Import WooCommerceClient Enricher.
Context `{PyFloat}.
Context (up : upstream) (site : string).

(** What a successful result of [process_woo_product] is made of. *)
Lemma process_woo_product_ok cancelled now woo_product sku data :
  process_woo_product up site cancelled now woo_product = TaskOk sku data →
  ∃ wp base,
    woo_product = VDict wp
    ∧ sku = Py.get_or wp "sku" (VStr "")
    ∧ Py.truthy sku = true
    ∧ site_update_data site now wp sku = Some base
    ∧ finish_update_data up site wp (Py.get wp "id")
        (<["woo_ids" := per_site site (Py.get wp "id")]> base) = Some data.
Proof.
  unfold process_woo_product. intros Hok.
  destruct cancelled; [done|].
  destruct woo_product as [| | | | |?|wp]; try done.
  destruct (Py.truthy (Py.get_or wp "sku" (VStr ""))) eqn:Hsku; [|done].
  simpl in Hok.
  destruct (site_update_data site now wp _) as [base|] eqn:Hbase; [|done].
  simpl in Hok.
  destruct (finish_update_data up site wp _ _) as [ud|] eqn:Hfin; [|done].
  simplify_eq. by exists wp, base.
Qed.

(** And of [fetch_product_from_woo]. *)
Lemma fetch_product_from_woo_ok now sku woo_id data :
  fetch_product_from_woo up now sku woo_id site = TaskOk sku data →
  ∃ wp base,
    get_product up woo_id = inr (VDict wp)
    ∧ site_update_data site now wp sku = Some base
    ∧ finish_update_data up site wp woo_id base = Some data.
Proof.
  unfold fetch_product_from_woo. intros Hok.
  case_bool_decide; [|done]. simpl in Hok.
  destruct (get_product up woo_id) as [e|[| | | | |?|wp]]; try done.
  simpl in Hok.
  destruct (site_update_data site now wp sku) as [base|] eqn:Hbase; [|done].
  simpl in Hok.
  destruct (finish_update_data up site wp woo_id base) as [ud|] eqn:Hfin; [|done].
  simplify_eq. by exists wp, base.
Qed.

(** The keys of the opening literal. *)
Lemma site_update_data_lookup now wp sku base :
  site_update_data site now wp sku = Some base →
  base !! "sku" = Some sku
  ∧ base !! "stock_quantities"
    = Some (per_site site (Py.or (Py.get wp "stock_quantity") (VInt 100)))
  ∧ base !! "stock_statuses"
    = Some (per_site site (Py.get_or wp "stock_status" (VStr "instock")))
  ∧ base !! "statuses"
    = Some (per_site site (Py.get_or wp "status" (VStr "publish")))
  ∧ base !! "last_synced_at" = Some (VStr now)
  ∧ (∀ f, f ∈ ["name"; "images"; "categories"; "attributes"] → base !! f = None)
  ∧ (∀ f, f ∈ ["prices"; "regular_prices"; "stock_quantities"; "stock_statuses";
               "statuses"; "content"; "sync_status"] →
          ∃ x, base !! f = Some (per_site site x)).
Proof.
  unfold site_update_data. intros Hb.
  destruct (price_of wp "sale_price") as [p|]; [|done]. simpl in Hb.
  destruct (price_of wp "regular_price") as [rp|]; [|done]. simpl in Hb.
  simplify_eq. repeat split; try done.
  - intros f Hf. repeat (apply elem_of_cons in Hf as [->|Hf]; [done|]).
    by apply elem_of_nil in Hf.
  - intros f Hf.
    repeat (apply elem_of_cons in Hf as [->|Hf]; [by eexists|]).
    by apply elem_of_nil in Hf.
Qed.

(** The shared fields are the only keys [shared_update_data] writes. *)
Lemma shared_update_data_other wp ud ud' f :
  shared_update_data wp ud = Some ud' →
  f ∉ ["name"; "images"; "categories"; "attributes"] →
  ud' !! f = ud !! f.
Proof.
  unfold shared_update_data. intros Hs Hf.
  destruct (pluck wp "images" "src") as [imgs|]; [|done]. simpl in Hs.
  destruct (pluck wp "categories" "name") as [cats|]; [|done]. simpl in Hs.
  destruct (Py.iter _) as [attrs|]; [|done]. simpl in Hs.
  destruct (extract_attributes ∅ attrs) as [attributes|]; [|done]. simpl in Hs.
  assert (f ≠ "name" ∧ f ≠ "images" ∧ f ≠ "categories" ∧ f ≠ "attributes")
    as (?&?&?&?).
  { repeat split; intros ->; apply Hf; repeat constructor. }
  simplify_eq. case_match; by rewrite !lookup_insert_ne.
Qed.

(** [finish_update_data] leaves every key alone but the shared fields and the
    two variation maps. *)
Lemma finish_update_data_other wp woo_id ud data f :
  finish_update_data up site wp woo_id ud = Some data →
  f ∉ ["name"; "images"; "categories"; "attributes"] →
  f ≠ "variations" → f ≠ "variation_counts" →
  data !! f = ud !! f.
Proof.
  unfold finish_update_data. intros Hfin Hf Hv Hc.
  destruct (String.eqb site "com").
  - destruct (shared_update_data wp ud) as [ud'|] eqn:Hs; [|done].
    simpl in Hfin. simplify_eq. unfold with_variations.
    rewrite !lookup_insert_ne by done.
    by eapply shared_update_data_other.
  - simpl in Hfin. simplify_eq. unfold with_variations.
    by rewrite !lookup_insert_ne.
Qed.

(** The two variation maps are written last and together. *)
Lemma finish_update_data_variations wp woo_id ud data :
  finish_update_data up site wp woo_id ud = Some data →
  data !! "variations"
  = Some (per_site site (VList (site_variations up wp woo_id)))
  ∧ data !! "variation_counts"
    = Some (per_site site (VInt (Z.of_nat (length (site_variations up wp woo_id))))).
Proof.
  unfold finish_update_data. intros Hfin.
  destruct (if String.eqb site "com" then _ else _) as [ud'|]; [|done].
  simpl in Hfin. simplify_eq. unfold with_variations.
  by rewrite lookup_insert_eq, lookup_insert_ne, lookup_insert_eq.
Qed.

(** Off the primary site no shared field is added. *)
Lemma finish_update_data_not_primary wp woo_id ud data f :
  site ≠ "com" →
  finish_update_data up site wp woo_id ud = Some data →
  f ∈ ["name"; "images"; "categories"; "attributes"] →
  data !! f = ud !! f.
Proof.
  unfold finish_update_data. intros Hsite Hfin Hf.
  apply String.eqb_neq in Hsite. rewrite Hsite in Hfin.
  simpl in Hfin. simplify_eq. unfold with_variations.
  repeat (apply elem_of_cons in Hf as [->|Hf]; [by rewrite !lookup_insert_ne|]).
  by apply elem_of_nil in Hf.
Qed.

(** The stock quantity the literal records is never falsy. *)
Lemma stock_quantity_truthy (wp : dict) :
  Py.truthy (Py.or (Py.get wp "stock_quantity") (VInt 100)) = true.
Proof.
  unfold Py.or. by destruct (Py.truthy (Py.get wp "stock_quantity")) eqn:E.
Qed.

(** C9: an item without [stock_quantity] gets the quantity 100, one without
    [stock_status] the status "instock", one without [status] the status
    "publish", each under the key of the site. *)
Theorem fallback_defaults now (wp : dict) sku data :
  process_woo_product up site false now (VDict wp) = TaskOk sku data →
  (wp !! "stock_quantity" = None →
   data !! "stock_quantities" = Some (per_site site (VInt 100)))
  ∧ (wp !! "stock_status" = None →
     data !! "stock_statuses" = Some (per_site site (VStr "instock")))
  ∧ (wp !! "status" = None →
     data !! "statuses" = Some (per_site site (VStr "publish"))).
Proof.
  intros Hok.
  apply process_woo_product_ok in Hok as (wp' & base & ? & _ & _ & Hbase & Hfin).
  simplify_eq.
  apply site_update_data_lookup in Hbase as (_ & Hq & Hs & Hst & _).
  repeat split; intros Hnone.
  - rewrite (finish_update_data_other _ _ _ _ _ Hfin) by (solve_key_notin || done).
    rewrite lookup_insert_ne, Hq by done.
    unfold Py.get. by rewrite Hnone.
  - rewrite (finish_update_data_other _ _ _ _ _ Hfin) by (solve_key_notin || done).
    rewrite lookup_insert_ne, Hs by done.
    unfold Py.get_or. by rewrite Hnone.
  - rewrite (finish_update_data_other _ _ _ _ _ Hfin) by (solve_key_notin || done).
    rewrite lookup_insert_ne, Hst by done.
    unfold Py.get_or. by rewrite Hnone.
Qed.

(** C10: a stock quantity of 0 is recorded as 100, as a missing one is, by
    both extractors; whatever the item says, the recorded quantity is
    truthy, so never a zero. *)
Theorem zero_stock_becomes_default now (wp : dict) sku woo_id data :
  (process_woo_product up site false now (VDict wp) = TaskOk sku data
   ∨ (fetch_product_from_woo up now sku woo_id site = TaskOk sku data
      ∧ get_product up woo_id = inr (VDict wp))) →
  (wp !! "stock_quantity" = Some (VInt 0) ∨ wp !! "stock_quantity" = None →
   data !! "stock_quantities" = Some (per_site site (VInt 100)))
  ∧ ∃ q, data !! "stock_quantities" = Some (per_site site q)
         ∧ Py.truthy q = true.
Proof.
  intros Hok.
  assert (data !! "stock_quantities"
          = Some (per_site site (Py.or (Py.get wp "stock_quantity") (VInt 100))))
    as Hq.
  { destruct Hok as [Hok|[Hok Hget]].
    - apply process_woo_product_ok in Hok
        as (wp' & base & ? & _ & _ & Hbase & Hfin).
      simplify_eq.
      apply site_update_data_lookup in Hbase as (_ & Hq & _).
      rewrite (finish_update_data_other _ _ _ _ _ Hfin) by (solve_key_notin || done).
      by rewrite lookup_insert_ne.
    - apply fetch_product_from_woo_ok in Hok as (wp' & base & Hget' & Hbase & Hfin).
      rewrite Hget in Hget'. simplify_eq.
      apply site_update_data_lookup in Hbase as (_ & Hq & _).
      by rewrite (finish_update_data_other _ _ _ _ _ Hfin) by (solve_key_notin || done). }
  split.
  - intros [Hz|Hz]; rewrite Hq; unfold Py.get; by rewrite Hz.
  - eexists. split; [exact Hq|]. apply stock_quantity_truthy.
Qed.

End enricher.

Lemma fallback_defaults_witness :
  ∃ data,
    Enricher.process_woo_product (H:=Sample.float_of_number)
      Sample.one_product_shop "uk" false "2024-01-01T00:00:00"
      (VDict Sample.jersey) = Enricher.TaskOk (VStr "A1") data
    ∧ data !! "stock_quantities" = Some (Enricher.per_site "uk" (VInt 100))
    ∧ data !! "stock_statuses" = Some (Enricher.per_site "uk" (VStr "instock"))
    ∧ data !! "statuses" = Some (Enricher.per_site "uk" (VStr "publish")).
Proof.
  eexists. split; [reflexivity|].
  edestruct (fallback_defaults (H:=Sample.float_of_number)
               Sample.one_product_shop "uk" "2024-01-01T00:00:00" Sample.jersey)
    as (H1 & H2 & H3); [reflexivity|].
  split; [|split].
  - apply H1. reflexivity.
  - apply H2. reflexivity.
  - apply H3. reflexivity.
Defined.

Lemma zero_stock_becomes_default_witness :
  ∃ data,
    Enricher.process_woo_product (H:=Sample.float_of_number)
      Sample.one_product_shop "uk" false "2024-01-01T00:00:00"
      (VDict Sample.sold_out_jersey) = Enricher.TaskOk (VStr "A1") data
    ∧ data !! "stock_quantities" = Some (Enricher.per_site "uk" (VInt 100)).
Proof.
  eexists. split; [reflexivity|].
  edestruct (zero_stock_becomes_default (H:=Sample.float_of_number)
               Sample.one_product_shop "uk" "2024-01-01T00:00:00"
               Sample.sold_out_jersey (VStr "A1") VNull) as (H1 & _).
  - left. reflexivity.
  - apply H1. left. reflexivity.
Defined.

(** ** The batch merger and writer *)

Section batch.
Import Datastore Batch.

Example merge_keeps_other_site :
  merge_field {[ "prices" := VDict {[ "com" := VInt 10; "uk" := VInt 8 ]} ]}
              {[ "prices" := VDict {[ "uk" := VInt 9 ]} ]} "prices"
  = Some (VDict {[ "com" := VInt 10; "uk" := VInt 9 ]}).
Proof. reflexivity. Qed.

Example merge_over_null :
  merge_field {[ "prices" := VNull ]}
              {[ "prices" := VDict {[ "uk" := VInt 9 ]} ]} "prices"
  = Some (VDict {[ "uk" := VInt 9 ]}).
Proof. reflexivity. Qed.

(** The selection hands over the stored columns it names. *)
Lemma select_in_lookup columns skus (db : table) sku field :
  sku ∈ skus → field ∈ columns →
  default ∅ (select_in columns skus db !! sku) !! field
  = default ∅ (db !! sku) !! field.
Proof.
  intros Hsku Hfield. unfold select_in.
  rewrite lookup_fmap.
  destruct (db !! sku) as [row|] eqn:Hrow.
  - rewrite (map_lookup_filter_Some_2 _ _ sku row) by done. simpl.
    destruct (row !! field) as [v|] eqn:Hv.
    + by apply map_lookup_filter_Some_2.
    + apply map_lookup_filter_None_2. left. done.
  - rewrite map_lookup_filter_None_2 by (by left). done.
Qed.

(** [merge_fields] writes the named fields and nothing else. *)
Lemma merge_fields_lookup existing update fields : ∀ merged0 merged field,
  merge_fields existing update fields merged0 = Some merged →
  (field ∈ fields →
   ∃ new, mapping (update !! field) = Some new
          ∧ merged !! field = Some (VDict (new ∪ safe_dict (existing !! field))))
  ∧ (field ∉ fields → merged !! field = merged0 !! field).
Proof.
  induction fields as [|f fields IH]; intros merged0 merged field Hm.
  - simpl in Hm. simplify_eq. split; [|done].
    intros Hin. by apply elem_of_nil in Hin.
  - simpl in Hm.
    destruct (merge_field existing update f) as [v|] eqn:Hv; [|done].
    simpl in Hm. destruct (IH _ _ field Hm) as [IHin IHout].
    unfold merge_field in Hv.
    destruct (mapping (update !! f)) as [new|] eqn:Hnew; [|done].
    simpl in Hv. simplify_eq.
    split.
    + intros Hin. destruct (decide (field ∈ fields)) as [Hin'|Hout]; [auto|].
      apply elem_of_cons in Hin as [->|Hin]; [|done].
      exists new. split; [done|].
      by rewrite (IHout Hout), lookup_insert_eq.
    + intros Hout. apply not_elem_of_cons in Hout as [Hne Hout].
      by rewrite (IHout Hout), lookup_insert_ne.
Qed.

(** It reads the existing row through its per-site columns only. *)
Lemma merge_fields_ext existing existing' update fields : ∀ merged0,
  (∀ field, field ∈ fields → existing !! field = existing' !! field) →
  merge_fields existing update fields merged0
  = merge_fields existing' update fields merged0.
Proof.
  induction fields as [|f fields IH]; intros merged0 Hext; [done|].
  simpl. unfold merge_field. rewrite (Hext f) by left.
  destruct (mapping (update !! f)) as [new|]; [|done]. simpl.
  apply IH. intros field Hin. apply Hext. by right.
Qed.

(** A shared field is copied exactly when the update has it. *)
Lemma copy_fields_lookup (update : dict) fields : ∀ (merged : dict) field,
  foldl (λ merged field,
           match update !! field with
           | Some v => <[field := v]> merged
           | None => merged
           end) merged fields !! field
  = if decide (field ∈ fields)
    then match update !! field with
         | Some v => Some v
         | None => merged !! field
         end
    else merged !! field.
Proof.
  induction fields as [|f fields IH]; intros merged field; [done|].
  cbn [foldl]. rewrite IH.
  destruct (decide (field = f)) as [->|Hne].
  - rewrite (decide_True (P := f ∈ f :: fields)) by left.
    destruct (update !! f) as [v|] eqn:Hv.
    + rewrite lookup_insert_eq. by case_decide.
    + by case_decide.
  - assert (field ∈ f :: fields ↔ field ∈ fields) as Hiff.
    { rewrite elem_of_cons. tauto. }
    destruct (update !! f) as [v|];
      [rewrite lookup_insert_ne by done|]; repeat case_decide; tauto.
Qed.

Lemma copy_shared_lookup (update merged : dict) field :
  copy_shared update merged !! field
  = if decide (field ∈ SHARED_FIELDS)
    then match update !! field with
         | Some v => Some v
         | None => merged !! field
         end
    else merged !! field.
Proof. apply copy_fields_lookup. Qed.

(** The columns of a merged record. *)
Lemma merge_record_lookup existing sku update merged :
  merge_record existing sku update = Some merged →
  merged !! "sku" = Some sku
  ∧ merged !! "last_synced_at" = Some (Py.get update "last_synced_at")
  ∧ (∀ field, field ∈ PER_SITE_FIELDS →
       ∃ new, mapping (update !! field) = Some new
              ∧ merged !! field
                = Some (VDict (new ∪ safe_dict (existing !! field))))
  ∧ (∀ field, field ∈ SHARED_FIELDS → merged !! field = update !! field)
  ∧ (∀ field, field ∉ SHARED_FIELDS → field ∉ PER_SITE_FIELDS →
       field ≠ "sku" → field ≠ "last_synced_at" → merged !! field = None).
Proof.
  unfold merge_record. intros Hm.
  destruct (merge_fields existing update PER_SITE_FIELDS _) as [m|] eqn:Hfields;
    [|done].
  simpl in Hm. simplify_eq.
  assert (Hin : ∀ field, field ∈ PER_SITE_FIELDS →
            ∃ new, mapping (update !! field) = Some new
                   ∧ m !! field = Some (VDict (new ∪ safe_dict (existing !! field)))).
  { intros field. apply (merge_fields_lookup _ _ _ _ _ field Hfields). }
  assert (Hout : ∀ field, field ∉ PER_SITE_FIELDS →
            m !! field = if decide (field = "sku") then Some sku else None).
  { intros field Hf.
    rewrite (proj2 (merge_fields_lookup _ _ _ _ _ field Hfields) Hf).
    case_decide as Hk; [subst; apply lookup_singleton_eq|].
    by apply lookup_singleton_ne. }
  assert (Hdisj : ∀ field, field ∈ SHARED_FIELDS →
            (field ∉ PER_SITE_FIELDS)
            ∧ field ≠ "sku" ∧ field ≠ "last_synced_at").
  { intros field Hs.
    repeat (apply elem_of_cons in Hs as [->|Hs];
            [split; [solve_key_notin|split; discriminate]|]).
    by apply elem_of_nil in Hs. }
  assert (Hper : ∀ field, field ∈ PER_SITE_FIELDS →
            field ≠ "sku" ∧ field ≠ "last_synced_at").
  { intros field Hs.
    repeat (apply elem_of_cons in Hs as [->|Hs]; [split; discriminate|]).
    by apply elem_of_nil in Hs. }
  repeat split.
  - rewrite copy_shared_lookup, decide_False by solve_key_notin.
    rewrite lookup_insert_ne by done.
    by rewrite Hout by solve_key_notin.
  - rewrite copy_shared_lookup, decide_False by solve_key_notin.
    by rewrite lookup_insert_eq.
  - intros field Hf. destruct (Hin field Hf) as (new & Hnew & Hv).
    exists new. split; [done|].
    rewrite copy_shared_lookup, decide_False.
    + rewrite lookup_insert_ne; [done|].
      intros <-. by apply Hper in Hf as [_ ?].
    + intros Hs. by apply Hdisj in Hs as [? _].
  - intros field Hf. rewrite copy_shared_lookup, decide_True by done.
    destruct (update !! field) as [v|] eqn:Hv; [done|].
    apply Hdisj in Hf as (Hp & Hsku & Hts).
    rewrite lookup_insert_ne by done.
    rewrite Hout by done. by rewrite decide_False.
  - intros field Hs Hp Hsku Hts.
    rewrite copy_shared_lookup, decide_False by done.
    rewrite lookup_insert_ne by done.
    rewrite Hout by done. by rewrite decide_False.
Qed.

Lemma keyed_by_spec sku (row : dict) :
  keyed_by sku row = true ↔ row !! "sku" = Some (VStr sku).
Proof.
  unfold keyed_by. destruct (row !! "sku") as [[| | | |s| |]|]; try (split; done).
  rewrite bool_decide_eq_true. split; [by intros ->|by intros [= ->]].
Qed.

(** The row an upsert leaves under a key: the payloads for that key laid
    over the stored row, in order. *)
Lemma upsert_lookup rows : ∀ (db db' : table) sku,
  upsert rows db = Some db' →
  db' !! sku = foldl overwrite (db !! sku) (filter (λ r, keyed_by sku r = true) rows).
Proof.
  induction rows as [|row rows IH]; intros db db' sku Hup.
  - simpl in Hup. by simplify_eq.
  - simpl in Hup. unfold upsert_row in Hup.
    destruct (row !! "sku") as [[| | | |s| |]|] eqn:Hsku; try done.
    simpl in Hup. rewrite (IH _ _ _ Hup), filter_cons.
    destruct (keyed_by sku row) eqn:Hkey.
    + apply keyed_by_spec in Hkey. rewrite Hsku in Hkey. simplify_eq.
      rewrite decide_True by done. cbn [foldl].
      by rewrite lookup_insert_eq.
    + rewrite decide_False by done. rewrite lookup_insert_ne; [done|].
      intros ->. apply not_true_iff_false in Hkey. apply Hkey.
      by apply keyed_by_spec.
Qed.

(** Filtering two lists related element by element. *)
Lemma Forall2_filter_both {A B} (Q : A → B → Prop) (p : A → bool) (q : B → bool)
    (l : list A) (k : list B) :
  Forall2 (λ x y, p x = q y ∧ (p x = true → Q x y)) l k →
  Forall2 Q (filter (λ x, p x = true) l) (filter (λ y, q y = true) k).
Proof.
  induction 1 as [|x y l k [Hpq HQ] _ IH]; [constructor|].
  rewrite !filter_cons.
  destruct (p x) eqn:Hp; rewrite <- Hpq.
  - rewrite !decide_True by done. constructor; auto.
  - rewrite !decide_False by done. done.
Qed.

(** The row a batch leaves under a key: the records merged from the updates
    for that key, each merged with the row as the batch found it, laid over
    that row in order. *)
Lemma batch_update_products_lookup (db : table) updates site db' sku :
  batch_update_products db updates site = Some db' →
  ∃ rows,
    Forall2 (λ update merged,
               merge_record (default ∅ (db !! sku)) (VStr sku) update
               = Some merged)
      (filter (λ u, keyed_by sku u = true) updates) rows
    ∧ db' !! sku = foldl overwrite (db !! sku) rows.
Proof.
  unfold batch_update_products. intros Hb.
  case_bool_decide as Hnil.
  { simplify_eq. exists []. split; [constructor|done]. }
  destruct (mapM _ updates) as [skus|] eqn:Hskus; [|done]. simpl in Hb.
  destruct (mapM (merge_update _) updates) as [final|] eqn:Hfinal; [|done].
  simpl in Hb. apply mapM_Some in Hskus, Hfinal.
  exists (filter (λ r, keyed_by sku r = true) final).
  split; [|by apply upsert_lookup].
  apply Forall2_filter_both.
  assert (Hmem : ∀ u, u ∈ updates → u !! "sku" = Some (VStr sku) →
                      sku ∈ text_keys skus).
  { intros u Hu Hk. apply list_elem_of_lookup in Hu as [i Hi].
    destruct (Forall2_lookup_l _ _ _ _ _ Hskus Hi) as (v & Hv & Huv).
    unfold text_keys. apply list_elem_of_omap. exists v.
    split; [by eapply list_elem_of_lookup_2|].
    rewrite Hk in Huv. by simplify_eq. }
  clear Hskus Hb Hnil.
  induction Hfinal as [|u m us ms Hum _ IH]; [constructor|].
  constructor.
  - unfold merge_update in Hum.
    destruct (u !! "sku") as [k|] eqn:Hk; [|done]. simpl in Hum.
    destruct (existing_for _ k) as [existing|] eqn:Hex; [|done]. simpl in Hum.
    destruct (merge_record_lookup _ _ _ _ Hum) as (Hmsku & _).
    assert (keyed_by sku u = keyed_by sku m) as Hkey.
    { unfold keyed_by. by rewrite Hk, Hmsku. }
    split; [done|]. intros Hku.
    apply keyed_by_spec in Hku. rewrite Hk in Hku. simplify_eq.
      simpl in Hex. simplify_eq.
      unfold merge_record in *.
    rewrite <- Hum.
    assert (merge_fields (default ∅ (db !! sku)) u PER_SITE_FIELDS
              {[ "sku" := VStr sku ]}
            = merge_fields
                (default ∅ (select_in SELECTED (text_keys skus) db !! sku))
                u PER_SITE_FIELDS {[ "sku" := VStr sku ]}) as ->; [|done].
    apply merge_fields_ext. intros field Hf. symmetry.
    apply select_in_lookup.
    + apply (Hmem u); [left|done].
    + by right.
  - apply IH. intros u' Hu'. apply Hmem. by right.
Qed.

(** A property of the row under a key that every merged record laid over
    it keeps, holds after the batch. *)
Lemma batch_update_products_row_inv (P : option dict → Prop)
    (db : table) updates site db' sku :
  batch_update_products db updates site = Some db' →
  P (db !! sku) →
  (∀ update merged stored,
     update ∈ updates → update !! "sku" = Some (VStr sku) →
     merge_record (default ∅ (db !! sku)) (VStr sku) update = Some merged →
     P stored → P (overwrite stored merged)) →
  P (db' !! sku).
Proof.
  intros Hb H0 Hstep.
  destruct (batch_update_products_lookup _ _ _ _ sku Hb) as (rows & Hrows & ->).
  assert (Hsub : ∀ u, u ∈ filter (λ u, keyed_by sku u = true) updates →
                      u ∈ updates ∧ u !! "sku" = Some (VStr sku)).
  { intros u [Hk Hu]%list_elem_of_filter. split; [done|].
    by apply keyed_by_spec. }
  enough (∀ stored, P stored → P (foldl overwrite stored rows)) by auto.
  clear H0.
  induction Hrows as [|u m us ms Hum _ IH]; intros stored H0; [done|].
  cbn [foldl]. apply IH.
  - intros u' Hu'. apply Hsub. by right.
  - destruct (Hsub u) as [Hu Hk]; [left|]. by eapply Hstep.
Qed.

(** The frame of one merged record: the entries of the other sites. *)
Lemma merge_record_frame existing sku update merged site field other :
  merge_record existing sku update = Some merged →
  only_site site update → field ∈ PER_SITE_FIELDS → other ≠ site →
  safe_dict (merged !! field) !! other = safe_dict (existing !! field) !! other.
Proof.
  intros Hm Honly Hf Hne.
  destruct (merge_record_lookup _ _ _ _ Hm) as (_ & _ & Hper & _).
  destruct (Hper field Hf) as (new & Hnew & ->). simpl.
  rewrite lookup_union_r; [done|]. by eapply Honly.
Qed.

(** A merged record has every per-site column. *)
Lemma merge_record_per_site existing sku update merged field :
  merge_record existing sku update = Some merged →
  field ∈ PER_SITE_FIELDS → is_Some (merged !! field).
Proof.
  intros Hm Hf.
  destruct (merge_record_lookup _ _ _ _ Hm) as (_ & _ & Hper & _).
  destruct (Hper field Hf) as (new & _ & ->). by eexists.
Qed.

Lemma overwrite_lookup_Some stored (payload : dict) field v :
  payload !! field = Some v →
  default ∅ (overwrite stored payload) !! field = Some v.
Proof. intros Hp. simpl. by apply lookup_union_Some_l. Qed.

Lemma overwrite_lookup_None stored (payload : dict) field :
  payload !! field = None →
  default ∅ (overwrite stored payload) !! field = default ∅ stored !! field.
Proof. intros Hp. simpl. by apply lookup_union_r. Qed.

(** The frame of a batch for site [site]: in every per-site column of every
    row the entries of the other sites are what they were. *)
Lemma batch_update_products_frame (db : table) updates site db' :
  batch_update_products db updates site = Some db' →
  (∀ update, update ∈ updates → only_site site update) →
  ∀ sku field other,
    field ∈ PER_SITE_FIELDS → other ≠ site →
    site_entry db' sku field other = site_entry db sku field other.
Proof.
  intros Hb Honly sku field other Hf Hne. unfold site_entry, column.
  apply (batch_update_products_row_inv
           (λ stored, safe_dict (default ∅ stored !! field) !! other
                      = safe_dict (default ∅ (db !! sku) !! field) !! other)
           _ _ _ _ sku Hb); [done|].
  intros update merged stored Hu Hk Hm _.
  destruct (merge_record_per_site _ _ _ _ field Hm Hf) as [v Hv].
  rewrite (overwrite_lookup_Some _ _ _ _ Hv), <- Hv.
  eapply merge_record_frame; eauto.
Qed.

(** C1: the merged record of an update is, in each per-site column, the
    update's map laid over the existing one, where an absent column and a
    column that holds no map count as the empty map; so after a batch for
    site [A] whose updates carry only the key [A], every entry of another
    site [B] in a per-site column of a stored row is unchanged. *)
Theorem merge_preserves_foreign_sites (db : table) updates A db' :
  batch_update_products db updates A = Some db' →
  (∀ update, update ∈ updates → only_site A update) →
  (∀ sku field B,
     field ∈ PER_SITE_FIELDS → B ≠ A →
     site_entry db' sku field B = site_entry db sku field B)
  ∧ (∀ existing sku update merged field,
       merge_record existing sku update = Some merged →
       field ∈ PER_SITE_FIELDS →
       ∃ new, mapping (update !! field) = Some new
              ∧ merged !! field
                = Some (VDict (new ∪ safe_dict (existing !! field))))
  ∧ safe_dict None = ∅
  ∧ (∀ v, (∀ d, v ≠ VDict d) → safe_dict (Some v) = ∅).
Proof.
  intros Hb Honly. split; [|split; [|split]].
  - by eapply batch_update_products_frame.
  - intros existing sku update merged field Hm Hf.
    by apply (merge_record_lookup _ _ _ _ Hm).
  - done.
  - intros v Hv. destruct v; try done. by destruct (Hv d).
Qed.

End batch.

Lemma merge_preserves_foreign_sites_witness :
  Batch.batch_update_products (Job.db Sample.stocked) [Sample.uk_price] "uk"
  = Some Sample.uk_price_written
  ∧ Batch.site_entry Sample.uk_price_written "A1" "prices" "com"
    = Batch.site_entry (Job.db Sample.stocked) "A1" "prices" "com".
Proof.
  assert (Batch.batch_update_products (Job.db Sample.stocked)
            [Sample.uk_price] "uk" = Some Sample.uk_price_written) as Hb
    by exact (eq_refl (Some Sample.uk_price_written)
              <: Batch.batch_update_products (Job.db Sample.stocked)
                           [Sample.uk_price] "uk"
                         = Some Sample.uk_price_written).
  split; [exact Hb|].
  apply (merge_preserves_foreign_sites _ _ _ _ Hb);
    [|repeat constructor|discriminate].
  intros update Hu field new other Hf Hnew Hne.
  apply list_elem_of_singleton in Hu as ->.
  assert (field ≠ "sku") as Hsku by (intros ->; revert Hf; solve_key_notin).
  unfold Sample.uk_price in Hnew. rewrite lookup_insert_ne in Hnew by done.
  destruct (decide (field = "prices")) as [->|Hp].
  - rewrite lookup_insert_eq in Hnew. simpl in Hnew.
    injection Hnew as <-. by apply lookup_singleton_ne.
  - rewrite lookup_insert_ne, lookup_empty in Hnew by done. simpl in Hnew.
    injection Hnew as <-. apply lookup_empty.
Defined.

(** ** What the enricher hands to the writer *)

Section enriched_updates.
Import WooCommerceClient Enricher Datastore Batch.
Context `{PyFloat}.
Context (up : upstream) (site : string).

Lemma well_formed_only_site (update : dict) :
  well_formed site update → only_site site update.
Proof.
  intros Hwf field new other Hf Hnew Hne.
  destruct (Hwf field Hf) as [x Hx]. rewrite Hx in Hnew. simpl in Hnew.
  simplify_eq. by apply lookup_singleton_ne.
Qed.

(** The update of a successful task: its SKU, its time stamp, and all nine
    per-site fields, each with the one key of the site. *)
Lemma process_woo_product_update cancelled now woo_product sku data :
  process_woo_product up site cancelled now woo_product = TaskOk sku data →
  data !! "sku" = Some sku
  ∧ Py.truthy sku = true
  ∧ data !! "last_synced_at" = Some (VStr now)
  ∧ well_formed site data.
Proof.
  intros Hok.
  apply process_woo_product_ok in Hok as (wp & base & -> & Hsku & Ht & Hbase & Hfin).
  destruct (site_update_data_lookup _ _ _ _ _ Hbase)
    as (Hbsku & _ & _ & _ & Hts & _ & Hper).
  destruct (finish_update_data_variations _ _ _ _ _ _ Hfin) as [Hv Hc].
  repeat split.
  - rewrite (finish_update_data_other _ _ _ _ _ _ _ Hfin)
      by (solve_key_notin || done).
    by rewrite lookup_insert_ne.
  - done.
  - rewrite (finish_update_data_other _ _ _ _ _ _ _ Hfin)
      by (solve_key_notin || done).
    by rewrite lookup_insert_ne.
  - intros field Hf. unfold PER_SITE_FIELDS in Hf.
    apply elem_of_app with (l1 := ["prices"; "regular_prices"; "stock_quantities";
                                   "stock_statuses"; "statuses"; "content";
                                   "sync_status"])
                           (l2 := ["variations"; "variation_counts"]) in Hf
      as [Hf|Hf].
    + destruct (Hper field Hf) as [x Hx]. exists x.
      rewrite (finish_update_data_other _ _ _ _ _ _ field Hfin).
      * rewrite lookup_insert_ne; [done|].
        intros <-. revert Hf. solve_key_notin.
      * intros Hs. revert Hf.
        repeat (apply elem_of_cons in Hs as [->|Hs]; [solve_key_notin|]).
        by apply elem_of_nil in Hs.
      * intros ->. revert Hf. solve_key_notin.
      * intros ->. revert Hf. solve_key_notin.
    + apply elem_of_cons in Hf as [->|Hf]; [by eexists|].
      apply elem_of_cons in Hf as [->|Hf]; [by eexists|].
      by apply elem_of_nil in Hf.
Qed.

(** Off the primary site the update has none of the shared fields. *)
Lemma process_woo_product_no_shared cancelled now woo_product sku data field :
  site ≠ "com" →
  process_woo_product up site cancelled now woo_product = TaskOk sku data →
  field ∈ SHARED_FIELDS → data !! field = None.
Proof.
  intros Hsite Hok Hf.
  apply process_woo_product_ok in Hok as (wp & base & -> & Hsku & Ht & Hbase & Hfin).
  destruct (site_update_data_lookup _ _ _ _ _ Hbase) as (_ & _ & _ & _ & _ & Hno & _).
  rewrite (finish_update_data_not_primary _ _ _ _ _ _ field Hsite Hfin Hf).
  rewrite lookup_insert_ne.
  - by apply Hno.
  - intros <-. revert Hf. solve_key_notin.
Qed.

End enriched_updates.

(** ** The synchronisation job *)

Section job.
Import WooCommerceClient Enricher Datastore Batch Job.
Context `{PyFloat}.
Context (up : upstream) (oracle : nat → bool) (site : string).

#[local] Abbreviation enriched := (enriched up site).
#[local] Abbreviation tick := (tick oracle site).
#[local] Abbreviation handle := (handle up oracle site).
#[local] Abbreviation consume := (consume up oracle site).
#[local] Abbreviation finish := (finish site).
#[local] Abbreviation prepare := (prepare up oracle site).
#[local] Abbreviation loop_end := (loop_end up oracle site).
#[local] Abbreviation full_sync_site := (full_sync_site up oracle site).

#[local] Opaque BATCH_SIZE.

(** *** How the pieces of the loop move the state *)

Lemma tick_frame total st :
  db (env (tick total st)) = db (env st)
  ∧ pending_updates (tick total st) = pending_updates st.
Proof.
  unfold Job.tick. destruct (_ || _); [|done]. simpl.
  by destruct (oracle _), (cancelled (prog st)).
Qed.

Lemma accumulate_spec st result batch st' :
  accumulate st result = (batch, st') →
  Forall enriched (pending_updates st) →
  (∀ sku data, result = TaskOk sku data → enriched data) →
  env st' = env st
  ∧ cancelled (prog st') = cancelled (prog st)
  ∧ Forall enriched (pending_updates st')
  ∧ (∀ b, batch = Some b → Forall enriched b).
Proof.
  unfold accumulate. intros Hacc Hpend Hres.
  destruct result as [| |sku data|sku]; simpl in Hacc.
  1,2,4: destruct (BATCH_SIZE <=? _)%nat; simplify_eq; simpl;
         (repeat split; [done..|by intros ? [= <-] || done]).
  assert (Forall enriched
            (if Py.truthy (VDict data) then pending_updates st ++ [data]
             else pending_updates st)) as Hpend'.
  { destruct (Py.truthy _); [|done]. apply Forall_app. split; [done|].
    constructor; [|constructor]. by eapply Hres. }
  destruct (BATCH_SIZE <=? _)%nat; simplify_eq; simpl.
  - repeat split; [constructor|]. by intros ? [= <-].
  - repeat split; done.
Qed.

(** A property of the table and the write log that every write of a batch
    of enriched updates keeps is kept by the whole job. *)
Section table_invariant.
Context (P : table → list (list dict) → Prop).
Context (Hbatch : ∀ db ws updates db',
            Forall enriched updates →
            batch_update_products db updates site = Some db' →
            P db ws → P db' (ws ++ [updates])).

#[local] Abbreviation holds w := (P (db w) (writes w)).

Lemma tick_world total st :
  db (env (tick total st)) = db (env st)
  ∧ writes (env (tick total st)) = writes (env st).
Proof.
  unfold Job.tick. destruct (_ || _); [|done]. simpl.
  by destruct (oracle _), (cancelled (prog st)).
Qed.

Lemma handle_table_inv total st now woo_product :
  Forall enriched (pending_updates st) → holds (env st) →
  Forall enriched (pending_updates (handle total st now woo_product))
  ∧ holds (env (handle total st now woo_product)).
Proof.
  intros Hpend HP. unfold Job.handle.
  destruct (process_woo_product _ _ _ _ _) as [| |sku data|sku] eqn:Hres;
    [done|done| |].
  all: destruct (accumulate st _) as [batch st'] eqn:Hacc.
  all: destruct (accumulate_spec _ _ _ _ Hacc Hpend)
         as (Henv & _ & Hpend' & Hb);
    [intros ?? [= <- <-] || intros ?? [=]; by repeat eexists|].
  all: assert (∀ s, holds (env s) → pending_updates s = pending_updates st' →
                    Forall enriched (pending_updates (tick total s))
                    ∧ holds (env (tick total s))) as Htick.
  1,3: intros s Hs Hp; destruct (tick_world total s) as [-> ->];
       by rewrite (proj2 (tick_frame total s)), Hp.
  all: destruct batch as [[|u b]|];
    [apply Htick; by rewrite ?Henv| |apply Htick; by rewrite ?Henv].
  all: destruct (batch_update_products _ _ _) as [db'|] eqn:Hw;
    [|by rewrite Henv].
  all: apply Htick; [|done]; simpl.
  all: eapply Hbatch; [by apply Hb|exact Hw|by rewrite Henv].
Qed.

Lemma consume_table_inv total futures : ∀ st,
  Forall enriched (pending_updates st) → holds (env st) →
  Forall enriched (pending_updates (consume total st futures))
  ∧ holds (env (consume total st futures)).
Proof.
  induction futures as [|[now wp] futures IH]; intros st Hpend HP; [done|].
  simpl. destruct (cancelled (prog st)); [done|].
  destruct (handle_table_inv total st now wp Hpend HP). by apply IH.
Qed.

Lemma finish_table_inv total st :
  Forall enriched (pending_updates st) → holds (env st) →
  holds (finish total st).2.
Proof.
  intros Hpend HP. unfold Job.finish.
  destruct (_ && _).
  - destruct (batch_update_products _ _ _) as [db'|] eqn:Hw; simpl; [|done].
    by eapply Hbatch.
  - done.
Qed.

Lemma prepare_frame fuel w :
  match prepare fuel w with
  | inl (_, w') => db w' = db w ∧ writes w' = writes w
  | inr (_, w') => db w' = db w ∧ writes w' = writes w
  end.
Proof.
  unfold Job.prepare.
  destruct (negb _); [done|].
  destruct (get_all_products up fuel).1 as [[|p ps]| |]; try done.
  simpl. by destruct (oracle _).
Qed.

Lemma full_sync_site_world_inv pool fuel w :
  holds w → holds (full_sync_site pool fuel w).2.
Proof.
  intros HP. unfold Job.full_sync_site.
  pose proof (prepare_frame fuel w) as Hprep.
  destruct (prepare fuel w) as [[res w']|[woo_products w']];
    destruct Hprep as [Hdb Hws].
  - simpl. by rewrite Hdb, Hws.
  - apply finish_table_inv; apply consume_table_inv; simpl;
      (constructor || by rewrite Hdb, Hws).
Qed.

End table_invariant.

(** The same for a property of the table alone. *)
Lemma full_sync_site_table_inv (P : table → Prop) pool fuel w :
  (∀ db updates db',
     Forall enriched updates →
     batch_update_products db updates site = Some db' → P db → P db') →
  P (db w) → P (db (full_sync_site pool fuel w).2).
Proof.
  intros Hbatch. apply (full_sync_site_world_inv (λ db _, P db)).
  intros db0 _ updates db'. apply Hbatch.
Qed.

(** *** What the job does to the stored rows *)

Lemma enriched_well_formed data : enriched data → well_formed site data.
Proof.
  intros (c & now & wp & sku & Hok).
  by apply process_woo_product_update in Hok as (_ & _ & _ & Hwf).
Qed.

(** The job for a site leaves the entries of the other sites alone. *)
Lemma full_sync_site_frame pool fuel w sku field other :
  field ∈ PER_SITE_FIELDS → other ≠ site →
  site_entry (db (full_sync_site pool fuel w).2) sku field other
  = site_entry (db w) sku field other.
Proof.
  intros Hf Hne.
  apply (full_sync_site_table_inv
           (λ db', site_entry db' sku field other
                   = site_entry (db w) sku field other)); [|done].
  intros db0 updates db' Hen Hb <-.
  eapply batch_update_products_frame; [exact Hb| |done..].
  intros u Hu. apply well_formed_only_site, enriched_well_formed.
  by eapply (proj1 (Forall_forall _ _) Hen).
Qed.

(** A batch whose updates carry no shared field leaves the shared columns
    alone. *)
Lemma batch_update_products_shared (db0 : table) updates db' sku field :
  batch_update_products db0 updates site = Some db' →
  (∀ update, update ∈ updates → update !! field = None) →
  field ∈ SHARED_FIELDS →
  column db' sku field = column db0 sku field.
Proof.
  intros Hb Hno Hf. unfold column.
  apply (batch_update_products_row_inv
           (λ stored, default ∅ stored !! field = default ∅ (db0 !! sku) !! field)
           _ _ _ _ sku Hb); [done|].
  intros update merged stored Hu Hk Hm <-.
  apply overwrite_lookup_None.
  destruct (merge_record_lookup _ _ _ _ Hm) as (_ & _ & _ & Hshared & _).
  rewrite (Hshared field Hf). by apply Hno.
Qed.

(** The variation maps of a merged record are those of the update. *)
Lemma merge_record_counts existing sku update merged :
  merge_record existing sku update = Some merged →
  well_formed site update →
  safe_dict (merged !! "variations") !! site
  = safe_dict (update !! "variations") !! site
  ∧ safe_dict (merged !! "variation_counts") !! site
    = safe_dict (update !! "variation_counts") !! site.
Proof.
  intros Hm Hwf.
  destruct (merge_record_lookup _ _ _ _ Hm) as (_ & _ & Hper & _).
  split.
  - destruct (Hper "variations") as (new & Hnew & ->); [repeat constructor|].
    destruct (Hwf "variations") as [x Hx]; [repeat constructor|].
    rewrite Hx in Hnew |- *. simpl in *. simplify_eq.
    by rewrite (lookup_union_Some_l _ _ _ x), lookup_singleton_eq
      by apply lookup_singleton_eq.
  - destruct (Hper "variation_counts") as (new & Hnew & ->); [repeat constructor|].
    destruct (Hwf "variation_counts") as [x Hx]; [repeat constructor|].
    rewrite Hx in Hnew |- *. simpl in *. simplify_eq.
    by rewrite (lookup_union_Some_l _ _ _ x), lookup_singleton_eq
      by apply lookup_singleton_eq.
Qed.

(** The two variation maps of an enriched update agree. *)
Lemma enriched_counts data :
  enriched data →
  ∃ variations,
    data !! "variations" = Some (per_site site (VList variations))
    ∧ data !! "variation_counts"
      = Some (per_site site (VInt (Z.of_nat (length variations)))).
Proof.
  intros (c & now & wpv & sku & Hok).
  apply process_woo_product_ok in Hok as (wp & base & _ & _ & _ & _ & Hfin).
  eexists. by apply (finish_update_data_variations _ _ _ _ _ _ Hfin).
Qed.

(** Every row a batch of enriched updates writes has the count invariant
    for the site. *)
Lemma batch_update_products_counts (db0 : table) updates db' sku :
  batch_update_products db0 updates site = Some db' →
  Forall enriched updates →
  db' !! sku = db0 !! sku ∨ count_matches site (db' !! sku).
Proof.
  intros Hb Hen.
  apply (batch_update_products_row_inv
           (λ stored, stored = db0 !! sku ∨ count_matches site stored)
           _ _ _ _ sku Hb); [by left|].
  intros update merged stored Hu Hk Hm _. right.
  assert (enriched update) as Hupd by by eapply (proj1 (Forall_forall _ _) Hen).
  destruct (merge_record_counts _ _ _ _ Hm (enriched_well_formed _ Hupd))
    as [Hv Hc].
  destruct (enriched_counts _ Hupd) as (vs & Hvs & Hcs).
  destruct (merge_record_per_site _ _ _ _ "variations" Hm) as [v1 Hv1];
    [repeat constructor|].
  destruct (merge_record_per_site _ _ _ _ "variation_counts" Hm) as [v2 Hv2];
    [repeat constructor|].
  exists vs.
  rewrite (overwrite_lookup_Some _ _ _ _ Hv1), (overwrite_lookup_Some _ _ _ _ Hv2).
  rewrite <- Hv1, <- Hv2, Hv, Hc, Hvs, Hcs. simpl.
  by rewrite !lookup_singleton_eq.
Qed.

(** A row for which the batch has an update has the count invariant
    afterwards; a row for which it has none is as it was. *)
Lemma batch_update_products_counts_keyed (db0 : table) updates db' sku :
  batch_update_products db0 updates site = Some db' →
  Forall enriched updates →
  if bool_decide (Exists (λ u, keyed_by sku u = true) updates)
  then count_matches site (db' !! sku)
  else db' !! sku = db0 !! sku.
Proof.
  intros Hb Hen.
  destruct (batch_update_products_lookup _ _ _ _ sku Hb) as (rows & Hrows & ->).
  case_bool_decide as Hex.
  - assert (filter (λ u, keyed_by sku u = true) updates ≠ []) as Hne.
    { apply Exists_exists in Hex as (u & Hu & Hk).
      intros Hnil. apply (not_elem_of_nil u). rewrite <- Hnil.
      by apply list_elem_of_filter. }
    assert (Forall enriched (filter (λ u, keyed_by sku u = true) updates)) as Hen'.
    { apply Forall_forall. intros u [_ Hu]%list_elem_of_filter.
      by apply (proj1 (Forall_forall _ _) Hen). }
    enough (∀ stored, count_matches site (foldl overwrite stored rows)) by done.
    induction Hrows as [|u m us ms Hum Hrest IH]; intros stored; [done|].
    apply Forall_cons in Hen' as [Hu Hen']. cbn [foldl].
    destruct Hrest as [|u2 m2 us ms Hum2 Hrest].
    + simpl.
      destruct (merge_record_counts _ _ _ _ Hum (enriched_well_formed _ Hu))
        as [Hv Hc].
      destruct (enriched_counts _ Hu) as (vs & Hvs & Hcs).
      destruct (merge_record_per_site _ _ _ _ "variations" Hum) as [v1 Hv1];
        [repeat constructor|].
      destruct (merge_record_per_site _ _ _ _ "variation_counts" Hum)
        as [v2 Hv2]; [repeat constructor|].
      exists vs.
      rewrite (overwrite_lookup_Some _ _ _ _ Hv1),
        (overwrite_lookup_Some _ _ _ _ Hv2).
      rewrite <- Hv1, <- Hv2, Hv, Hc, Hvs, Hcs. simpl.
      by rewrite !lookup_singleton_eq.
    + apply IH; [done|done].
  - assert (filter (λ u, keyed_by sku u = true) updates = []) as Hnil.
    { destruct (filter (λ u, keyed_by sku u = true) updates) as [|u us] eqn:Hf;
        [done|].
      exfalso. apply Hex, Exists_exists. exists u.
      assert (u ∈ filter (λ u, keyed_by sku u = true) updates) as Hu
        by (rewrite Hf; left).
      by apply list_elem_of_filter in Hu as [Hk Hu]. }
    rewrite Hnil in Hrows. by apply Forall2_nil_inv_l in Hrows as ->.
Qed.

(** Every row the job has written to has the count invariant. *)
Lemma full_sync_site_counts pool fuel w sku :
  wrote_to w (full_sync_site pool fuel w).2 sku →
  count_matches site (db (full_sync_site pool fuel w).2 !! sku).
Proof.
  intros (new & batch & update & Hnew & Hbatch & Hupdate & Hkey).
  pose proof (full_sync_site_world_inv
    (λ db' ws', ∃ new', ws' = writes w ++ new'
       ∧ (Exists (Exists (λ u, keyed_by sku u = true)) new' →
          count_matches site (db' !! sku)))) as Hinv.
  destruct (Hinv) with (pool := pool) (fuel := fuel) (w := w)
    as (new' & Hnew' & Hcount).
  - intros db0 ws0 updates db' Hen Hb (new0 & -> & Hcount0).
    exists (new0 ++ [updates]). split; [by rewrite app_assoc|].
    intros Hex.
    pose proof (batch_update_products_counts_keyed _ _ _ sku Hb Hen) as Hk.
    case_bool_decide as Hhere; [done|]. rewrite Hk. apply Hcount0.
    apply Exists_app in Hex as [Hex|Hex]; [done|].
    by apply Exists_cons in Hex as [Hex|Hex%Exists_nil].
  - exists []. split; [by rewrite app_nil_r|]. by intros ?%Exists_nil.
  - apply Hcount.
    rewrite Hnew in Hnew'. apply app_inv_head in Hnew'. subst new'.
    apply Exists_exists. exists batch. split; [done|].
    apply Exists_exists. by exists update.
Qed.

(** C4: a successful task gives the two variation maps together, the
    count being the length of the list, both under the key of the site, and
    the list is empty for a product that is not variable and for one whose
    variations could not be fetched; [fetch_product_from_woo] does the
    same.  After the job every row it has written to has, for the site, a
    count equal to the length of its variation list, and every other row is
    as the job found it. *)
Theorem count_invariant pool fuel w :
  (∀ cancelled now woo_product sku data,
     process_woo_product up site cancelled now woo_product = TaskOk sku data →
     ∃ wp variations,
       woo_product = VDict wp
       ∧ variations = site_variations up wp (Py.get wp "id")
       ∧ data !! "variations" = Some (per_site site (VList variations))
       ∧ data !! "variation_counts"
         = Some (per_site site (VInt (Z.of_nat (length variations))))
       ∧ (Py.eq_str (Py.get wp "type") "variable" = false → variations = [])
       ∧ (∀ e, get_product_variations up (Py.get wp "id") = inl e →
               variations = []))
  ∧ (∀ now sku woo_id data,
       fetch_product_from_woo up now sku woo_id site = TaskOk sku data →
       ∃ variations,
         data !! "variations" = Some (per_site site (VList variations))
         ∧ data !! "variation_counts"
           = Some (per_site site (VInt (Z.of_nat (length variations)))))
  ∧ (∀ sku,
       wrote_to w (full_sync_site pool fuel w).2 sku →
       count_matches site (db (full_sync_site pool fuel w).2 !! sku))
  ∧ (∀ sku,
       db (full_sync_site pool fuel w).2 !! sku = db w !! sku
       ∨ count_matches site (db (full_sync_site pool fuel w).2 !! sku)).
Proof.
  split; [|split; [|split]]; [| |apply full_sync_site_counts|].
  - intros c now wpv sku data Hok.
    apply process_woo_product_ok in Hok as (wp & base & -> & _ & _ & _ & Hfin).
    destruct (finish_update_data_variations _ _ _ _ _ _ Hfin) as [Hv Hc].
    exists wp, (site_variations up wp (Py.get wp "id")).
    repeat split; try done.
    + unfold site_variations. by intros ->.
    + unfold site_variations. intros e ->. by destruct (Py.eq_str _ _).
  - intros now sku woo_id data Hok.
    apply fetch_product_from_woo_ok in Hok as (wp & base & _ & _ & Hfin).
    eexists. by apply (finish_update_data_variations _ _ _ _ _ _ Hfin).
  - apply (full_sync_site_table_inv
             (λ db', ∀ sku, db' !! sku = db w !! sku
                            ∨ count_matches site (db' !! sku))); [|by left].
    intros db0 updates db' Hen Hb HP sku.
    destruct (batch_update_products_counts _ _ _ sku Hb Hen) as [->|Hc];
      [apply HP|by right].
Qed.

(** C5: off the primary site a successful task has none of the shared
    fields (name, images, categories, attributes) in its update; the merged
    record has a shared field exactly when the update has it; so the job of
    such a site leaves the shared columns of every row as they were. *)
Theorem canonical_write_isolation pool fuel w :
  site ≠ "com" →
  (∀ cancelled now woo_product sku data field,
     process_woo_product up site cancelled now woo_product = TaskOk sku data →
     field ∈ SHARED_FIELDS → data !! field = None)
  ∧ (∀ existing sku update merged field,
       merge_record existing sku update = Some merged →
       field ∈ SHARED_FIELDS → merged !! field = update !! field)
  ∧ (∀ sku field,
       field ∈ SHARED_FIELDS →
       column (db (full_sync_site pool fuel w).2) sku field
       = column (db w) sku field).
Proof.
  intros Hsite. split; [|split].
  - intros c now wpv sku data field Hok Hf.
    by eapply process_woo_product_no_shared.
  - intros existing sku update merged field Hm Hf.
    by apply (merge_record_lookup _ _ _ _ Hm).
  - intros sku field Hf.
    apply (full_sync_site_table_inv
             (λ db', column db' sku field = column (db w) sku field)); [|done].
    intros db0 updates db' Hen Hb <-.
    eapply batch_update_products_shared; [exact Hb| |done].
    intros u Hu.
    destruct (proj1 (Forall_forall _ _) Hen u Hu) as (c & now & wpv & k & Hok).
    by eapply process_woo_product_no_shared.
Qed.

(** *** Cancellation *)

#[local] Abbreviation flag_tracks_oracle := (flag_tracks_oracle oracle).

Lemma tick_flag from total st :
  flag_tracks_oracle from st → flag_tracks_oracle from (tick total st).
Proof.
  intros [Hle Hiff]. unfold Job.tick.
  destruct (_ || _); [|done].
  unfold Job.flag_tracks_oracle, polled_cancelled in *. simpl.
  destruct (oracle (polls (env st))) eqn:Hor; simpl.
  - split; [lia|]. split; [|done]. intros _.
    exists (polls (env st)). split; [lia|done].
  - assert ((∃ n, (from ≤ n < polls (env st))%nat ∧ oracle n = true) ↔
            ∃ n, (from ≤ n < S (polls (env st)))%nat ∧ oracle n = true) as Hext.
    { split; intros (n & Hn & Hon); exists n.
      - split; [lia|done].
      - split; [|done].
        destruct (decide (n = polls (env st))) as [->|]; [congruence|lia]. }
    destruct (cancelled (prog st)) eqn:Hc; simpl;
      (split; [lia|]); rewrite <- Hext; done.
Qed.

Lemma accumulate_flag from st result batch st' :
  accumulate st result = (batch, st') →
  flag_tracks_oracle from st → flag_tracks_oracle from st'.
Proof.
  unfold accumulate. intros Hacc Hf.
  destruct result; simpl in Hacc;
    destruct (BATCH_SIZE <=? _)%nat; by simplify_eq.
Qed.

Lemma handle_flag from total st now woo_product :
  flag_tracks_oracle from st →
  flag_tracks_oracle from (handle total st now woo_product).
Proof.
  intros Hf. unfold Job.handle.
  destruct (process_woo_product _ _ _ _ _) as [| |sku data|sku]; [done|done| |].
  all: destruct (accumulate st _) as [batch st'] eqn:Hacc.
  all: apply (accumulate_flag from) in Hacc; [|done].
  all: destruct batch as [[|u b]|]; [by apply tick_flag| |by apply tick_flag].
  all: destruct (batch_update_products _ _ _) as [db'|]; [|done].
  all: by apply tick_flag.
Qed.

Lemma consume_flag from total futures : ∀ st,
  flag_tracks_oracle from st →
  flag_tracks_oracle from (consume total st futures).
Proof.
  induction futures as [|[now wp] futures IH]; intros st Hf; [done|].
  simpl. destruct (cancelled (prog st)); [done|].
  by apply IH, handle_flag.
Qed.

(** Once the flag is up the loop consumes nothing more. *)
Lemma consume_cancelled total st futures :
  cancelled (prog st) = true → consume total st futures = st.
Proof. intros Hc. destruct futures as [|[now wp] futures]; [done|]. simpl. by rewrite Hc. Qed.

(** With the flag up the job ends without a write: the pending updates are
    dropped and the terminal status is "cancelled". *)
Lemma finish_cancelled total st :
  cancelled (prog st) = true →
  finish total st
  = (JobDone (Summary site total (success (prog st)) (failed (prog st)) true false),
     World (db (env st))
       (reports (env st)
        ++ [Report "cancelled" site (completed (prog st)) total
              (success (prog st)) (failed (prog st))])
       (polls (env st)) (writes (env st))).
Proof.
  intros Hc. unfold Job.finish. rewrite Hc, andb_false_r. reflexivity.
Qed.

(** What [prepare] does to the polls. *)
Lemma prepare_polls fuel w :
  match prepare fuel w with
  | inl (JobDone s, w') =>
      (polls w' = polls w ∧ summary_cancelled s = false)
      ∨ (polls w' = S (polls w) ∧ oracle (polls w) = true
         ∧ summary_cancelled s = true
         ∧ (∃ r, last (reports w') = Some r ∧ status r = "cancelled"))
  | inl (_, w') => polls w' = polls w
  | inr (_, w') => polls w' = S (polls w) ∧ oracle (polls w) = false
  end.
Proof.
  unfold Job.prepare.
  destruct (negb _); [done|].
  destruct (get_all_products up fuel).1 as [[|p ps]| |]; simpl; auto.
  destruct (oracle (polls w)) eqn:Hor; simpl; [|done].
  right. repeat split; try done.
  eexists. split; [apply last_snoc|done].
Qed.

Lemma finish_polls total st : polls (finish total st).2 = polls (env st).
Proof.
  unfold Job.finish. destruct (_ && _); [|done].
  by destruct (batch_update_products _ _ _).
Qed.

(** C2, amended: when a poll of the oracle made during the job answers
    "cancelled", the job returns with [cancelled] set and its last status
    row says "cancelled"; the pending updates are not written: the table is
    left as it was when the result loop ended (as it was at the start, when
    the job was cancelled before the loop). *)
Theorem cancellation_terminal pool fuel w :
  polled_cancelled oracle (polls w) (full_sync_site pool fuel w).2 →
  ∃ s r,
    (full_sync_site pool fuel w).1 = JobDone s
    ∧ summary_cancelled s = true
    ∧ last (reports (full_sync_site pool fuel w).2) = Some r
    ∧ status r = "cancelled"
    ∧ db (full_sync_site pool fuel w).2
      = match loop_end pool fuel w with
        | Some st => db (env st)
        | None => db w
        end.
Proof.
  unfold Job.full_sync_site, Job.loop_end. intros Hpolled.
  pose proof (prepare_polls fuel w) as Hpolls.
  pose proof (prepare_frame fuel w) as Hdb.
  destruct (prepare fuel w) as [[res w']|[woo_products w']];
    destruct Hdb as [Hdb _]; simpl in *.
  - assert (polls w' = polls w → False) as Hno.
    { intros Heq. destruct Hpolled as (n & Hn & _). lia. }
    destruct res as [s| |]; [|done..].
    destruct Hpolls as [[Heq _]|(_ & _ & Hc & r & Hlast & Hst)]; [done|].
    exists s, r. by rewrite Hdb.
  - destruct Hpolls as [Hp Hor].
    set (st := consume (length woo_products) (start w') (pool woo_products)) in *.
    assert (flag_tracks_oracle (polls w) st) as [_ Hflag].
    { apply consume_flag. split; simpl; [lia|]. split; [done|].
      intros (n & Hn & Hon). simpl in Hn.
      assert (n = polls w) as -> by lia. congruence. }
    assert (cancelled (prog st) = true) as Hc.
    { apply Hflag. destruct Hpolled as (n & Hn & Hon).
      rewrite finish_polls in Hn. by exists n. }
    rewrite (finish_cancelled _ _ Hc). simpl.
    eexists _, _. split; [reflexivity|]. split; [reflexivity|].
    split; [apply last_snoc|]. split; reflexivity.
Qed.

End job.

(** C2, as stated, fails: one product, the oracle answers "cancelled" at the
    tick after it.  The loop ends with the flag up and the update of the
    product pending; writing the pending updates would store the product, but
    the job ends with status "cancelled" and nothing stored. *)
Lemma cancelled_buffer_not_flushed :
  (Job.cancelled ∘ Job.prog) <$> Sample.cancelled_loop_end = Some true
  ∧ (length ∘ Job.pending_updates) <$> Sample.cancelled_loop_end = Some 1%nat
  ∧ Sample.cancelled_loop_end ≫= Sample.flush_would_store "A1" = Some true
  ∧ Job.status <$> last (Job.reports Sample.cancelled_sync.2) = Some "cancelled"
  ∧ Job.db Sample.cancelled_sync.2 !! "A1" = None.
Proof. repeat split; vm_compute; reflexivity. Qed.

Lemma count_invariant_witness :
  Job.wrote_to Sample.stocked Sample.uk_sync.2 "A1"
  ∧ Batch.count_matches "uk" (Job.db Sample.uk_sync.2 !! "A1").
Proof.
  assert (Job.wrote_to Sample.stocked Sample.uk_sync.2 "A1") as Hwrote.
  { exists Sample.uk_sync_writes, Sample.uk_sync_batch, Sample.uk_sync_update.
    split; [exact (eq_refl (Job.writes Sample.stocked ++ Sample.uk_sync_writes)
                   <: Job.writes Sample.uk_sync.2
                              = Job.writes Sample.stocked ++ Sample.uk_sync_writes)|].
    split; [apply head_Some_elem_of;
            exact (eq_refl (Some Sample.uk_sync_batch)
                   <: head Sample.uk_sync_writes
                              = Some Sample.uk_sync_batch)|].
    split; [apply head_Some_elem_of;
            exact (eq_refl (Some Sample.uk_sync_update)
                   <: head Sample.uk_sync_batch
                              = Some Sample.uk_sync_update)|].
    exact (eq_refl true <: Batch.keyed_by "A1" Sample.uk_sync_update = true). }
  split; [exact Hwrote|].
  by apply (count_invariant (H:=Sample.float_of_number)
              Sample.one_product_shop Sample.never_cancelled "uk"
              Sample.in_order 5 Sample.stocked).
Defined.

Lemma canonical_write_isolation_witness :
  Batch.column (Job.db Sample.uk_sync.2) "A1" "name"
  = Batch.column (Job.db Sample.stocked) "A1" "name".
Proof.
  apply (canonical_write_isolation (H:=Sample.float_of_number)
           Sample.one_product_shop Sample.never_cancelled "uk"
           Sample.in_order 5 Sample.stocked); [discriminate|].
  repeat constructor.
Defined.

Lemma cancellation_terminal_witness :
  ∃ s, (Job.full_sync_site (H:=Sample.float_of_number)
          Sample.one_product_shop Sample.cancel_at_second_poll "uk"
          Sample.in_order 5 Sample.fresh).1 = Job.JobDone s
       ∧ Job.summary_cancelled s = true.
Proof.
  destruct (cancellation_terminal (H:=Sample.float_of_number)
              Sample.one_product_shop Sample.cancel_at_second_poll "uk"
              Sample.in_order 5 Sample.fresh) as (s & r & Hs & Hc & _).
  - exists 1%nat. split; [vm_compute; lia|vm_compute; reflexivity].
  - exists s. split; [exact Hs|exact Hc].
Defined.

(** ** Running the job again *)

Section clock.
Import WooCommerceClient Enricher Datastore Batch.
Context `{PyFloat}.
Context (up : upstream) (site : string).

Lemma same_but_sync_time_refl a : same_but_sync_time a a.
Proof. done. Qed.

Lemma same_but_sync_time_insert k v a b :
  k ≠ "last_synced_at" →
  same_but_sync_time a b → same_but_sync_time (<[k := v]> a) (<[k := v]> b).
Proof.
  unfold same_but_sync_time, without_sync_time. intros Hk Hab.
  by rewrite !delete_insert_ne, Hab by done.
Qed.

Lemma same_but_sync_time_stamp x y a b :
  same_but_sync_time a b →
  same_but_sync_time (<["last_synced_at" := x]> a) (<["last_synced_at" := y]> b).
Proof.
  unfold same_but_sync_time, without_sync_time. intros Hab.
  by rewrite !delete_insert_eq.
Qed.

Lemma same_but_sync_time_lookup a b k :
  same_but_sync_time a b → k ≠ "last_synced_at" → a !! k = b !! k.
Proof.
  unfold same_but_sync_time, without_sync_time. intros Hab Hk.
  rewrite <- (lookup_delete_ne a "last_synced_at" k) by done.
  rewrite <- (lookup_delete_ne b "last_synced_at" k) by done.
  by rewrite Hab.
Qed.

(** The opening literal depends on the clock through [last_synced_at]
    only. *)
Lemma site_update_data_clock now now' wp sku :
  match site_update_data site now wp sku, site_update_data site now' wp sku with
  | Some base, Some base' => same_but_sync_time base base'
  | None, None => True
  | _, _ => False
  end.
Proof.
  unfold site_update_data.
  destruct (price_of wp "sale_price") as [p|]; [|done]. simpl.
  destruct (price_of wp "regular_price") as [rp|]; [|done]. simpl.
  repeat (apply same_but_sync_time_insert; [done|]).
  by apply same_but_sync_time_stamp.
Qed.

Lemma finish_update_data_clock wp woo_id ud ud' :
  same_but_sync_time ud ud' →
  match finish_update_data up site wp woo_id ud,
        finish_update_data up site wp woo_id ud' with
  | Some data, Some data' => same_but_sync_time data data'
  | None, None => True
  | _, _ => False
  end.
Proof.
  intros Hud. unfold finish_update_data, with_variations.
  destruct (String.eqb site "com"); simpl.
  - unfold shared_update_data.
    destruct (pluck wp "images" "src") as [imgs|]; [|done]. simpl.
    destruct (pluck wp "categories" "name") as [cats|]; [|done]. simpl.
    destruct (Py.iter _) as [attrs|]; [|done]. simpl.
    destruct (extract_attributes ∅ attrs) as [attributes|]; [|done]. simpl.
    destruct (negb (bool_decide (attributes = ∅)));
      repeat (apply same_but_sync_time_insert; [done|]); done.
  - repeat (apply same_but_sync_time_insert; [done|]); done.
Qed.

(** So does the result of a task. *)
Lemma process_woo_product_clock cancelled now now' woo_product :
  match process_woo_product up site cancelled now woo_product,
        process_woo_product up site cancelled now' woo_product with
  | TaskOk sku data, TaskOk sku' data' =>
      sku = sku' ∧ same_but_sync_time data data'
  | TaskFailed sku, TaskFailed sku' => sku = sku'
  | TaskRaised, TaskRaised | TaskNone, TaskNone => True
  | _, _ => False
  end.
Proof.
  unfold process_woo_product. destruct cancelled; [done|].
  destruct woo_product as [| | | | |?|wp]; try done.
  destruct (negb _); [done|].
  pose proof (site_update_data_clock now now' wp (Py.get_or wp "sku" (VStr "")))
    as Hbase.
  destruct (site_update_data site now wp _) as [base|],
           (site_update_data site now' wp _) as [base'|]; try done. simpl.
  pose proof (finish_update_data_clock wp (Py.get wp "id")
                (<["woo_ids" := per_site site (Py.get wp "id")]> base)
                (<["woo_ids" := per_site site (Py.get wp "id")]> base')) as Hfin.
  destruct (finish_update_data _ _ _ _ (<["woo_ids" := _]> base)),
           (finish_update_data _ _ _ _ (<["woo_ids" := _]> base'));
    try done; try (by apply Hfin, same_but_sync_time_insert).
  split; [done|]. by apply Hfin, same_but_sync_time_insert.
Qed.

End clock.

(** *** When a batch write succeeds *)

Section batch_success.
Import Datastore Batch.
Context (site : string).

Lemma well_formed_same_but_sync_time (u u' : dict) :
  same_but_sync_time u u' → well_formed site u → well_formed site u'.
Proof.
  intros Huu Hwf field Hf. destruct (Hwf field Hf) as [x Hx]. exists x.
  rewrite <- (same_but_sync_time_lookup u u'); [done..|].
  intros ->. revert Hf. solve_key_notin.
Qed.

Lemma text_sku_same_but_sync_time (u u' : dict) :
  same_but_sync_time u u' → text_sku u → text_sku u'.
Proof.
  intros Huu [k Hk]. exists k.
  by rewrite <- (same_but_sync_time_lookup u u').
Qed.

Lemma merge_fields_is_Some existing update fields : ∀ merged0,
  (∀ field, field ∈ fields → is_Some (mapping (update !! field))) →
  is_Some (merge_fields existing update fields merged0).
Proof.
  induction fields as [|f fields IH]; intros merged0 Hm; [by eexists|].
  simpl. unfold merge_field.
  destruct (Hm f) as [new ->]; [left|]. simpl.
  apply IH. intros field Hf. apply Hm. by right.
Qed.

Lemma merge_record_is_Some existing sku update :
  well_formed site update → is_Some (merge_record existing sku update).
Proof.
  intros Hwf. unfold merge_record.
  destruct (merge_fields_is_Some existing update PER_SITE_FIELDS
              {[ "sku" := sku ]}) as [m ->]; [|by eexists].
  intros field Hf. destruct (Hwf field Hf) as [x ->]. by eexists.
Qed.

Lemma upsert_is_Some rows : ∀ db : table,
  Forall text_sku rows → is_Some (upsert rows db).
Proof.
  induction rows as [|row rows IH]; intros db Hrows; [by eexists|].
  apply Forall_cons in Hrows as [[k Hk] Hrows].
  simpl. unfold upsert_row. rewrite Hk. simpl. by apply IH.
Qed.

Lemma upsert_text_sku rows : ∀ db db' : table,
  upsert rows db = Some db' → Forall text_sku rows.
Proof.
  induction rows as [|row rows IH]; intros db db' Hup; [constructor|].
  simpl in Hup. unfold upsert_row in Hup.
  destruct (row !! "sku") as [[| | | |k| |]|] eqn:Hk; try done.
  simpl in Hup. constructor; [by exists k|by eapply IH].
Qed.

(** A batch of well-formed updates is written when every SKU is a text... *)
Lemma batch_update_products_is_Some (db : table) updates :
  Forall (well_formed site) updates → Forall text_sku updates →
  is_Some (batch_update_products db updates site).
Proof.
  intros Hwf Htext. unfold batch_update_products.
  case_bool_decide; [by eexists|].
  destruct (mapM (λ u : dict, u !! "sku") updates) as [skus|] eqn:Hskus.
  2:{ exfalso. apply (is_Some_None (A := list value)). rewrite <- Hskus.
      apply mapM_is_Some, Forall_forall. intros u Hu.
      destruct (proj1 (Forall_forall _ _) Htext u Hu) as [k Hk].
      by exists (VStr k). }
  simpl.
  destruct (mapM (merge_update _) updates) as [final|] eqn:Hfinal.
  2:{ exfalso. apply (is_Some_None (A := list dict)). rewrite <- Hfinal.
      apply mapM_is_Some, Forall_forall. intros u Hu.
      destruct (proj1 (Forall_forall _ _) Htext u Hu) as [k Hk].
      unfold compose, merge_update. rewrite Hk. simpl.
      apply merge_record_is_Some.
      by apply (proj1 (Forall_forall _ _) Hwf). }
  simpl. apply upsert_is_Some.
  apply mapM_Some in Hfinal.
  apply (Forall2_Forall_r _ _ _ _ Hfinal), Forall_forall.
  intros u Hu m Hm.
  destruct (proj1 (Forall_forall _ _) Htext u Hu) as [k Hk].
  unfold merge_update in Hm. rewrite Hk in Hm. simpl in Hm.
  destruct (merge_record_lookup _ _ _ _ Hm) as [Hsku _]. by exists k.
Qed.

(** ... and only then. *)
Lemma batch_update_products_text_sku (db : table) updates db' :
  batch_update_products db updates site = Some db' → Forall text_sku updates.
Proof.
  unfold batch_update_products. intros Hb.
  case_bool_decide as Hnil; [subst; constructor|].
  destruct (mapM _ updates) as [skus|]; [|done]. simpl in Hb.
  destruct (mapM (merge_update _) updates) as [final|] eqn:Hfinal; [|done].
  simpl in Hb. apply upsert_text_sku in Hb. apply mapM_Some in Hfinal.
  apply Forall2_flip in Hfinal.
  apply (Forall2_Forall_r _ _ _ _ Hfinal), Forall_forall.
  intros m Hm u Hu. simpl in Hu.
  destruct (proj1 (Forall_forall _ _) Hb m Hm) as [k Hk].
  unfold merge_update in Hu.
  destruct (u !! "sku") as [sku|] eqn:Hsku; [|done]. simpl in Hu.
  destruct (existing_for _ sku); [|done]. simpl in Hu.
  destruct (merge_record_lookup _ _ _ _ Hu) as [Hmsku _].
  rewrite Hk in Hmsku. simplify_eq. by exists k.
Qed.

(** So whether a batch of well-formed updates is written depends neither
    on the table nor on the time stamps. *)
Lemma batch_update_products_success (db db' : table) updates updates' :
  Forall (well_formed site) updates →
  Forall2 same_but_sync_time updates updates' →
  is_Some (batch_update_products db updates site) →
  is_Some (batch_update_products db' updates' site).
Proof.
  intros Hwf Hsame [db1 Hb].
  apply batch_update_products_text_sku in Hb.
  apply batch_update_products_is_Some.
  - apply (Forall2_Forall_r _ _ _ _ Hsame), Forall_forall.
    intros u Hu u' Huu. eapply well_formed_same_but_sync_time; [done|].
    by apply (proj1 (Forall_forall _ _) Hwf).
  - apply (Forall2_Forall_r _ _ _ _ Hsame), Forall_forall.
    intros u Hu u' Huu. eapply text_sku_same_but_sync_time; [done|].
    by apply (proj1 (Forall_forall _ _) Hb).
Qed.

End batch_success.

(** *** Two runs of the job, step by step *)

Section two_runs.
Import WooCommerceClient Enricher Datastore Batch Job.
Context `{PyFloat}.
Context (up : upstream) (oracle : nat → bool) (site : string).
Context (ws ws' : list (list dict)).

#[local] Abbreviation enriched := (enriched up site).
#[local] Abbreviation in_step := (in_step up site ws ws').
#[local] Abbreviation tick := (tick oracle site).
#[local] Abbreviation handle := (handle up oracle site).
#[local] Abbreviation consume := (consume up oracle site).
#[local] Abbreviation finish := (finish site).
#[local] Abbreviation prepare := (prepare up oracle site).
#[local] Abbreviation full_sync_site := (full_sync_site up oracle site).

#[local] Opaque BATCH_SIZE.

Lemma enriched_truthy data : enriched data → Py.truthy (VDict data) = true.
Proof.
  intros (c & now & wp & sku & Hok).
  apply process_woo_product_update in Hok as (Hsku & _).
  simpl. apply negb_true_iff, bool_decide_eq_false. intros ->.
  by rewrite lookup_empty in Hsku.
Qed.

Lemma tick_in_step total st st' :
  in_step st st' → in_step (tick total st) (tick total st').
Proof.
  intros (Hprog & Hpend & Hen & Hen' & Hpolls & Hws). unfold Job.tick.
  rewrite <- Hprog. destruct (_ || _); [|done]. simpl.
  rewrite <- Hpolls.
  by destruct (oracle (polls (env st))), (cancelled (prog st)).
Qed.

Lemma accumulate_in_step st st' result result' batch s batch' s' :
  in_step st st' →
  (∃ sku data data',
     result = TaskOk sku data ∧ result' = TaskOk sku data'
     ∧ same_but_sync_time data data' ∧ enriched data ∧ enriched data')
  ∨ (∃ sku, result = TaskFailed sku ∧ result' = TaskFailed sku) →
  accumulate st result = (batch, s) →
  accumulate st' result' = (batch', s') →
  in_step s s'
  ∧ option_Forall2 (Forall2 same_but_sync_time) batch batch'
  ∧ (∀ b, batch = Some b → Forall enriched b)
  ∧ (∀ b, batch' = Some b → Forall enriched b).
Proof.
  intros (Hprog & Hpend & Hen & Hen' & Hworld) Hres Hacc Hacc'.
  unfold accumulate in Hacc, Hacc'.
  destruct Hres as [(sku & data & data' & -> & -> & Hdata & Hd & Hd')
                   |(sku & -> & ->)].
  - rewrite (enriched_truthy _ Hd) in Hacc.
    rewrite (enriched_truthy _ Hd') in Hacc'.
    cbn [prog pending_updates failed_skus env] in Hacc, Hacc'.
    assert (Forall2 same_but_sync_time (pending_updates st ++ [data])
              (pending_updates st' ++ [data'])) as Hpend2.
    { apply Forall2_app; [done|]. by constructor. }
    assert (Forall enriched (pending_updates st ++ [data])) as Hen2.
    { apply Forall_app. split; [done|]. by constructor. }
    assert (Forall enriched (pending_updates st' ++ [data'])) as Hen2'.
    { apply Forall_app. split; [done|]. by constructor. }
    rewrite <- (Forall2_length _ _ _ Hpend2), <- Hprog in Hacc'.
    destruct (BATCH_SIZE <=? _)%nat; simplify_eq.
    + split; [|split; [by constructor|split; by intros ? [= <-]]].
      unfold Job.in_step; simpl. split_and!; try done; constructor.
    + split; [|split; [by constructor|split; by intros ? [=]]].
      unfold Job.in_step; simpl. by split_and!.
  - cbn [prog pending_updates failed_skus env] in Hacc, Hacc'.
    rewrite <- (Forall2_length _ _ _ Hpend), <- Hprog in Hacc'.
    destruct (BATCH_SIZE <=? _)%nat; simplify_eq.
    + split; [|split; [by constructor|split; by intros ? [= <-]]].
      unfold Job.in_step; simpl. split_and!; try done; constructor.
    + split; [|split; [by constructor|split; by intros ? [=]]].
      unfold Job.in_step; simpl. by split_and!.
Qed.

Lemma write_in_step total s s' (batch batch' : option (list dict)) :
  in_step s s' →
  option_Forall2 (Forall2 same_but_sync_time) batch batch' →
  (∀ b, batch = Some b → Forall enriched b) →
  (∀ b, batch' = Some b → Forall enriched b) →
  in_step
    match batch with
    | Some ((_ :: _) as b) =>
        match batch_update_products (db (env s)) b site with
        | Some db' =>
            tick total
              {| prog := prog s; pending_updates := pending_updates s;
                 failed_skus := failed_skus s; env := written (env s) b db' |}
        | None => s
        end
    | _ => tick total s
    end
    match batch' with
    | Some ((_ :: _) as b) =>
        match batch_update_products (db (env s')) b site with
        | Some db' =>
            tick total
              {| prog := prog s'; pending_updates := pending_updates s';
                 failed_skus := failed_skus s'; env := written (env s') b db' |}
        | None => s'
        end
    | _ => tick total s'
    end.
Proof.
  intros Hstep Hb Hen Hen'.
  destruct Hb as [b b' Hbb|]; [|by apply tick_in_step].
  specialize (Hen b eq_refl). specialize (Hen' b' eq_refl).
  destruct Hbb as [|u u' b b' Hu Hbb]; [by apply tick_in_step|].
  assert (Forall2 same_but_sync_time (u :: b) (u' :: b')) as Hsame
    by by constructor.
  assert (Forall2 same_but_sync_time (u' :: b') (u :: b)) as Hsame'.
  { apply Forall2_flip. eapply Forall2_impl; [exact Hsame|].
    intros x y Hxy. simpl. symmetry. exact Hxy. }
  generalize dependent (u :: b). generalize dependent (u' :: b').
  intros l' Hen' l Hen Hsame Hsame'.
  assert (Forall (well_formed site) l) as Hwf.
  { eapply Forall_impl; [exact Hen|]. apply enriched_well_formed. }
  assert (Forall (well_formed site) l') as Hwf'.
  { eapply Forall_impl; [exact Hen'|]. apply enriched_well_formed. }
  destruct (batch_update_products (db (env s)) l site) as [db1|] eqn:Hw1,
           (batch_update_products (db (env s')) l' site) as [db1'|] eqn:Hw1'.
  - apply tick_in_step.
    destruct Hstep as (Hprog & Hpend & He & He' & Hpolls & new & new' & Hn & Hn' & Hnn).
    unfold Job.in_step, worlds_in_step; simpl. split_and!; try done.
    exists (new ++ [l]), (new' ++ [l']).
    rewrite Hn, Hn', <- !app_assoc. split_and!; try done.
    apply Forall2_app; [done|]. by constructor.
  - exfalso. apply (is_Some_None (A := table)). rewrite <- Hw1'.
    eapply batch_update_products_success; [exact Hwf|exact Hsame|by eexists].
  - exfalso. apply (is_Some_None (A := table)). rewrite <- Hw1.
    eapply batch_update_products_success; [exact Hwf'|exact Hsame'|by eexists].
  - done.
Qed.

Lemma handle_in_step total st st' now now' woo_product :
  in_step st st' →
  in_step (handle total st now woo_product) (handle total st' now' woo_product).
Proof.
  intros Hstep. unfold Job.handle.
  pose proof (process_woo_product_clock up site (cancelled (prog st))
                now now' woo_product) as Hres.
  destruct Hstep as (Hprog & Hrest). rewrite <- Hprog.
  pose proof (conj Hprog Hrest : in_step st st') as Hstep.
  destruct (process_woo_product up site (cancelled (prog st)) now woo_product)
    as [| |sku data|sku] eqn:Hr,
    (process_woo_product up site (cancelled (prog st)) now' woo_product)
    as [| |sku' data'|sku'] eqn:Hr'; try done.
  - destruct Hres as [<- Hdata].
    destruct (accumulate st _) as [batch s] eqn:Hacc,
             (accumulate st' _) as [batch' s'] eqn:Hacc'.
    destruct (accumulate_in_step _ _ _ _ _ _ _ _ Hstep
                (or_introl (ex_intro _ sku (ex_intro _ data (ex_intro _ data'
                   (conj eq_refl (conj eq_refl (conj Hdata
                      (conj (ex_intro _ _ (ex_intro _ _ (ex_intro _ _
                               (ex_intro _ _ Hr))))
                            (ex_intro _ _ (ex_intro _ _ (ex_intro _ _
                               (ex_intro _ _ Hr'))))))))))))
                Hacc Hacc') as (Hs & Hb & He & He').
    by apply write_in_step.
  - subst sku'.
    destruct (accumulate st _) as [batch s] eqn:Hacc,
             (accumulate st' _) as [batch' s'] eqn:Hacc'.
    destruct (accumulate_in_step _ _ _ _ _ _ _ _ Hstep
                (or_intror (ex_intro _ sku (conj eq_refl eq_refl)))
                Hacc Hacc') as (Hs & Hb & He & He').
    by apply write_in_step.
Qed.

Lemma consume_in_step total futures : ∀ futures' st st',
  futures.*2 = futures'.*2 →
  in_step st st' →
  in_step (consume total st futures) (consume total st' futures').
Proof.
  induction futures as [|[now wp] futures IH];
    intros [|[now' wp'] futures'] st st' Hfut Hstep; try done.
  simpl in Hfut. simplify_eq. simpl.
  destruct Hstep as (Hprog & Hrest). rewrite <- Hprog.
  destruct (cancelled (prog st)); [done|].
  apply IH; [done|]. by apply handle_in_step.
Qed.

Lemma finish_in_step total st st' :
  in_step st st' →
  worlds_in_step ws ws' (finish total st).2 (finish total st').2.
Proof.
  intros (Hprog & Hpend & Hen & Hen' & Hworld). unfold Job.finish.
  rewrite <- Hprog.
  assert (bool_decide (pending_updates st = [])
          = bool_decide (pending_updates st' = [])) as <-.
  { apply bool_decide_ext. split; intros Hnil; rewrite Hnil in Hpend.
    - by apply Forall2_nil_inv_l in Hpend.
    - by apply Forall2_nil_inv_r in Hpend. }
  destruct (_ && _); [|done].
  assert (Forall (well_formed site) (pending_updates st)) as Hwf.
  { eapply Forall_impl; [exact Hen|]. apply enriched_well_formed. }
  assert (Forall (well_formed site) (pending_updates st')) as Hwf'.
  { eapply Forall_impl; [exact Hen'|]. apply enriched_well_formed. }
  assert (Forall2 same_but_sync_time (pending_updates st') (pending_updates st))
    as Hpend'.
  { apply Forall2_flip. eapply Forall2_impl; [exact Hpend|].
    intros x y Hxy. simpl. symmetry. exact Hxy. }
  destruct (batch_update_products (db (env st)) _ site) as [db1|] eqn:Hw1,
           (batch_update_products (db (env st')) _ site) as [db1'|] eqn:Hw1';
    simpl.
  - destruct Hworld as (Hpolls & new & new' & Hn & Hn' & Hnn).
    unfold worlds_in_step; simpl. split; [done|].
    exists (new ++ [pending_updates st]), (new' ++ [pending_updates st']).
    rewrite Hn, Hn', <- !app_assoc. split_and!; try done.
    apply Forall2_app; [done|]. by constructor.
  - exfalso. apply (is_Some_None (A := table)). rewrite <- Hw1'.
    eapply batch_update_products_success; [exact Hwf|exact Hpend|by eexists].
  - exfalso. apply (is_Some_None (A := table)). rewrite <- Hw1.
    eapply batch_update_products_success; [exact Hwf'|exact Hpend'|by eexists].
  - done.
Qed.

Lemma prepare_in_step fuel w w' :
  worlds_in_step ws ws' w w' →
  match prepare fuel w, prepare fuel w' with
  | inl (_, w1), inl (_, w1') => worlds_in_step ws ws' w1 w1'
  | inr (woo_products, w1), inr (woo_products', w1') =>
      woo_products = woo_products' ∧ worlds_in_step ws ws' w1 w1'
  | _, _ => False
  end.
Proof.
  intros (Hpolls & Hws). unfold Job.prepare.
  destruct (negb _); [done|].
  destruct (get_all_products up fuel).1 as [[|p ps]| |]; try done.
  simpl. rewrite <- Hpolls. by destruct (oracle (polls w)).
Qed.

(** Two runs of the job over the same catalogue, completed in the same
    order and cancelled at the same polls, write batches that differ in the
    time stamps at most. *)
Lemma full_sync_site_in_step pool pool' fuel w w' :
  same_order pool pool' →
  worlds_in_step ws ws' w w' →
  worlds_in_step ws ws' (full_sync_site pool fuel w).2
    (full_sync_site pool' fuel w').2.
Proof.
  intros Hpool Hw. unfold Job.full_sync_site.
  pose proof (prepare_in_step fuel w w' Hw) as Hprep.
  destruct (prepare fuel w) as [[r w1]|[wps w1]],
           (prepare fuel w') as [[r' w1']|[wps' w1']]; try done.
  destruct Hprep as [<- Hw1].
  apply finish_in_step, consume_in_step; [apply Hpool|].
  unfold Job.in_step; simpl. split_and!; try done; constructor.
Qed.

End two_runs.

(** *** The rows a sequence of writes leaves *)

Section replay.
Import Datastore Batch.
Context (site : string).

(** Every key of a merged record is of one of five kinds. *)
Lemma field_kind (field : string) :
  field = "sku" ∨ field = "last_synced_at"
  ∨ field ∈ PER_SITE_FIELDS ∨ field ∈ SHARED_FIELDS
  ∨ (field ≠ "sku" ∧ field ≠ "last_synced_at"
     ∧ (field ∉ PER_SITE_FIELDS) ∧ (field ∉ SHARED_FIELDS)).
Proof.
  destruct (decide (field = "sku")); [by left|].
  destruct (decide (field = "last_synced_at")); [by right; left|].
  destruct (decide (field ∈ PER_SITE_FIELDS)); [by right; right; left|].
  destruct (decide (field ∈ SHARED_FIELDS)); [by right; right; right; left|].
  by right; right; right; right.
Qed.

(** Two merged records agree off [last_synced_at] when their per-site
    columns and the shared fields of their updates do. *)
Lemma merge_record_agree e1 e2 sku u1 u2 m1 m2 :
  merge_record e1 sku u1 = Some m1 →
  merge_record e2 sku u2 = Some m2 →
  (∀ field, field ∈ PER_SITE_FIELDS → m1 !! field = m2 !! field) →
  (∀ field, field ∈ SHARED_FIELDS → u1 !! field = u2 !! field) →
  same_but_sync_time m1 m2.
Proof.
  intros H1 H2 Hper Hshared.
  destruct (merge_record_lookup _ _ _ _ H1) as (Hs1 & _ & _ & Hsh1 & Ho1).
  destruct (merge_record_lookup _ _ _ _ H2) as (Hs2 & _ & _ & Hsh2 & Ho2).
  apply map_eq. intros field. unfold without_sync_time.
  destruct (field_kind field) as [->|[->|[Hf|[Hf|(?&?&?&?)]]]].
  - rewrite !lookup_delete_ne by done. by rewrite Hs1, Hs2.
  - by rewrite !lookup_delete_eq.
  - rewrite !lookup_delete_ne; [by apply Hper|..];
      intros <-; revert Hf; solve_key_notin.
  - rewrite !lookup_delete_ne; [by rewrite Hsh1, Hsh2, Hshared|..];
      intros <-; revert Hf; solve_key_notin.
  - rewrite !lookup_delete_ne by done. by rewrite Ho1, Ho2.
Qed.

(** The merged record of a well-formed update reads the existing row
    through the entries of the other sites only. *)
Lemma merge_record_frame_ext e1 e2 sku update m1 :
  well_formed site update →
  (∀ field other, field ∈ PER_SITE_FIELDS → other ≠ site →
     safe_dict (e1 !! field) !! other = safe_dict (e2 !! field) !! other) →
  merge_record e1 sku update = Some m1 →
  merge_record e2 sku update = Some m1.
Proof.
  intros Hwf Hframe H1.
  destruct (merge_record_is_Some site e2 sku update Hwf) as [m2 H2].
  rewrite H2. f_equal. symmetry.
  destruct (merge_record_lookup _ _ _ _ H1) as (_ & Ht1 & Hp1 & _).
  destruct (merge_record_lookup _ _ _ _ H2) as (_ & Ht2 & Hp2 & _).
  assert (same_but_sync_time m1 m2) as Hsame.
  { eapply merge_record_agree; [done..| |done].
    intros field Hf.
    destruct (Hp1 field Hf) as (new1 & Hn1 & ->).
    destruct (Hp2 field Hf) as (new2 & Hn2 & ->).
    destruct (Hwf field Hf) as [x Hx]. rewrite Hx in Hn1, Hn2.
    simpl in *. simplify_eq. do 2 f_equal.
    apply map_eq. intros other.
    destruct (decide (other = site)) as [->|Hne].
    - by rewrite !(lookup_union_Some_l _ _ _ x) by apply lookup_singleton_eq.
    - rewrite !lookup_union_r by by apply lookup_singleton_ne.
      by apply Hframe. }
  apply map_eq. intros field.
  destruct (decide (field = "last_synced_at")) as [->|Hne];
    [by rewrite Ht1, Ht2|].
  by apply same_but_sync_time_lookup.
Qed.

(** Merged records of updates that differ in the time stamp at most differ
    in the time stamp at most. *)
Lemma merge_record_clock existing sku u u' m m' :
  same_but_sync_time u u' →
  merge_record existing sku u = Some m →
  merge_record existing sku u' = Some m' →
  same_but_sync_time m m'.
Proof.
  intros Huu Hm Hm'.
  destruct (merge_record_lookup _ _ _ _ Hm) as (_ & _ & Hp & _).
  destruct (merge_record_lookup _ _ _ _ Hm') as (_ & _ & Hp' & _).
  eapply merge_record_agree; [done..| |].
  - intros field Hf.
    destruct (Hp field Hf) as (new & Hn & ->).
    destruct (Hp' field Hf) as (new' & Hn' & ->).
    rewrite (same_but_sync_time_lookup u u') in Hn; [by simplify_eq|done|].
    intros ->. revert Hf. solve_key_notin.
  - intros field Hf. apply same_but_sync_time_lookup; [done|].
    intros ->. revert Hf. solve_key_notin.
Qed.

Lemma replay_snoc batches batch : ∀ db : table,
  replay site (batches ++ [batch]) db
  = replay site batches db ≫= λ db', batch_update_products db' batch site.
Proof.
  induction batches as [|b batches IH]; intros db; simpl.
  - by destruct (batch_update_products db batch site).
  - destruct (batch_update_products db b site) as [db1|]; [|done]. simpl.
    apply IH.
Qed.

(** The row a sequence of writes of well-formed updates leaves under a key:
    the records merged from all the updates for that key, each merged with
    the row as it was before the first write, laid over that row in
    order. *)
Lemma replay_lookup batches : ∀ (db db' : table) sku,
  Forall (Forall (well_formed site)) batches →
  replay site batches db = Some db' →
  ∃ rows,
    Forall2 (λ update merged,
               merge_record (default ∅ (db !! sku)) (VStr sku) update
               = Some merged)
      (filter (λ u, keyed_by sku u = true) (concat batches)) rows
    ∧ db' !! sku = foldl overwrite (db !! sku) rows.
Proof.
  induction batches as [|b batches IH]; intros db db' sku Hwf Hr.
  - simpl in Hr. simplify_eq. exists []. split; [constructor|done].
  - apply Forall_cons in Hwf as [Hb Hwf]. simpl in Hr.
    destruct (batch_update_products db b site) as [db1|] eqn:Hw; [|done].
    simpl in Hr.
    destruct (batch_update_products_lookup _ _ _ _ sku Hw) as (rows1 & H1 & Hl1).
    destruct (IH _ _ sku Hwf Hr) as (rows2 & H2 & Hl2).
    exists (rows1 ++ rows2). split.
    + simpl. rewrite filter_app. apply Forall2_app; [done|].
      assert (Forall (well_formed site)
                (filter (λ u, keyed_by sku u = true) (concat batches))) as Hwf2.
      { apply Forall_forall. intros u [_ Hu]%list_elem_of_filter.
        apply list_elem_of_In, in_concat in Hu as (batch & Hbatch & Hu).
        apply list_elem_of_In in Hbatch, Hu.
        eapply (proj1 (Forall_forall _ _)); [|exact Hu].
        by eapply (proj1 (Forall_forall _ _) Hwf). }
      clear Hl2. induction H2 as [|u m us ms Hum _ IH2]; [constructor|].
      apply Forall_cons in Hwf2 as [Hu Hwf2].
      constructor; [|by apply IH2].
      eapply merge_record_frame_ext; [exact Hu| |exact Hum].
      intros field other Hf Hne.
      apply (batch_update_products_frame _ _ _ _ Hw); [|done..].
      intros u0 Hu0. apply well_formed_only_site.
      by apply (proj1 (Forall_forall _ _) Hb).
    + by rewrite foldl_app, <- Hl1.
Qed.

(** Payloads laid over a row one after the other are their stack laid over
    it. *)
Lemma foldl_overwrite_stacked rows : ∀ stored,
  foldl overwrite stored rows
  = match rows with
    | [] => stored
    | _ => Some (stacked rows ∪ default ∅ stored)
    end.
Proof.
  induction rows as [|row rows IH] using rev_ind; intros stored; [done|].
  rewrite foldl_app, IH. cbn [foldl]. unfold stacked, overwrite.
  rewrite foldl_app. cbn [foldl].
  destruct rows as [|r rows]; simpl.
  - by rewrite (right_id_L ∅ (∪)).
  - by rewrite (assoc_L (∪)).
Qed.

Lemma stacked_clock rows rows' :
  Forall2 same_but_sync_time rows rows' →
  same_but_sync_time (stacked rows) (stacked rows').
Proof.
  unfold stacked. intros Hrows.
  enough (∀ b b' : dict,
            same_but_sync_time b b' →
            same_but_sync_time (foldl (λ below row, row ∪ below) b rows)
              (foldl (λ below row, row ∪ below) b' rows')) as Hgen
    by by apply Hgen.
  induction Hrows as [|row row' rows rows' Hrow _ IH]; intros b b' Hb; [done|].
  cbn [foldl]. apply IH.
  unfold same_but_sync_time, without_sync_time in *.
  by rewrite !delete_union, Hrow, Hb.
Qed.

End replay.

Section replay_twice.
Import Datastore Batch.
Context (site : string).

Lemma Forall2_concat {A B} (R : A → B → Prop) ls ls' :
  Forall2 (Forall2 R) ls ls' → Forall2 R (concat ls) (concat ls').
Proof.
  induction 1 as [|l l' ls ls' Hl _ IH]; [constructor|].
  simpl. by apply Forall2_app.
Qed.

Lemma keyed_by_clock sku (u u' : dict) :
  same_but_sync_time u u' → keyed_by sku u = keyed_by sku u'.
Proof.
  intros Huu. unfold keyed_by.
  by rewrite (same_but_sync_time_lookup u u').
Qed.

(** A sequence of writes for a site leaves the entries of the other sites
    alone. *)
Lemma replay_frame batches : ∀ (db db' : table) sku field other,
  Forall (Forall (well_formed site)) batches →
  replay site batches db = Some db' →
  field ∈ PER_SITE_FIELDS → other ≠ site →
  site_entry db' sku field other = site_entry db sku field other.
Proof.
  induction batches as [|b batches IH]; intros db db' sku field other Hwf Hr Hf Hne.
  - simpl in Hr. by simplify_eq.
  - apply Forall_cons in Hwf as [Hb Hwf]. simpl in Hr.
    destruct (batch_update_products db b site) as [db1|] eqn:Hw; [|done].
    simpl in Hr. rewrite (IH _ _ _ _ _ Hwf Hr Hf Hne).
    apply (batch_update_products_frame _ _ _ _ Hw); [|done..].
    intros u Hu. apply well_formed_only_site.
    by apply (proj1 (Forall_forall _ _) Hb).
Qed.

(** Records merged from updates that differ in the time stamps at most,
    with rows that agree on the entries of the other sites. *)
Lemma merged_rows_clock e1 e2 sku (us us' rows rows' : list dict) :
  Forall (well_formed site) us' →
  (∀ field other, field ∈ PER_SITE_FIELDS → other ≠ site →
     safe_dict (e2 !! field) !! other = safe_dict (e1 !! field) !! other) →
  Forall2 same_but_sync_time us us' →
  Forall2 (λ u m, merge_record e1 sku u = Some m) us rows →
  Forall2 (λ u m, merge_record e2 sku u = Some m) us' rows' →
  Forall2 same_but_sync_time rows rows'.
Proof.
  intros Hwf Hframe Hus. revert rows rows' Hwf.
  induction Hus as [|u u' us us' Hu _ IH]; intros rows rows' Hwf H1 H2.
  - apply Forall2_nil_inv_l in H1, H2. subst. constructor.
  - apply Forall2_cons_inv_l in H1 as (m & rows1 & Hm & H1 & ->).
    apply Forall2_cons_inv_l in H2 as (m' & rows2 & Hm' & H2 & ->).
    apply Forall_cons in Hwf as [Hwfu Hwf].
    constructor; [|by apply IH].
    eapply merge_record_clock; [exact Hu|exact Hm|].
    by eapply merge_record_frame_ext.
Qed.

(** Writing the same batches again, time stamps apart, leaves every row as
    the first writing left it, time stamp apart. *)
Lemma replay_twice (db0 db1 db2 : table) batches batches' sku :
  Forall (Forall (well_formed site)) batches →
  Forall (Forall (well_formed site)) batches' →
  Forall2 (Forall2 same_but_sync_time) batches batches' →
  replay site batches db0 = Some db1 →
  replay site batches' db1 = Some db2 →
  without_sync_time <$> db2 !! sku = without_sync_time <$> db1 !! sku.
Proof.
  intros Hwf Hwf' Hsame Hr1 Hr2.
  destruct (replay_lookup site _ _ _ sku Hwf Hr1) as (rows1 & Hrows1 & Hl1).
  destruct (replay_lookup site _ _ _ sku Hwf' Hr2) as (rows2 & Hrows2 & Hl2).
  assert (Forall2 same_but_sync_time rows1 rows2) as Hrows.
  { eapply (merged_rows_clock _ _ _ _ _ _ _ _ _ _ Hrows1 Hrows2). Unshelve.
    - apply Forall_forall. intros u [_ Hu]%list_elem_of_filter.
      apply list_elem_of_In, in_concat in Hu as (batch & Hbatch & Hu).
      apply list_elem_of_In in Hbatch, Hu.
      eapply (proj1 (Forall_forall _ _)); [|exact Hu].
      by eapply (proj1 (Forall_forall _ _) Hwf').
    - intros field other Hf Hne.
      by apply (replay_frame _ _ _ sku field other Hwf Hr1).
    - apply Forall2_filter_both.
      eapply Forall2_impl; [apply Forall2_concat, Hsame|].
      intros u u' Huu. split; [by apply keyed_by_clock|done]. }
  rewrite Hl2, Hl1, !foldl_overwrite_stacked.
  pose proof (stacked_clock _ _ Hrows) as Hstack.
  destruct Hrows as [|m1 m2 rows1 rows2 Hm Hrows]; [done|].
  simpl. f_equal.
  unfold same_but_sync_time, without_sync_time in *.
  rewrite !delete_union, Hstack.
  by rewrite (assoc_L (∪)), (idemp_L (∪)).
Qed.

(** Whether a record can be merged depends on the update alone. *)
Lemma merge_record_is_Some_ext e1 e2 sku update merged :
  merge_record e1 sku update = Some merged →
  is_Some (merge_record e2 sku update).
Proof.
  intros Hm. destruct (merge_record_lookup _ _ _ _ Hm) as (_ & _ & Hper & _).
  unfold merge_record.
  destruct (merge_fields_is_Some e2 update PER_SITE_FIELDS {[ "sku" := sku ]})
    as [m ->]; [|by eexists].
  intros field Hf. destruct (Hper field Hf) as (new & -> & _). by eexists.
Qed.

(** Merging an update into the row that already has its merged record
    gives that record again, and laying it over the row changes nothing. *)
Lemma merge_record_again stored sku update merged :
  merge_record (default ∅ stored) sku update = Some merged →
  merge_record (default ∅ (overwrite stored merged)) sku update = Some merged
  ∧ overwrite (overwrite stored merged) merged = overwrite stored merged.
Proof.
  intros Hm. split.
  - destruct (merge_record_is_Some_ext _ (default ∅ (overwrite stored merged))
                _ _ _ Hm) as [m2 Hm2].
    rewrite Hm2. f_equal. symmetry.
    destruct (merge_record_lookup _ _ _ _ Hm) as (_ & Ht1 & Hp1 & _).
    destruct (merge_record_lookup _ _ _ _ Hm2) as (_ & Ht2 & Hp2 & _).
    assert (same_but_sync_time merged m2) as Hsame.
    { eapply merge_record_agree; [done..| |done].
      intros field Hf.
      destruct (Hp1 field Hf) as (new1 & Hn1 & Hv1).
      destruct (Hp2 field Hf) as (new2 & Hn2 & Hv2).
      rewrite Hn1 in Hn2. simplify_eq.
      rewrite Hv2, (overwrite_lookup_Some _ _ _ _ Hv1), Hv1. simpl.
      by rewrite (assoc_L (∪)), (idemp_L (∪)). }
    apply map_eq. intros field.
    destruct (decide (field = "last_synced_at")) as [->|Hne];
      [by rewrite Ht1, Ht2|].
    by apply same_but_sync_time_lookup.
  - unfold overwrite. simpl.
    by rewrite (assoc_L (∪)), (idemp_L (∪)).
Qed.

End replay_twice.

Section idempotence.
Import WooCommerceClient Enricher Datastore Batch Job.
Context `{PyFloat}.
Context (up : upstream) (oracle : nat → bool) (site : string).

#[local] Abbreviation full_sync_site := (full_sync_site up oracle site).

(** The table the job leaves is the table it found with the batches it
    logged written in order. *)
Lemma full_sync_site_replay pool fuel w :
  ∃ new,
    writes (full_sync_site pool fuel w).2 = writes w ++ new
    ∧ replay site new (db w) = Some (db (full_sync_site pool fuel w).2)
    ∧ Forall (Forall (well_formed site)) new.
Proof.
  apply (full_sync_site_world_inv up oracle site
           (λ db' ws', ∃ new, ws' = writes w ++ new
                              ∧ replay site new (db w) = Some db'
                              ∧ Forall (Forall (well_formed site)) new)).
  - intros db0 ws0 updates db' Hen Hb (new & -> & Hr & Hwf).
    exists (new ++ [updates]). split_and!.
    + by rewrite app_assoc.
    + by rewrite replay_snoc, Hr.
    + apply Forall_app. split; [done|]. constructor; [|constructor].
      eapply Forall_impl; [exact Hen|]. apply enriched_well_formed.
  - exists []. by rewrite app_nil_r.
Qed.


End idempotence.

(** Two tables that differ in an entry of a site differ in the row, the
    time stamp apart. *)
Lemma site_entry_differs (db1 db2 : Datastore.table) sku field site x y :
  field ≠ "last_synced_at" →
  Batch.site_entry db1 sku field site = Some x →
  Batch.site_entry db2 sku field site = Some y →
  x ≠ y →
  Batch.without_sync_time <$> db1 !! sku ≠ Batch.without_sync_time <$> db2 !! sku.
Proof.
  unfold Batch.site_entry, Batch.column. intros Hf H1 H2 Hne Heq.
  destruct (db1 !! sku) as [row1|], (db2 !! sku) as [row2|]; try done.
  injection Heq as Heq. cbn [default from_option] in H1, H2.
  unfold id in H1, H2.
  rewrite (same_but_sync_time_lookup row1 row2 field) in H1 by done.
  congruence.
Qed.



(** * Further properties *)

(** ** The retry gate, for any bound *)

Section retry_gate_general.
Import WooCommerceClient Outcome Trace.

Lemma status_503_failed r : (status_code r =? 503) = true → failed (Answered r) = true.
Proof.
  intros Hs%Z.eqb_eq. simpl. unfold raises_for_status. rewrite Hs. reflexivity.
Qed.

(** The attempts from [a] on, [m] of them left, the last being attempt
    [max_retries - 1]: some attempt [a + j] ends the loop; the ones before
    it failed and were slept after, no sleep follows it; it is returned
    when its answer does not raise for its status, and its error is raised
    only when it is the last attempt. *)
Lemma request_attempts_shape get max_retries m : ∀ a,
  (a + S m = max_retries)%nat →
  ∃ j, (j ≤ m)%nat
    ∧ (request_attempts get max_retries (seq a (S m))).2
      = flat_map (λ attempt, [Get attempt; Sleep (wait_time attempt)]) (seq a j)
        ++ [Get (a + j)]
    ∧ (∀ i, (i < j)%nat → failed (get (a + i)%nat) = true)
    ∧ match (request_attempts get max_retries (seq a (S m))).1 with
      | inr r => get (a + j)%nat = Answered r ∧ raises_for_status r = false
      | inl e => j = m ∧ failed (get (a + j)%nat) = true
                 ∧ e = error_of (get (a + j)%nat)
      end.
Proof.
  induction m as [|m IH]; intros a Ha.
  - exists 0%nat. rewrite Nat.add_0_r. cbn [seq request_attempts].
    assert ((a <? max_retries - 1)%nat = false) as -> by (apply Nat.ltb_ge; lia).
    split; [lia|].
    destruct (get a) as [r|] eqn:Hget.
    + rewrite andb_false_r.
      destruct (raises_for_status r) eqn:Hr; simpl.
      * split; [done|]. split; [intros i Hi; lia|]. by rewrite Hr.
      * split; [done|]. split; [intros i Hi; lia|done].
    + simpl. split; [done|]. split; [intros i Hi; lia|done].
  - assert ((a <? max_retries - 1)%nat = true) as Hlt by (apply Nat.ltb_lt; lia).
    destruct (IH (S a)) as (j & Hj & Hev & Hfail & Hres); [lia|].
    assert (∀ res evs,
              request_attempts get max_retries (seq (S a) (S m)) = (res, evs) →
              failed (get a) = true →
              ∃ j', (j' ≤ S m)%nat
                ∧ (Get a :: Sleep (wait_time a) :: evs)
                  = flat_map (λ attempt, [Get attempt; Sleep (wait_time attempt)])
                      (seq a j') ++ [Get (a + j')%nat]
                ∧ (∀ i, (i < j')%nat → failed (get (a + i)%nat) = true)
                ∧ match res with
                  | inr r => get (a + j')%nat = Answered r
                             ∧ raises_for_status r = false
                  | inl e => j' = S m ∧ failed (get (a + j')%nat) = true
                             ∧ e = error_of (get (a + j')%nat)
                  end) as Hcont.
    { intros res evs Heq Hfa. rewrite Heq in Hev, Hres. simpl in Hev, Hres.
      exists (S j). split; [lia|]. split; [|split].
      - cbn [seq flat_map]. rewrite Hev. simpl.
        by replace (a + S j)%nat with (S (a + j)) by lia.
      - intros [|i] Hi; [by rewrite Nat.add_0_r|].
        replace (a + S i)%nat with (S a + i)%nat by lia. apply Hfail. lia.
      - replace (a + S j)%nat with (S a + j)%nat by lia.
        destruct res as [e|r]; [|done].
        destruct Hres as (-> & ? & ?). done. }
    change (seq a (S (S m))) with (a :: seq (S a) (S m)).
    cbn [request_attempts]. rewrite Hlt.
    destruct (request_attempts get max_retries (seq (S a) (S m)))
      as [res evs] eqn:Heq.
    destruct (get a) as [r|] eqn:Hget.
    + rewrite andb_true_r. destruct (status_code r =? 503) eqn:H503.
      * apply (Hcont res evs eq_refl). rewrite <- Hget.
        rewrite Hget. by apply status_503_failed.
      * destruct (raises_for_status r) eqn:Hr.
        -- by apply (Hcont res evs eq_refl).
        -- exists 0%nat. rewrite Nat.add_0_r. simpl.
           split; [lia|]. split; [done|]. split; [intros i Hi; lia|done].
    + by apply (Hcont res evs eq_refl).
Qed.

Lemma retry_gate_shape (get : nat → http_outcome) (max_retries : nat) :
  (1 ≤ max_retries)%nat →
  ∃ k, (k < max_retries)%nat
    ∧ (_request_with_retry_n get max_retries).2 = retry_trace k
    ∧ (∀ i, (i < k)%nat → failed (get i) = true)
    ∧ match (_request_with_retry_n get max_retries).1 with
      | inr r => get k = Answered r ∧ raises_for_status r = false
      | inl e => k = (max_retries - 1)%nat ∧ failed (get k) = true
                 ∧ e = error_of (get k)
      end.
Proof.
  intros Hn. unfold _request_with_retry_n, retry_trace.
  destruct max_retries as [|m]; [lia|].
  destruct (request_attempts_shape get (S m) m 0%nat) as (j & Hj & Hev & Hf & Hres);
    [lia|].
  exists j. split; [lia|]. split; [exact Hev|]. split; [exact Hf|].
  destruct (request_attempts get (S m) (seq 0 (S m))).1 as [e|r]; [|done].
  destruct Hres as (-> & ? & ?). split; [lia|done].
Qed.

(** X1: for every bound of at least one attempt and every upstream, the
    gate ends at some attempt [k] below the bound: its trace is [k] failed
    attempts, each followed by a sleep of [(attempt + 1) * 2] seconds, and
    then attempt [k] with no sleep after it; a response it returns is the
    answer of attempt [k] and has no 4xx or 5xx status; an error it raises
    is the error of the last attempt the bound allows. *)
Theorem gate_outcome (get : nat → http_outcome) (max_retries : nat) :
  (1 ≤ max_retries)%nat →
  ∃ k, (k < max_retries)%nat
    ∧ (_request_with_retry_n get max_retries).2 = retry_trace k
    ∧ (∀ i, (i < k)%nat → failed (get i) = true)
    ∧ match (_request_with_retry_n get max_retries).1 with
      | inr r => get k = Answered r ∧ raises_for_status r = false
      | inl e => k = (max_retries - 1)%nat ∧ failed (get k) = true
                 ∧ e = error_of (get k)
      end.
Proof.
  intros Hn. unfold _request_with_retry_n, retry_trace.
  destruct max_retries as [|m]; [lia|].
  destruct (request_attempts_shape get (S m) m 0%nat) as (j & Hj & Hev & Hf & Hres);
    [lia|].
  exists j. split; [lia|]. split; [exact Hev|]. split; [exact Hf|].
  destruct (request_attempts get (S m) (seq 0 (S m))).1 as [e|r]; [|done].
  destruct Hres as (-> & ? & ?). split; [lia|done].
Qed.

Lemma gate_outcome_witness :
  ∃ k, (k < 3)%nat
    ∧ (_request_with_retry_n (λ _, TransportFailed) 3).2 = retry_trace k.
Proof.
  destruct (gate_outcome (λ _, TransportFailed) 3) as (k & Hk & Hev & _); [lia|].
  by exists k.
Defined.

Lemma retry_trace_counts k :
  requests (retry_trace k) = S k ∧ slept (retry_trace k) = (k * (k + 1))%nat.
Proof.
  unfold retry_trace, requests, slept. rewrite !sum_list_with_app. simpl.
  enough (∀ a,
            sum_list_with (λ e, match e with Get _ => 1 | Sleep _ => 0 end)
              (flat_map (λ attempt, [Get attempt; Sleep (wait_time attempt)])
                 (seq a k)) = k
            ∧ sum_list_with (λ e, match e with Sleep s => s | Get _ => 0 end)
                (flat_map (λ attempt, [Get attempt; Sleep (wait_time attempt)])
                   (seq a k)) = (k * (2 * a + k + 1))%nat)%nat as Hgen.
  { destruct (Hgen 0%nat) as [-> ->]. split; lia. }
  induction k as [|k IH]; intros a; [done|].
  cbn [seq flat_map app sum_list_with].
  destruct (IH (S a)) as [-> ->]. unfold wait_time. split; lia.
Qed.

(** X2: whatever the upstream answers, the gate makes at most
    [max_retries] requests and sleeps at most [max_retries * (max_retries -
    1)] seconds in all; with the default bound that is at most 3 requests
    and 6 seconds. *)
Theorem gate_cost_bounded (get : nat → http_outcome) (max_retries : nat) :
  (requests (_request_with_retry_n get max_retries).2 ≤ max_retries)%nat
  ∧ (slept (_request_with_retry_n get max_retries).2
     ≤ max_retries * (max_retries - 1))%nat
  ∧ (requests (_request_with_retry get).2 ≤ 3)%nat
  ∧ (slept (_request_with_retry get).2 ≤ 6)%nat.
Proof.
  assert (∀ n, (requests (_request_with_retry_n get n).2 ≤ n)%nat
               ∧ (slept (_request_with_retry_n get n).2 ≤ n * (n - 1))%nat) as Hn.
  { intros [|n]; [split; reflexivity|].
    destruct (retry_gate_shape get (S n)) as (k & Hk & -> & _); [lia|].
    destruct (retry_trace_counts k) as [-> ->]. split; [lia|nia]. }
  split; [apply Hn|]. split; [apply Hn|]. apply (Hn 3%nat).
Qed.

(** X3: the exception "Max retries exceeded" that follows the loop is
    raised exactly when the bound is 0, and then without any request: the
    gate's trace is empty. *)
Theorem max_retries_exceeded_iff (get : nat → http_outcome) (max_retries : nat) :
  ((_request_with_retry_n get max_retries).1 = inl MaxRetriesExceeded
   ↔ max_retries = 0%nat)
  ∧ _request_with_retry_n get 0 = (inl MaxRetriesExceeded, [])
  ∧ requests (_request_with_retry_n get 0).2 = 0%nat.
Proof.
  split; [|done]. split.
  - intros Hres. destruct max_retries as [|n]; [done|]. exfalso.
    destruct (retry_gate_shape get (S n)) as (k & _ & _ & _ & Hk); [lia|].
    rewrite Hres in Hk. destruct Hk as (_ & _ & He).
    by destruct (get k).
  - by intros ->.
Qed.

(** X4: when the first [k] attempts fail and attempt [k], within the
    bound, is answered with a status that is neither 4xx nor 5xx, the gate
    returns that answer, after [k] sleeps and no more requests. *)
Theorem gate_recovers (get : nat → http_outcome) (max_retries k : nat) r :
  (k < max_retries)%nat →
  (∀ i, (i < k)%nat → failed (get i) = true) →
  get k = Answered r → raises_for_status r = false →
  _request_with_retry_n get max_retries = (inr r, retry_trace k).
Proof.
  intros Hk Hfail Hget Hok.
  destruct (retry_gate_shape get max_retries) as (k' & Hk' & Hev & Hf & Hres); [lia|].
  assert (failed (get k) = false) as Hnf by (by rewrite Hget).
  assert (k' = k) as ->.
  { destruct (Nat.lt_trichotomy k' k) as [Hlt|[->|Hgt]]; [|done|].
    - specialize (Hfail k' Hlt).
      destruct (_request_with_retry_n get max_retries).1 as [e|r'].
      + destruct Hres as (? & _ & _). lia.
      + destruct Hres as [Hg Hr]. rewrite Hg in Hfail. simpl in Hfail. congruence.
    - specialize (Hf k Hgt). congruence. }
  destruct (_request_with_retry_n get max_retries) as [res evs]. simpl in *.
  subst evs. f_equal.
  destruct res as [e|r'].
  - destruct Hres as (_ & Hfk & _). congruence.
  - destruct Hres as [Hg _]. rewrite Hget in Hg. by simplify_eq.
Qed.

Lemma gate_recovers_witness :
  _request_with_retry_n
    (λ n, if (n =? 0)%nat then TransportFailed
          else Answered (Response 200 (Some VNull))) 3
  = (inr (Response 200 (Some VNull)), retry_trace 1).
Proof.
  apply (gate_recovers
           (λ n, if (n =? 0)%nat then TransportFailed
                 else Answered (Response 200 (Some VNull))) 3 1).
  - lia.
  - intros i Hi. assert (i = 0%nat) as -> by lia. reflexivity.
  - reflexivity.
  - reflexivity.
Defined.

End retry_gate_general.

(** ** The catalogue reader, for every upstream *)

Section catalog_reader_general.
Import WooCommerceClient Trace.
Context {E : Type} (fetch : nat → E + value).

Lemma iter_len v items :
  Py.iter v = Some items → Py.len v = Some (length items).
Proof.
  destruct v as [| | | |s|l|d]; simpl; intros Hit; simplify_eq; try done.
  - f_equal. induction s as [|c s IH]; simpl; [done|]. by rewrite IH.
  - by rewrite !length_fmap, length_map_to_list.
Qed.

Lemma iter_falsy v : Py.truthy v = false → default [] (Py.iter v) = [].
Proof.
  destruct v as [| | | |s|l|d]; simpl; try done.
  - destruct s; [done|]. simpl. discriminate.
  - case_bool_decide; [by subst|done].
  - case_bool_decide; [subst; by rewrite map_to_list_empty|done].
Qed.

Lemma last_page_elements page :
  last_page fetch page →
  ∀ fuel acc,
    get_all_products_from fetch (S fuel) page acc
    = (Listed (acc ++ page_elements fetch page), [page]).
Proof.
  intros (v & Hv & Hlast) fuel acc. unfold page_elements. simpl. rewrite Hv.
  destruct (Py.truthy v) eqn:Ht; simpl.
  - destruct Hlast as [?|(items & Hit & Hlen)]; [done|].
    rewrite Hit, (iter_len _ _ Hit). simpl.
    apply Nat.ltb_lt in Hlen. by rewrite Hlen.
  - by rewrite (iter_falsy _ Ht), app_nil_r.
Qed.

Lemma raising_page_raises page :
  raising_page fetch page →
  ∀ fuel acc,
    get_all_products_from fetch (S fuel) page acc = (ListingRaised, [page]).
Proof.
  intros [[e He]|(v & Hv & Ht & Hit)] fuel acc; simpl.
  - by rewrite He.
  - by rewrite Hv, Ht, Hit.
Qed.

Lemma full_page_goes_on page :
  full_page fetch page →
  ∀ fuel acc,
    get_all_products_from fetch (S fuel) page acc
    = ((get_all_products_from fetch fuel (page + 1)
          (acc ++ page_elements fetch page)).1,
       page :: (get_all_products_from fetch fuel (page + 1)
                  (acc ++ page_elements fetch page)).2).
Proof.
  intros (v & items & Hv & Ht & Hit & Hlen) fuel acc.
  unfold page_elements. simpl. rewrite Hv, Ht, Hit, (iter_len _ _ Hit). simpl.
  apply Nat.ltb_ge in Hlen. by rewrite Hlen.
Qed.

(** Every page is full, last or raising. *)
Lemma page_cases page :
  full_page fetch page ∨ last_page fetch page ∨ raising_page fetch page.
Proof.
  unfold full_page, last_page, raising_page.
  destruct (fetch page) as [e|v] eqn:Hv; [right; right; left; by exists e|].
  destruct (Py.truthy v) eqn:Ht; [|right; left; exists v; auto].
  destruct (Py.iter v) as [items|] eqn:Hit;
    [|right; right; right; by exists v].
  destruct (decide (100 ≤ length items)%nat).
  - left. by exists v, items.
  - right; left. exists v. split; [done|]. right. exists items. split; [done|lia].
Qed.

(** The reader over [k] full pages. *)
Lemma reader_full_pages k : ∀ fuel page acc,
  (∀ i, (i < k)%nat → full_page fetch (page + i)) →
  get_all_products_from fetch (k + fuel) page acc
  = ((get_all_products_from fetch fuel (page + k)
        (acc ++ flat_map (page_elements fetch) (seq page k))).1,
     seq page k
     ++ (get_all_products_from fetch fuel (page + k)
           (acc ++ flat_map (page_elements fetch) (seq page k))).2).
Proof.
  induction k as [|k IH]; intros fuel page acc Hfull.
  - rewrite Nat.add_0_r, app_nil_r. simpl. by destruct get_all_products_from.
  - change (S k + fuel)%nat with (S (k + fuel)).
    rewrite full_page_goes_on
      by (specialize (Hfull 0%nat); rewrite Nat.add_0_r in Hfull; apply Hfull; lia).
    rewrite IH.
    + cbn [seq flat_map fst snd app]. rewrite <- app_assoc.
      replace (page + 1 + k)%nat with (page + S k)%nat by lia.
      by replace (page + 1)%nat with (S page) by lia.
    + intros i Hi. replace (page + 1 + i)%nat with (page + S i)%nat by lia.
      apply Hfull. lia.
Qed.

(** The first page from [page] on that is not full, if there is one among
    the next [fuel] pages. *)
Lemma first_page_not_full fuel : ∀ page,
  (∀ i, (i < fuel)%nat → full_page fetch (page + i))
  ∨ ∃ n, (n < fuel)%nat
      ∧ (∀ i, (i < n)%nat → full_page fetch (page + i))
      ∧ (last_page fetch (page + n) ∨ raising_page fetch (page + n)).
Proof.
  induction fuel as [|fuel IH]; intros page; [left; intros; lia|].
  destruct (page_cases page) as [Hfull|Hstop].
  - destruct (IH (S page)) as [Hall|(n & Hn & Hbefore & Hstop)].
    + left. intros [|i] Hi; [by rewrite Nat.add_0_r|].
      replace (page + S i)%nat with (S page + i)%nat by lia. apply Hall. lia.
    + right. exists (S n). split; [lia|]. split.
      * intros [|i] Hi; [by rewrite Nat.add_0_r|].
        replace (page + S i)%nat with (S page + i)%nat by lia. apply Hbefore. lia.
      * by replace (page + S n)%nat with (S page + n)%nat by lia.
  - right. exists 0%nat. rewrite Nat.add_0_r. split; [lia|]. split; [|done].
    intros; lia.
Qed.

(** What the reader does, for every upstream and every bound. *)
Lemma reader_outcome fuel page acc :
  match (get_all_products_from fetch fuel page acc).1 with
  | Listed all_products =>
      ∃ n, (n < fuel)%nat
        ∧ (get_all_products_from fetch fuel page acc).2 = seq page (S n)
        ∧ all_products = acc ++ flat_map (page_elements fetch) (seq page (S n))
        ∧ (∀ i, (i < n)%nat → full_page fetch (page + i))
        ∧ last_page fetch (page + n)
  | ListingRaised =>
      ∃ n, (n < fuel)%nat
        ∧ (get_all_products_from fetch fuel page acc).2 = seq page (S n)
        ∧ (∀ i, (i < n)%nat → full_page fetch (page + i))
        ∧ raising_page fetch (page + n)
  | ListingRunning =>
      (get_all_products_from fetch fuel page acc).2 = seq page fuel
      ∧ ∀ i, (i < fuel)%nat → full_page fetch (page + i)
  end.
Proof.
  destruct (first_page_not_full fuel page) as [Hall|(n & Hn & Hbefore & Hstop)].
  - pose proof (reader_full_pages fuel 0 page acc Hall) as Heq.
    rewrite Nat.add_0_r in Heq. rewrite Heq. simpl.
    by rewrite app_nil_r.
  - assert (fuel = n + S (fuel - S n))%nat as Hfuel by lia.
    pose proof (reader_full_pages n (S (fuel - S n)) page acc Hbefore) as Heq.
    rewrite <- Hfuel in Heq. rewrite Heq. clear Heq.
    destruct Hstop as [Hlast|Hraise].
    + rewrite (last_page_elements _ Hlast). cbn [fst snd].
      exists n. split; [lia|].
      replace (S n) with (n + 1)%nat by lia.
      rewrite seq_app, flat_map_app. cbn [seq flat_map].
      by rewrite !app_nil_r, <- app_assoc.
    + rewrite (raising_page_raises _ Hraise). cbn [fst snd].
      exists n. split; [lia|].
      replace (S n) with (n + 1)%nat by lia. by rewrite seq_app.
Qed.

(** X5: a list the reader returns, whatever the upstream, is made of the
    elements of pages 1, 2, ... up to the last one requested, in that order
    and with nothing left out or added; every page before the last was
    truthy with at least 100 elements, and the last one was falsy or had
    fewer than 100. *)
Theorem listed_is_pages_in_order (fuel : nat) all_products pages :
  get_all_products_with fetch fuel = (Listed all_products, pages) →
  ∃ n,
    pages = seq 1 (S n)
    ∧ all_products = flat_map (page_elements fetch) pages
    ∧ (∀ p, (1 ≤ p ≤ n)%nat → full_page fetch p)
    ∧ last_page fetch (S n).
Proof.
  unfold get_all_products_with. intros Hres.
  pose proof (reader_outcome fuel 1 []) as Hout. rewrite Hres in Hout.
  destruct Hout as (n & _ & Hpages & Hall & Hfull & Hlast). simpl in Hpages.
  exists n. subst pages. split; [done|]. split; [done|]. split; [|done].
  intros p Hp. replace p with (1 + (p - 1))%nat by lia. apply Hfull. lia.
Qed.

Lemma reader_raises_after_full_pages (k fuel : nat) :
  (k < fuel)%nat →
  (∀ p, (1 ≤ p ≤ k)%nat → full_page fetch p) →
  raising_page fetch (S k) →
  get_all_products_with fetch fuel = (ListingRaised, seq 1 (S k)).
Proof.
  intros Hfuel Hfull Hraise. unfold get_all_products_with.
  assert (fuel = k + S (fuel - S k))%nat as Hf by lia.
  pose proof (reader_full_pages k (S (fuel - S k)) 1 []) as Heq.
  rewrite <- Hf in Heq. rewrite Heq by (intros i Hi; apply Hfull; lia).
  rewrite (raising_page_raises _ Hraise). cbn [fst snd].
  replace (S k) with (k + 1)%nat at 2 by lia. by rewrite seq_app.
Qed.

(** X6: when an exception escapes at page [k + 1] (the request fails after
    its retries, or the body is truthy and not iterable) after [k] full
    pages, the reader raises: the elements of the [k] pages read so far are
    not returned, and no page after [k + 1] is requested. *)
Theorem listing_fails_as_a_whole (k fuel : nat) :
  (k < fuel)%nat →
  (∀ p, (1 ≤ p ≤ k)%nat → full_page fetch p) →
  raising_page fetch (S k) →
  get_all_products_with fetch fuel = (ListingRaised, seq 1 (S k)).
Proof.
  intros Hfuel Hfull Hraise. unfold get_all_products_with.
  assert (fuel = k + S (fuel - S k))%nat as Hf by lia.
  pose proof (reader_full_pages k (S (fuel - S k)) 1 []) as Heq.
  rewrite <- Hf in Heq. rewrite Heq by (intros i Hi; apply Hfull; lia).
  rewrite (raising_page_raises _ Hraise). cbn [fst snd].
  replace (S k) with (k + 1)%nat at 2 by lia. by rewrite seq_app.
Qed.

(** X7: on an upstream whose every page is truthy with at least 100
    elements the reader never returns: whatever the number of iterations
    it is given, it is still running after them, having requested one page
    per iteration. *)
Theorem listing_runs_on_full_pages (fuel : nat) :
  (∀ p, (1 ≤ p)%nat → full_page fetch p) →
  get_all_products_with fetch fuel = (ListingRunning, seq 1 fuel).
Proof.
  intros Hfull. unfold get_all_products_with.
  pose proof (reader_full_pages fuel 0 1 []) as Heq.
  rewrite Nat.add_0_r in Heq. rewrite Heq by (intros i Hi; apply Hfull; lia).
  simpl. by rewrite app_nil_r.
Qed.

End catalog_reader_general.

Lemma listed_is_pages_in_order_witness :
  ∃ n,
    [1; 2]%nat = seq 1 (S n)
    ∧ replicate 100 VNull ++ [VInt 1; VInt 2]
      = flat_map
          (Trace.page_elements
             (λ page, if (page =? 1)%nat then inr (VList (replicate 100 VNull))
                      else inr (VList [VInt 1; VInt 2]) : unit + value))
          [1; 2]%nat.
Proof.
  destruct (listed_is_pages_in_order
              (λ page, if (page =? 1)%nat then inr (VList (replicate 100 VNull))
                       else inr (VList [VInt 1; VInt 2]) : unit + value)
              5 (replicate 100 VNull ++ [VInt 1; VInt 2]) [1; 2]%nat)
    as (n & Hp & Ha & _).
  - vm_compute. reflexivity.
  - by exists n.
Defined.

Lemma listing_fails_as_a_whole_witness :
  WooCommerceClient.get_all_products_with
    (λ page, if (page =? 1)%nat then inr (VList (replicate 100 VNull))
             else inl tt : unit + value) 5
  = (WooCommerceClient.ListingRaised, [1; 2]%nat).
Proof.
  apply (listing_fails_as_a_whole
           (λ page, if (page =? 1)%nat then inr (VList (replicate 100 VNull))
                    else inl tt : unit + value) 1 5).
  - lia.
  - intros p Hp. assert (p = 1%nat) as -> by lia.
    exists (VList (replicate 100 VNull)), (replicate 100 VNull).
    split; [reflexivity|]. split; [reflexivity|]. split; [reflexivity|].
    rewrite length_replicate. lia.
  - left. by exists tt.
Defined.

Lemma listing_runs_on_full_pages_witness :
  WooCommerceClient.get_all_products_with
    (λ _, inr (VList (replicate 100 VNull)) : unit + value) 4
  = (WooCommerceClient.ListingRunning, [1; 2; 3; 4]%nat).
Proof.
  apply (listing_runs_on_full_pages
           (λ _, inr (VList (replicate 100 VNull)) : unit + value) 4).
  intros p _.
  exists (VList (replicate 100 VNull)), (replicate 100 VNull).
  split; [reflexivity|]. split; [reflexivity|]. split; [reflexivity|].
  rewrite length_replicate. lia.
Defined.

(** ** The item enricher, further *)

(** Two maps built by insertions at literal keys, compared key by key. *)
Ltac insert_lookup :=
  repeat match goal with
    | |- context [<[?i:=_]> _ !! ?i] => rewrite lookup_insert_eq
    | |- context [<[?i:=_]> _ !! ?j] => rewrite (lookup_insert_ne _ i j) by done
    | |- context [<[?i:=_]> _ !! ?j] => destruct (decide (i = j)); [subst|]
    end;
  try done.

Ltac same_insertions := apply map_eq; intros ?; insert_lookup.

Section enricher_paths.
Import WooCommerceClient Enricher.
Context `{PyFloat}.
Context (site : string).

(** The upstream enters [finish_update_data] through the variations
    only. *)
Lemma finish_update_data_split up wp woo_id ud :
  finish_update_data up site wp woo_id ud
  = with_variations site (site_variations up wp woo_id)
      <$> (if String.eqb site "com" then shared_update_data wp ud
           else Some ud).
Proof.
  unfold finish_update_data.
  by destruct (if String.eqb site "com" then _ else _).
Qed.

Lemma with_variations_other vs ud f :
  f ≠ "variations" → f ≠ "variation_counts" →
  with_variations site vs ud !! f = ud !! f.
Proof. intros. unfold with_variations. by rewrite !lookup_insert_ne. Qed.

(** [woo_ids] passes through the statements after the literal. *)
Lemma shared_update_data_woo_ids wp x ud :
  shared_update_data wp (<["woo_ids" := x]> ud)
  = insert "woo_ids" x <$> shared_update_data wp ud.
Proof.
  unfold shared_update_data.
  destruct (pluck wp "images" "src") as [imgs|]; [|done]. simpl.
  destruct (pluck wp "categories" "name") as [cats|]; [|done]. simpl.
  destruct (Py.iter _) as [attrs|]; [|done]. simpl.
  destruct (extract_attributes ∅ attrs) as [attributes|]; [|done]. simpl.
  f_equal. destruct (bool_decide (attributes = ∅)); simpl;
    same_insertions.
Qed.

Lemma finish_update_data_woo_ids up wp woo_id x ud :
  finish_update_data up site wp woo_id (<["woo_ids" := x]> ud)
  = insert "woo_ids" x <$> finish_update_data up site wp woo_id ud.
Proof.
  rewrite !finish_update_data_split.
  destruct (String.eqb site "com").
  - rewrite shared_update_data_woo_ids.
    destruct (shared_update_data wp ud) as [ud'|]; [|done]. simpl.
    f_equal. unfold with_variations. same_insertions.
  - simpl. f_equal. unfold with_variations. same_insertions.
Qed.

Lemma site_update_data_no_woo_ids now wp sku base :
  site_update_data site now wp sku = Some base → base !! "woo_ids" = None.
Proof.
  unfold site_update_data. intros Hb.
  destruct (price_of wp "sale_price") as [p|]; [|done]. simpl in Hb.
  destruct (price_of wp "regular_price") as [rp|]; [|done]. simpl in Hb.
  by simplify_eq.
Qed.

(** X8: the two enrichers build the same update.  For a product that the
    storefront serves under [woo_id], with that id and a truthy SKU,
    [process_woo_product] on the product as listed and
    [fetch_product_from_woo] on its id both succeed or both fail, under the
    same SKU; when they succeed their updates are the same but for
    [woo_ids], which only [process_woo_product] adds. *)
Theorem both_enrichers_agree up now (wp : dict) sku woo_id :
  site ∈ SITES →
  get_product up woo_id = inr (VDict wp) →
  Py.get_or wp "sku" (VStr "") = sku → Py.truthy sku = true →
  Py.get wp "id" = woo_id →
  match process_woo_product up site false now (VDict wp) with
  | TaskOk sku' data =>
      sku' = sku
      ∧ data !! "woo_ids" = Some (per_site site woo_id)
      ∧ fetch_product_from_woo up now sku woo_id site
        = TaskOk sku (delete "woo_ids" data)
  | TaskFailed sku' =>
      sku' = sku ∧ fetch_product_from_woo up now sku woo_id site = TaskFailed sku
  | TaskNone | TaskRaised => False
  end.
Proof.
  intros Hsite Hget Hsku Ht Hid.
  unfold process_woo_product, fetch_product_from_woo.
  rewrite Hsku, Hid, Ht, Hget. rewrite bool_decide_eq_true_2 by done. simpl.
  destruct (site_update_data site now wp sku) as [base|] eqn:Hbase;
    simpl; [|done].
  rewrite finish_update_data_woo_ids.
  destruct (finish_update_data up site wp woo_id base) as [data|] eqn:Hfin;
    simpl; [|done].
  split; [done|]. split; [by rewrite lookup_insert_eq|].
  rewrite delete_insert_id; [done|].
  rewrite (finish_update_data_other up site _ _ _ _ "woo_ids" Hfin)
    by (solve_key_notin || done).
  by eapply site_update_data_no_woo_ids.
Qed.

(** X9: the update of a product does not depend on what the storefront
    answers to the request for its variations, the two variation maps
    apart: with any two upstreams the task ends the same way, under the
    same SKU, and the two updates agree on every other field.  In
    particular a failing variations request never fails the product. *)
Theorem enrichment_survives_variations up up' cancelled now woo_product :
  match process_woo_product up site cancelled now woo_product,
        process_woo_product up' site cancelled now woo_product with
  | TaskOk sku data, TaskOk sku' data' =>
      sku = sku'
      ∧ ∀ f, f ≠ "variations" → f ≠ "variation_counts" →
             data !! f = data' !! f
  | TaskFailed sku, TaskFailed sku' => sku = sku'
  | TaskNone, TaskNone => True
  | TaskRaised, TaskRaised => True
  | _, _ => False
  end.
Proof.
  unfold process_woo_product.
  destruct cancelled; [done|].
  destruct woo_product as [| | | | |?|wp]; try done.
  destruct (Py.truthy _); [|done]. simpl.
  destruct (site_update_data site now wp _) as [base|]; simpl; [|done].
  rewrite !finish_update_data_split.
  destruct (if String.eqb site "com" then _ else _) as [ud|]; simpl; [|done].
  split; [done|]. intros f Hv Hc. by rewrite !with_variations_other.
Qed.

(** *** Variations *)

Lemma variation_record_id v :
  variation_record v = None ↔ Py.getitem v "id" = None.
Proof.
  unfold variation_record.
  destruct v as [| | | | |?|d]; simpl; try done.
  by destruct (d !! "id").
Qed.

(** X10: the variations of a product are taken all or not at all.  For a
    variable product whose variations request answers with a list: when
    every element is an object with an [id], the update lists one record
    per element, in order; when one element is not, the update lists no
    variation at all. *)
Theorem variations_all_or_nothing up (wp : dict) woo_id vs :
  Py.eq_str (Py.get wp "type") "variable" = true →
  get_product_variations up woo_id = inr (VList vs) →
  ((∀ v, v ∈ vs → is_Some (Py.getitem v "id")) →
   mapM variation_record vs = Some (site_variations up wp woo_id)
   ∧ length (site_variations up wp woo_id) = length vs)
  ∧ ((∃ v, v ∈ vs ∧ Py.getitem v "id" = None) →
     site_variations up wp woo_id = []).
Proof.
  intros Htype Hget. unfold site_variations. rewrite Htype, Hget. simpl.
  split.
  - intros Hall.
    destruct (mapM variation_record vs) as [records|] eqn:Hm.
    + simpl. split; [done|]. symmetry. by eapply length_mapM.
    + apply mapM_None in Hm. apply Exists_exists in Hm as (v & Hv & Hnone).
      apply variation_record_id in Hnone.
      destruct (Hall v Hv) as [x Hx]. congruence.
  - intros (v & Hv & Hnone).
    assert (mapM variation_record vs = None) as ->; [|done].
    apply mapM_None, Exists_exists. exists v. split; [done|].
    by apply variation_record_id.
Qed.

(** *** Attributes *)

Lemma insert_key_cases (m : dict) i x k :
  is_Some (<[i:=x]> m !! k) → is_Some (m !! k) ∨ k = i.
Proof.
  destruct (decide (i = k)) as [->|?]; [by right|].
  rewrite lookup_insert_ne by done. by left.
Qed.

Lemma attribute_step_keys attributes attr attributes' k :
  attribute_step attributes attr = Some attributes' →
  is_Some (attributes' !! k) →
  is_Some (attributes !! k)
  ∨ k ∈ ["gender"; "season"; "type"; "version"; "sleeve"; "team"; "events"].
Proof.
  unfold attribute_step. intros Hstep Hk.
  destruct (Py.attr_get_or attr "name" _) as [name|]; [|done]. simpl in Hstep.
  destruct (Py.or name _) as [| | | |s| |]; try done. simpl in Hstep.
  destruct (Py.attr_get attr "options") as [options|]; [|done]. simpl in Hstep.
  destruct (if Py.truthy options then _ else _) as [v|]; [|done].
  simpl in Hstep. simplify_eq.
  repeat (case_match;
          [apply insert_key_cases in Hk as [?| ->];
           [by left|right; set_solver]|]).
  by left.
Qed.

Lemma extract_attributes_keys attrs : ∀ attributes attributes' k,
  extract_attributes attributes attrs = Some attributes' →
  is_Some (attributes' !! k) →
  is_Some (attributes !! k)
  ∨ k ∈ ["gender"; "season"; "type"; "version"; "sleeve"; "team"; "events"].
Proof.
  induction attrs as [|attr attrs IH]; intros attributes attributes' k Hex Hk.
  - left. by simplify_eq/=.
  - simpl in Hex.
    destruct (attribute_step attributes attr) as [a1|] eqn:Hstep; [|done].
    simpl in Hex.
    destruct (IH _ _ _ Hex Hk) as [Hk1|?]; [|by right].
    by eapply attribute_step_keys.
Qed.

(** X11: the [attributes] of an update, when it has any, is a non-empty
    map whose keys are among the seven names the enricher recognises;
    attribute names of the storefront outside that set are dropped, and
    only the primary site's update has the field. *)
Theorem attributes_recognised_only up cancelled now woo_product sku data v :
  process_woo_product up site cancelled now woo_product = TaskOk sku data →
  data !! "attributes" = Some v →
  site = "com"
  ∧ ∃ attributes,
      v = VDict attributes ∧ attributes ≠ ∅
      ∧ ∀ k, is_Some (attributes !! k) →
             k ∈ ["gender"; "season"; "type"; "version"; "sleeve"; "team";
                  "events"].
Proof.
  intros Hok Hv.
  apply process_woo_product_ok in Hok
    as (wp & base & -> & Hsku & Ht & Hbase & Hfin).
  rewrite finish_update_data_split in Hfin.
  destruct (site_update_data_lookup _ _ _ _ _ Hbase)
    as (_ & _ & _ & _ & _ & Hno & _).
  assert (base !! "attributes" = None) as Hbno by (apply Hno; set_solver).
  destruct (String.eqb site "com") eqn:Hsite.
  - split; [by apply String.eqb_eq|]. clear Hsite.
    destruct (shared_update_data wp _) as [ud|] eqn:Hs; [|done].
    simpl in Hfin. simplify_eq.
    rewrite with_variations_other in Hv by done.
    unfold shared_update_data in Hs.
    destruct (pluck wp "images" "src") as [imgs|]; [|done]. simpl in Hs.
    destruct (pluck wp "categories" "name") as [cats|]; [|done]. simpl in Hs.
    destruct (Py.iter _) as [attrs|]; [|done]. simpl in Hs.
    destruct (extract_attributes ∅ attrs) as [attributes|] eqn:Hex; [|done].
    simpl in Hs.
    simplify_eq. case_bool_decide as Hempty; simpl in Hv.
    + rewrite !lookup_insert_ne in Hv by done. congruence.
    + rewrite lookup_insert_eq in Hv. simplify_eq.
      exists attributes. split; [done|]. split; [done|].
      intros k Hk.
      destruct (extract_attributes_keys _ _ _ _ Hex Hk) as [Hk0|?]; [|done].
      rewrite lookup_empty in Hk0. by destruct Hk0.
  - simpl in Hfin. simplify_eq.
    rewrite with_variations_other in Hv by done.
    rewrite lookup_insert_ne in Hv by done. congruence.
Qed.

End enricher_paths.

Lemma both_enrichers_agree_witness :
  match Enricher.process_woo_product (H:=Sample.float_of_number)
          Sample.one_product_shop "uk" false "2024-01-01T00:00:00"
          (VDict Sample.sold_out_jersey) with
  | Enricher.TaskOk sku' data =>
      sku' = VStr "A1"
      ∧ data !! "woo_ids" = Some (Enricher.per_site "uk" (VInt 7))
      ∧ Enricher.fetch_product_from_woo (H:=Sample.float_of_number)
          Sample.one_product_shop "2024-01-01T00:00:00" (VStr "A1") (VInt 7) "uk"
        = Enricher.TaskOk (VStr "A1") (delete "woo_ids" data)
  | Enricher.TaskFailed sku' =>
      sku' = VStr "A1"
      ∧ Enricher.fetch_product_from_woo (H:=Sample.float_of_number)
          Sample.one_product_shop "2024-01-01T00:00:00" (VStr "A1") (VInt 7) "uk"
        = Enricher.TaskFailed (VStr "A1")
  | _ => False
  end.
Proof.
  apply (both_enrichers_agree (H:=Sample.float_of_number) "uk"
           Sample.one_product_shop "2024-01-01T00:00:00" Sample.sold_out_jersey
           (VStr "A1") (VInt 7)).
  - unfold SITES. set_solver.
  - vm_compute. reflexivity.
  - vm_compute. reflexivity.
  - reflexivity.
  - vm_compute. reflexivity.
Defined.

Lemma variations_all_or_nothing_witness :
  length (Enricher.site_variations Shop.sizes_shop Shop.sized_jersey (VInt 9))
  = 2%nat.
Proof.
  destruct (variations_all_or_nothing Shop.sizes_shop Shop.sized_jersey (VInt 9)
              Shop.sizes) as [Hall _].
  - vm_compute. reflexivity.
  - vm_compute. reflexivity.
  - destruct Hall as [_ Hlen]; [|exact Hlen].
    intros v Hv. unfold Shop.sizes in Hv.
    apply elem_of_cons in Hv as [->|Hv]; [by eexists|].
    apply elem_of_cons in Hv as [->|Hv]; [by eexists|].
    by apply elem_of_nil in Hv.
Defined.

Lemma attributes_recognised_only_witness :
  "com" = "com"
  ∧ ∃ attributes,
      VDict {[ "team" := VStr "Arsenal" ]} = VDict attributes ∧ attributes ≠ ∅
      ∧ ∀ k, is_Some (attributes !! k) →
             k ∈ ["gender"; "season"; "type"; "version"; "sleeve"; "team";
                  "events"].
Proof.
  apply (attributes_recognised_only (H:=Sample.float_of_number) "com"
           Sample.one_product_shop false "2024-01-01T00:00:00"
           (VDict Shop.team_jersey) (VStr "B2") Shop.team_jersey_update).
  - vm_compute. reflexivity.
  - vm_compute. reflexivity.
Defined.

(** ** The batch writer, further *)

Section batch_effects.
Import Datastore Batch.

Lemma filter_keyed_by_none sku (updates : list dict) :
  (∀ u, u ∈ updates → keyed_by sku u = false) →
  filter (λ u, keyed_by sku u = true) updates = [].
Proof.
  induction updates as [|u updates IH]; intros Hnone; [done|].
  rewrite filter_cons, decide_False.
  - apply IH. intros u' Hu'. apply Hnone. by right.
  - rewrite (Hnone u) by left. done.
Qed.

(** The columns the merged record does not have stay as they are. *)
Lemma batch_update_products_unmerged (db : table) updates site db' sku field :
  batch_update_products db updates site = Some db' →
  field ∉ SHARED_FIELDS → field ∉ PER_SITE_FIELDS →
  field ≠ "sku" → field ≠ "last_synced_at" →
  column db' sku field = column db sku field.
Proof.
  intros Hb Hs Hp Hsku Hts. unfold column.
  apply (batch_update_products_row_inv
           (λ stored, default ∅ stored !! field = default ∅ (db !! sku) !! field)
           _ _ _ _ sku Hb); [done|].
  intros update merged stored _ _ Hm <-.
  apply overwrite_lookup_None.
  destruct (merge_record_lookup _ _ _ _ Hm) as (_ & _ & _ & _ & Hnone).
  by apply Hnone.
Qed.

Lemma batch_update_products_other_rows (db : table) updates site db' sku :
  batch_update_products db updates site = Some db' →
  (∀ u, u ∈ updates → u !! "sku" ≠ Some (VStr sku)) →
  db' !! sku = db !! sku.
Proof.
  intros Hb Hnone.
  destruct (batch_update_products_lookup _ _ _ _ sku Hb) as (rows & Hrows & ->).
  rewrite filter_keyed_by_none in Hrows.
  - by apply Forall2_nil_inv_l in Hrows as ->.
  - intros u Hu. apply not_true_iff_false. intros Hk.
    apply keyed_by_spec in Hk. by apply (Hnone u).
Qed.

(** X12: a batch leaves alone every row whose SKU none of its updates
    carries: such a row is neither created, nor changed, nor removed. *)
Theorem batch_leaves_other_rows (db : table) updates site db' sku :
  batch_update_products db updates site = Some db' →
  (∀ u, u ∈ updates → u !! "sku" ≠ Some (VStr sku)) →
  db' !! sku = db !! sku.
Proof.
  intros Hb Hnone.
  destruct (batch_update_products_lookup _ _ _ _ sku Hb) as (rows & Hrows & ->).
  rewrite filter_keyed_by_none in Hrows.
  - by apply Forall2_nil_inv_l in Hrows as ->.
  - intros u Hu. apply not_true_iff_false. intros Hk.
    apply keyed_by_spec in Hk. by apply (Hnone u).
Qed.

(** The row under a key after a batch with exactly one update for that
    key: the record merged from that update, laid over the row the batch
    found. *)
Lemma batch_update_products_once (db : table) before u after site db' sku :
  batch_update_products db (before ++ u :: after) site = Some db' →
  u !! "sku" = Some (VStr sku) →
  (∀ u', u' ∈ before ++ after → u' !! "sku" ≠ Some (VStr sku)) →
  ∃ merged,
    merge_record (default ∅ (db !! sku)) (VStr sku) u = Some merged
    ∧ db' !! sku = Some (merged ∪ default ∅ (db !! sku)).
Proof.
  intros Hb Hk Hother.
  assert (∀ l, (∀ u', u' ∈ l → u' ∈ before ++ after) →
               filter (λ u, keyed_by sku u = true) l = []) as Hnone.
  { intros l Hl. apply filter_keyed_by_none. intros u' Hu'.
    apply not_true_iff_false. intros Hk'. apply keyed_by_spec in Hk'.
    apply (Hother u'); [by apply Hl|done]. }
  destruct (batch_update_products_lookup _ _ _ _ sku Hb) as (rows & Hrows & ->).
  rewrite filter_app, filter_cons, decide_True in Hrows
    by (by apply keyed_by_spec).
  rewrite (Hnone before), (Hnone after) in Hrows
    by (intros u' Hu'; apply elem_of_app; auto).
  apply Forall2_cons_inv_l in Hrows as (merged & rows' & Hm & Hnil & ->).
  apply Forall2_nil_inv_l in Hnil as ->.
  by exists merged.
Qed.

Lemma batch_update_products_written (db : table) before u after site db' sku :
  batch_update_products db (before ++ u :: after) site = Some db' →
  u !! "sku" = Some (VStr sku) →
  (∀ u', u' ∈ before ++ after → u' !! "sku" ≠ Some (VStr sku)) →
  (∀ field new key x,
     field ∈ PER_SITE_FIELDS → u !! field = Some (VDict new) →
     new !! key = Some x → site_entry db' sku field key = Some x)
  ∧ column db' sku "last_synced_at" = Some (Py.get u "last_synced_at")
  ∧ (∀ field v,
       field ∈ SHARED_FIELDS → u !! field = Some v →
       column db' sku field = Some v).
Proof.
  intros Hb Hk Hother.
  destruct (batch_update_products_once _ _ _ _ _ _ _ Hb Hk Hother)
    as (merged & Hm & Hrow).
  destruct (merge_record_lookup _ _ _ _ Hm) as (_ & Hts & Hper & Hshared & _).
  unfold site_entry, column. rewrite Hrow. simpl. split_and!.
  - intros field new key x Hf Hu Hx.
    destruct (Hper field Hf) as (new' & Hnew & Hmf).
    rewrite Hu in Hnew. simpl in Hnew. simplify_eq.
    rewrite (lookup_union_Some_l _ _ _ _ Hmf). simpl.
    by apply lookup_union_Some_l.
  - by apply lookup_union_Some_l.
  - intros field v Hf Hu. apply lookup_union_Some_l.
    by rewrite (Hshared field Hf).
Qed.

(** X13: a batch write takes effect.  For an update whose SKU no other
    update of the batch carries, the row under that SKU has after the
    batch, in every per-site column, each entry the update carries; the
    update's [last_synced_at]; and each shared field the update carries. *)
Theorem batch_write_takes_effect (db : table) before u after site db' sku :
  batch_update_products db (before ++ u :: after) site = Some db' →
  u !! "sku" = Some (VStr sku) →
  (∀ u', u' ∈ before ++ after → u' !! "sku" ≠ Some (VStr sku)) →
  (∀ field new key x,
     field ∈ PER_SITE_FIELDS → u !! field = Some (VDict new) →
     new !! key = Some x → site_entry db' sku field key = Some x)
  ∧ column db' sku "last_synced_at" = Some (Py.get u "last_synced_at")
  ∧ (∀ field v,
       field ∈ SHARED_FIELDS → u !! field = Some v →
       column db' sku field = Some v).
Proof.
  intros Hb Hk Hother.
  destruct (batch_update_products_once _ _ _ _ _ _ _ Hb Hk Hother)
    as (merged & Hm & Hrow).
  destruct (merge_record_lookup _ _ _ _ Hm) as (_ & Hts & Hper & Hshared & _).
  unfold site_entry, column. rewrite Hrow. simpl. split_and!.
  - intros field new key x Hf Hu Hx.
    destruct (Hper field Hf) as (new' & Hnew & Hmf).
    rewrite Hu in Hnew. simpl in Hnew. simplify_eq.
    rewrite (lookup_union_Some_l _ _ _ _ Hmf). simpl.
    by apply lookup_union_Some_l.
  - by apply lookup_union_Some_l.
  - intros field v Hf Hu. apply lookup_union_Some_l.
    by rewrite (Hshared field Hf).
Qed.

(** X14: a batch fails as a whole.  When one of its updates has no [sku],
    has a list or an object for SKU, or has something else than an object
    in a per-site field, an exception escapes [batch_update_products]
    before the upsert: nothing of the batch is written. *)
Theorem batch_fails_as_a_whole (db : table) updates u site :
  u ∈ updates →
  u !! "sku" = None
  ∨ (∃ l, u !! "sku" = Some (VList l))
  ∨ (∃ d, u !! "sku" = Some (VDict d))
  ∨ (∃ field, field ∈ PER_SITE_FIELDS ∧ mapping (u !! field) = None) →
  batch_update_products db updates site = None.
Proof.
  intros Hu Hbad. unfold batch_update_products.
  rewrite bool_decide_eq_false_2 by (intros ->; by apply elem_of_nil in Hu).
  destruct (mapM _ updates) as [skus|] eqn:Hskus; [|done]. simpl.
  enough (mapM (merge_update (select_in SELECTED (text_keys skus) db)) updates
          = None) as -> by done.
  apply mapM_None, Exists_exists. exists u. split; [done|].
  unfold merge_update.
  destruct Hbad as [->|[[l ->]|[[d ->]|(field & Hf & Hmap)]]]; try done.
  destruct (u !! "sku") as [k|]; [|done]. simpl.
  destruct (existing_for _ k) as [existing|]; [|done]. simpl.
  destruct (merge_record existing k u) as [merged|] eqn:Hm; [|done].
  destruct (merge_record_lookup _ _ _ _ Hm) as (_ & _ & Hper & _).
  destruct (Hper field Hf) as (new & Hnew & _). congruence.
Qed.

End batch_effects.

Lemma batch_leaves_other_rows_witness :
  Sample.uk_price_written !! "Z9" = Job.db Sample.stocked !! "Z9".
Proof.
  apply (batch_leaves_other_rows (Job.db Sample.stocked) [Sample.uk_price] "uk").
  - exact (eq_refl (Some Sample.uk_price_written)
             <: Batch.batch_update_products (Job.db Sample.stocked)
                  [Sample.uk_price] "uk"
                = Some Sample.uk_price_written).
  - intros u Hu. apply list_elem_of_singleton in Hu as ->.
    vm_compute. discriminate.
Defined.

Lemma batch_write_takes_effect_witness :
  Batch.site_entry Shop.two_prices_written "A1" "prices" "uk" = Some (VInt 19).
Proof.
  destruct (batch_write_takes_effect (Job.db Sample.stocked) [] Sample.uk_price
              [Shop.uk_price_b2] "uk" Shop.two_prices_written "A1")
    as (Hper & _).
  - exact (eq_refl (Some Shop.two_prices_written)
             <: Batch.batch_update_products (Job.db Sample.stocked)
                  ([] ++ [Sample.uk_price; Shop.uk_price_b2]) "uk"
                = Some Shop.two_prices_written).
  - vm_compute. reflexivity.
  - intros u Hu. apply list_elem_of_singleton in Hu as ->.
    vm_compute. discriminate.
  - apply (Hper "prices" {[ "uk" := VInt 19 ]} "uk" (VInt 19)).
    + unfold Batch.PER_SITE_FIELDS. set_solver.
    + vm_compute. reflexivity.
    + vm_compute. reflexivity.
Defined.

Lemma batch_fails_as_a_whole_witness :
  Batch.batch_update_products (Job.db Sample.stocked)
    [Sample.uk_price; {[ "prices" := VDict {[ "uk" := VInt 19 ]} ]}] "uk"
  = None.
Proof.
  apply (batch_fails_as_a_whole (Job.db Sample.stocked) _
           {[ "prices" := VDict {[ "uk" := VInt 19 ]} ]} "uk").
  - set_solver.
  - left. vm_compute. reflexivity.
Defined.

(** ** The synchronisation job, further *)

Section job_loop.
Import WooCommerceClient Enricher Datastore Batch Job Loop.
Context `{PyFloat}.
Context (up : upstream) (oracle : nat → bool) (site : string).

#[local] Abbreviation enriched := (enriched up site).
#[local] Abbreviation tick := (tick oracle site).
#[local] Abbreviation handle := (handle up oracle site).
#[local] Abbreviation consume := (consume up oracle site).
#[local] Abbreviation finish := (finish site).
#[local] Abbreviation prepare := (prepare up oracle site).
#[local] Abbreviation full_sync_site := (full_sync_site up oracle site).

Lemma BATCH_SIZE_pos : (0 < BATCH_SIZE)%nat.
Proof. unfold BATCH_SIZE. lia. Qed.

#[local] Opaque BATCH_SIZE.

(** *** The steps of the loop *)

(** What the statements under the lock do to the pending updates... *)
Lemma accumulate_pending st result batch st1 :
  accumulate st result = (batch, st1) →
  env st1 = env st
  ∧ cancelled (prog st1) = cancelled (prog st)
  ∧ ((BATCH_SIZE ≤ length (pending_updates st ++ incoming result))%nat
     ∧ batch = Some (pending_updates st ++ incoming result)
     ∧ pending_updates st1 = []
     ∨ (length (pending_updates st ++ incoming result) < BATCH_SIZE)%nat
       ∧ batch = None
       ∧ pending_updates st1 = pending_updates st ++ incoming result).
Proof.
  unfold accumulate, incoming. intros Hacc.
  destruct result as [| |sku data|sku]; cbn -[Py.truthy Nat.leb] in Hacc.
  3: destruct (Py.truthy (VDict data)).
  all: rewrite ?app_nil_r.
  all: destruct (BATCH_SIZE <=? _)%nat eqn:Hle;
    [apply Nat.leb_le in Hle|apply Nat.leb_gt in Hle].
  all: simplify_eq; simpl; split; [done|]; split; [done|].
  all: first [by left|by right].
Qed.

(** ... and to the counters. *)
Lemma accumulate_counters st result batch st1 :
  accumulate st result = (batch, st1) →
  match result with
  | TaskOk _ _ =>
      completed (prog st1) = (completed (prog st) + 1)%nat
      ∧ success (prog st1) = (success (prog st) + 1)%nat
      ∧ failed (prog st1) = failed (prog st)
  | TaskFailed _ =>
      completed (prog st1) = (completed (prog st) + 1)%nat
      ∧ success (prog st1) = success (prog st)
      ∧ failed (prog st1) = (failed (prog st) + 1)%nat
  | _ => prog st1 = prog st
  end.
Proof.
  unfold accumulate. intros Hacc.
  destruct result as [| |sku data|sku]; simpl in Hacc;
    destruct (BATCH_SIZE <=? _)%nat; by simplify_eq.
Qed.

(** The ways through one round of the loop. *)
Lemma handle_cases n st now woo_product :
  let result :=
    process_woo_product up site (cancelled (prog st)) now woo_product in
  (incoming result = [] ∧ handle n st now woo_product = st
   ∧ (result = TaskRaised ∨ result = TaskNone))
  ∨ ∃ batch st1,
      accumulate st result = (batch, st1)
      ∧ ((∃ sku data, result = TaskOk sku data) ∨ ∃ sku, result = TaskFailed sku)
      ∧ ((batch = None ∨ batch = Some [])
         ∧ handle n st now woo_product = tick n st1
         ∨ ∃ b, batch = Some b ∧ b ≠ []
             ∧ match batch_update_products (db (env st1)) b site with
               | Some db' =>
                   handle n st now woo_product = tick n (after_write st1 b db')
               | None => handle n st now woo_product = st1
               end).
Proof.
  intros result. unfold Job.handle. fold result.
  destruct result as [| |sku data|sku] eqn:Hres; [left; auto..| |].
  all: right; destruct (accumulate st _) as [batch st1] eqn:Hacc.
  all: exists batch, st1; split; [done|].
  all: split; [by eauto|].
  all: destruct batch as [[|u b]|]; [left; auto| |left; auto].
  all: right; exists (u :: b); split; [done|]; split; [done|].
  all: by destruct (batch_update_products _ _ _).
Qed.

(** *** The status rows *)

#[local] Abbreviation counted st :=
  (completed (prog st) = Nat.add (success (prog st)) (failed (prog st))).
#[local] Abbreviation running r := (status r = "running" ∧ consistent site r).

Lemma tick_reports n st :
  counted st →
  counted (tick n st)
  ∧ ∃ new, reports (env (tick n st)) = reports (env st) ++ new
      ∧ Forall (λ r, running r) new.
Proof.
  intros Hc. unfold Job.tick.
  destruct (_ || _); [|split; [done|exists []; by rewrite app_nil_r]].
  simpl. destruct (oracle _); simpl.
  { split; [done|]. exists []. by rewrite app_nil_r. }
  destruct (cancelled (prog st)); simpl; (split; [done|]).
  - exists []. by rewrite app_nil_r.
  - eexists [_]. split; [done|]. by repeat constructor.
Qed.

Lemma handle_reports n st now woo_product :
  counted st →
  counted (handle n st now woo_product)
  ∧ ∃ new,
      reports (env (handle n st now woo_product)) = reports (env st) ++ new
      ∧ Forall (λ r, running r) new.
Proof.
  intros Hc.
  destruct (handle_cases n st now woo_product)
    as [(_ & -> & _)|(batch & st1 & Hacc & Hres & Hway)].
  { split; [done|]. exists []. by rewrite app_nil_r. }
  destruct (accumulate_pending _ _ _ _ Hacc) as (Henv & _ & _).
  pose proof (accumulate_counters _ _ _ _ Hacc) as Hcount.
  assert (counted st1) as Hc1.
  { destruct Hres as [(sku & data & Hr)|(sku & Hr)]; rewrite Hr in Hcount;
      destruct Hcount as (-> & -> & ->); lia. }
  rewrite <- Henv.
  destruct Hway as [[_ ->]|(b & -> & Hb & Hw)]; [by apply tick_reports|].
  destruct (batch_update_products _ _ _) as [db'|]; rewrite Hw.
  - by apply (tick_reports n (after_write st1 b db')).
  - split; [done|]. exists []. by rewrite app_nil_r.
Qed.

Lemma consume_reports n futures : ∀ st,
  counted st →
  counted (consume n st futures)
  ∧ ∃ new,
      reports (env (consume n st futures)) = reports (env st) ++ new
      ∧ Forall (λ r, running r) new.
Proof.
  induction futures as [|[now wp] futures IH]; intros st Hc.
  { split; [done|]. exists []. by rewrite app_nil_r. }
  simpl. destruct (cancelled (prog st)).
  { split; [done|]. exists []. by rewrite app_nil_r. }
  destruct (handle_reports n st now wp Hc) as (Hc1 & new1 & Hr1 & Hn1).
  destruct (IH _ Hc1) as (Hc2 & new2 & Hr2 & Hn2).
  split; [done|]. exists (new1 ++ new2).
  split; [by rewrite Hr2, Hr1, app_assoc|by apply Forall_app].
Qed.

Lemma finish_reports n st :
  counted st →
  match finish n st with
  | (JobDone s, w') =>
      ∃ r, reports w' = reports (env st) ++ [r]
        ∧ consistent site r ∧ status r = terminal_status s
        ∧ report_success r = summary_success s
        ∧ report_failed r = summary_failed s
        ∧ total r = summary_total s
  | (_, w') => reports w' = reports (env st)
  end.
Proof.
  intros Hc. unfold Job.finish.
  destruct (_ && _); [destruct (batch_update_products _ _ _)|]; simpl; [|done|].
  all: eexists; split; [done|]; unfold terminal_status; simpl.
  all: by destruct (cancelled (prog st)).
Qed.

Lemma prepare_reports fuel w :
  match prepare fuel w with
  | inl (JobDone s, w') =>
      ∃ r, reports w' = reports w ++ [Report "running" site 0 0 0 0; r]
        ∧ consistent site r ∧ status r = terminal_status s
        ∧ report_success r = summary_success s
        ∧ report_failed r = summary_failed s
        ∧ total r = summary_total s
  | inl (_, w') =>
      reports w' = reports w
      ∨ reports w' = reports w ++ [Report "running" site 0 0 0 0]
  | inr (woo_products, w') =>
      reports w'
      = reports w ++ [Report "running" site 0 0 0 0;
                      Report "running" site 0 (length woo_products) 0 0]
  end.
Proof.
  unfold Job.prepare.
  destruct (negb _); [by left|].
  destruct (get_all_products up fuel).1 as [[|p ps]| |]; simpl.
  - eexists. by rewrite <- app_assoc.
  - destruct (oracle _); simpl.
    + eexists. by rewrite <- app_assoc.
    + by rewrite <- app_assoc.
  - eexists. by rewrite <- app_assoc.
  - by right.
Qed.

(** The status rows of a whole run. *)
Lemma full_sync_site_reports pool fuel w :
  ∃ new,
    reports (full_sync_site pool fuel w).2 = reports w ++ new
    ∧ Forall (consistent site) new
    ∧ match (full_sync_site pool fuel w).1 with
      | JobDone s =>
          ∃ earlier r,
            new = earlier ++ [r]
            ∧ Forall (λ r, status r = "running") earlier
            ∧ status r = terminal_status s
            ∧ report_success r = summary_success s
            ∧ report_failed r = summary_failed s
            ∧ total r = summary_total s
      | _ => Forall (λ r, status r = "running") new
      end.
Proof.
  unfold Job.full_sync_site.
  pose proof (prepare_reports fuel w) as Hprep.
  destruct (prepare fuel w) as [[[s| |] w']|[woo_products w']]; simpl.
  - destruct Hprep as (r & -> & Hr & Hrest).
    eexists. split; [done|]. split; [repeat first [done|constructor]|].
    exists [Report "running" site 0 0 0 0], r. split; [done|].
    split; [repeat first [done|constructor]|done].
  - destruct Hprep as [->| ->].
    + exists []. by rewrite app_nil_r.
    + eexists. split; [done|]. repeat first [done|constructor].
  - destruct Hprep as [->| ->].
    + exists []. by rewrite app_nil_r.
    + eexists. split; [done|]. repeat first [done|constructor].
  - set (n := length woo_products).
    destruct (consume_reports n (pool woo_products) (start w'))
      as (Hc & mid & Hmid & Hrun); [done|].
    pose proof (finish_reports n _ Hc) as Hfin.
    assert (Forall (consistent site) mid ∧ Forall (λ r, status r = "running") mid)
      as [Hmid1 Hmid2].
    { split; eapply Forall_impl; try exact Hrun; by intros r [? ?]. }
    destruct (finish n _) as [[s| |] w2]; simpl in *.
    + destruct Hfin as (r & -> & Hr & Hrest). rewrite Hmid, Hprep.
      exists ([Report "running" site 0 0 0 0; Report "running" site 0 n 0 0]
              ++ mid ++ [r]).
      split; [by rewrite <- !app_assoc|]. split.
      * apply Forall_app. split; [repeat first [done|constructor]|].
        apply Forall_app. split; [done|]. repeat first [done|constructor].
      * exists ([Report "running" site 0 0 0 0; Report "running" site 0 n 0 0]
                ++ mid), r.
        split; [by rewrite <- !app_assoc|]. split; [|done].
        apply Forall_app. split; [repeat first [done|constructor]|done].
    + rewrite Hfin, Hmid, Hprep.
      exists ([Report "running" site 0 0 0 0; Report "running" site 0 n 0 0]
              ++ mid).
      split; [by rewrite <- !app_assoc|].
      split; apply Forall_app; (split; [repeat first [done|constructor]|done]).
    + rewrite Hfin, Hmid, Hprep.
      exists ([Report "running" site 0 0 0 0; Report "running" site 0 n 0 0]
              ++ mid).
      split; [by rewrite <- !app_assoc|].
      split; apply Forall_app; (split; [repeat first [done|constructor]|done]).
Qed.

(** X15: the status rows of a run.  When the job returns, the last row it
    has written carries the terminal status of the result ("error",
    "cancelled" or "completed") and the counters of the summary, and every
    row it wrote before says "running"; a run that does not return has
    written "running" rows only. *)
Theorem status_rows_end_terminal pool fuel w :
  ∃ new,
    reports (full_sync_site pool fuel w).2 = reports w ++ new
    ∧ match (full_sync_site pool fuel w).1 with
      | JobDone s =>
          ∃ earlier r,
            new = earlier ++ [r]
            ∧ Forall (λ r, status r = "running") earlier
            ∧ status r = terminal_status s
            ∧ report_success r = summary_success s
            ∧ report_failed r = summary_failed s
            ∧ total r = summary_total s
      | _ => Forall (λ r, status r = "running") new
      end.
Proof.
  destruct (full_sync_site_reports pool fuel w) as (new & Hnew & _ & Hlast).
  by exists new.
Qed.

(** X16: in every status row the job writes, for its own site, the number
    of completed items is the number of successes plus the number of
    failures; so it is in the summary's counters, which are those of the
    last row. *)
Theorem status_rows_add_up pool fuel w :
  ∃ new,
    reports (full_sync_site pool fuel w).2 = reports w ++ new
    ∧ Forall (consistent site) new
    ∧ match (full_sync_site pool fuel w).1 with
      | JobDone s =>
          ∃ r, last new = Some r
            ∧ current r = (summary_success s + summary_failed s)%nat
      | _ => True
      end.
Proof.
  destruct (full_sync_site_reports pool fuel w) as (new & Hnew & Hall & Hlast).
  exists new. split; [done|]. split; [done|].
  destruct (full_sync_site pool fuel w).1 as [s| |]; [|done..].
  destruct Hlast as (earlier & r & -> & _ & _ & Hsucc & Hfail & _).
  exists r. split; [apply last_snoc|].
  apply Forall_app in Hall as [_ Hr]. apply Forall_singleton in Hr as [_ ->].
  by rewrite Hsucc, Hfail.
Qed.

(** *** The batches *)

Lemma incoming_length result : (length (incoming result) ≤ 1)%nat.
Proof.
  destruct result as [| |sku data|sku]; simpl; try lia.
  destruct (negb _); simpl; lia.
Qed.

Lemma tick_writes n st :
  writes (env (tick n st)) = writes (env st)
  ∧ pending_updates (tick n st) = pending_updates st
  ∧ db (env (tick n st)) = db (env st).
Proof.
  unfold Job.tick. destruct (_ || _); [|done]. simpl.
  by destruct (oracle _), (cancelled (prog st)).
Qed.

Lemma handle_batches n st now woo_product :
  (length (pending_updates st) < BATCH_SIZE)%nat →
  (length (pending_updates (handle n st now woo_product)) < BATCH_SIZE)%nat
  ∧ ∃ new,
      writes (env (handle n st now woo_product)) = writes (env st) ++ new
      ∧ Forall (λ b, length b = BATCH_SIZE) new.
Proof.
  intros Hlen. pose proof BATCH_SIZE_pos as Hpos.
  destruct (handle_cases n st now woo_product)
    as [(_ & -> & _)|(batch & st1 & Hacc & _ & Hway)].
  { split; [done|]. exists []. by rewrite app_nil_r. }
  destruct (accumulate_pending _ _ _ _ Hacc) as (Henv & _ & Hpend).
  pose proof (incoming_length
                (process_woo_product up site (cancelled (prog st)) now
                   woo_product)) as Hinc.
  rewrite <- Henv.
  destruct Hway as [[Hb ->]|(b & -> & Hb & Hw)].
  - destruct (tick_writes n st1) as (-> & -> & _).
    split; [|exists []; by rewrite app_nil_r].
    destruct Hpend as [(_ & _ & ->)|(? & _ & ->)]; simpl; lia.
  - destruct Hpend as [(Hfull & [= ->] & Hnil)|(_ & [=] & _)].
    rewrite length_app in Hfull.
    destruct (batch_update_products _ _ _) as [db'|]; rewrite Hw.
    + match goal with
      | |- context [tick n ?s] => destruct (tick_writes n s) as (-> & -> & _)
      end.
      simpl. rewrite Hnil. split; [simpl; lia|].
      eexists [_]. split; [done|]. constructor; [|constructor].
      rewrite length_app. lia.
    + rewrite Hnil. split; [simpl; lia|]. exists []. by rewrite app_nil_r.
Qed.

Lemma consume_batches n futures : ∀ st,
  (length (pending_updates st) < BATCH_SIZE)%nat →
  (length (pending_updates (consume n st futures)) < BATCH_SIZE)%nat
  ∧ ∃ new,
      writes (env (consume n st futures)) = writes (env st) ++ new
      ∧ Forall (λ b, length b = BATCH_SIZE) new.
Proof.
  induction futures as [|[now wp] futures IH]; intros st Hlen.
  { split; [done|]. exists []. by rewrite app_nil_r. }
  simpl. destruct (cancelled (prog st)).
  { split; [done|]. exists []. by rewrite app_nil_r. }
  destruct (handle_batches n st now wp Hlen) as (Hlen1 & new1 & Hw1 & Hn1).
  destruct (IH _ Hlen1) as (Hlen2 & new2 & Hw2 & Hn2).
  split; [done|]. exists (new1 ++ new2).
  split; [by rewrite Hw2, Hw1, app_assoc|by apply Forall_app].
Qed.

Lemma finish_batches n st :
  (length (pending_updates st) < BATCH_SIZE)%nat →
  ∃ last,
    writes (finish n st).2 = writes (env st) ++ last
    ∧ (last = []
       ∨ ∃ b, last = [b] ∧ (0 < length b < BATCH_SIZE)%nat).
Proof.
  intros Hlen. unfold Job.finish.
  destruct (negb (bool_decide _)) eqn:Hnil; simpl.
  2:{ exists []. rewrite app_nil_r. split; [done|by left]. }
  destruct (negb (cancelled _)); simpl.
  2:{ exists []. rewrite app_nil_r. split; [done|by left]. }
  destruct (batch_update_products _ _ _) as [db'|]; simpl.
  2:{ exists []. rewrite app_nil_r. split; [done|by left]. }
  eexists [_]. split; [done|]. right. eexists. split; [done|].
  split; [|done]. apply negb_true_iff, bool_decide_eq_false in Hnil.
  destruct (pending_updates st); [done|simpl; lia].
Qed.

(** X17: the writer is called with batches of bounded size.  The batches a
    run writes are batches of exactly [BATCH_SIZE] = 300 updates, followed
    by at most one last batch of at least 1 and fewer than 300. *)
Theorem batches_bounded pool fuel w :
  ∃ full last,
    writes (full_sync_site pool fuel w).2 = writes w ++ full ++ last
    ∧ Forall (λ b, length b = BATCH_SIZE) full
    ∧ (last = []
       ∨ ∃ b, last = [b] ∧ (0 < length b < BATCH_SIZE)%nat).
Proof.
  unfold Job.full_sync_site.
  pose proof (prepare_frame up oracle site fuel w) as Hprep.
  destruct (prepare fuel w) as [[res w']|[woo_products w']];
    destruct Hprep as [_ Hws]; simpl.
  { exists [], []. rewrite Hws, app_nil_r. split; [done|]. split; [done|by left]. }
  set (n := length woo_products).
  destruct (consume_batches n (pool woo_products) (start w'))
    as (Hlen & full & Hfull & Hall); [apply BATCH_SIZE_pos|].
  destruct (finish_batches n _ Hlen) as (last & Hlast & Hl).
  exists full, last. split; [|done].
  by rewrite Hlast, Hfull, <- Hws, <- app_assoc.
Qed.

(** *** Columns the job never writes *)

(** X18: every update the enricher builds for the job carries the
    storefront's id of the product under [woo_ids], and the job never stores
    it: the [woo_ids] column of every row is after the run what it was
    before. *)
Theorem woo_ids_never_stored pool fuel w :
  (∀ cancelled now woo_product sku data,
     process_woo_product up site cancelled now woo_product = TaskOk sku data →
     ∃ wp, woo_product = VDict wp
           ∧ data !! "woo_ids" = Some (per_site site (Py.get wp "id")))
  ∧ ∀ sku,
      column (db (full_sync_site pool fuel w).2) sku "woo_ids"
      = column (db w) sku "woo_ids".
Proof.
  split.
  - intros c now wpv sku data Hok.
    apply process_woo_product_ok in Hok
      as (wp & base & -> & _ & _ & _ & Hfin).
    exists wp. split; [done|].
    rewrite (finish_update_data_other _ _ _ _ _ _ "woo_ids" Hfin)
      by (solve_key_notin || done).
    by rewrite lookup_insert_eq.
  - intros sku.
    apply (full_sync_site_table_inv up oracle site
             (λ db', column db' sku "woo_ids" = column (db w) sku "woo_ids"));
      [|done].
    intros db0 updates db' _ Hb <-.
    eapply batch_update_products_unmerged; [exact Hb|..]; try done.
    all: solve_key_notin.
Qed.

(** *** A run that is not cancelled *)

Section uncancelled.
Context (Hnever : ∀ n, oracle n = false).
Context (updates : list dict) (Haccepted : accepted site updates).

#[local] Abbreviation task_update := (task_update up site).
#[local] Abbreviation all_written := (all_written up site).

Lemma tick_never n st : prog (tick n st) = prog st.
Proof.
  unfold Job.tick. destruct (_ || _); [|done]. simpl. by rewrite Hnever.
Qed.

(** What a task adds to the updates. *)
Lemma incoming_task_update now woo_product :
  let result := process_woo_product up site false now woo_product in
  omap task_update [(now, woo_product)] = incoming result
  ∧ Forall enriched (incoming result)
  ∧ length (incoming result)
    = match result with TaskOk _ _ => 1%nat | _ => 0%nat end.
Proof.
  intros result. unfold Loop.task_update.
  cbn -[process_woo_product]. fold result.
  destruct result as [| |sku data|sku] eqn:Hres; simpl;
    [by repeat constructor..| |by repeat constructor].
  assert (enriched data) as Hen by (by exists false, now, woo_product, sku).
  pose proof (enriched_truthy up site data Hen) as Ht. simpl in Ht.
  rewrite Ht. split; [done|]. split; [by constructor|done].
Qed.

Lemma handle_all_written n ws done st now woo_product :
  all_written ws done st →
  (∀ u, u ∈ omap task_update (done ++ [(now, woo_product)]) → u ∈ updates) →
  all_written ws (done ++ [(now, woo_product)]) (handle n st now woo_product).
Proof.
  intros (Hc & Hen & Hs & new & Hw & Hcat) Hsub.
  destruct (incoming_task_update now woo_product) as (Hup & Hien & Hilen).
  pose proof (handle_cases n st now woo_product) as Hcases.
  rewrite Hc in Hcases. cbn zeta in Hcases.
  set (result := process_woo_product up site false now woo_product) in *.
  rewrite omap_app, Hup, <- Hcat in Hsub.
  unfold Loop.all_written. rewrite omap_app, Hup, length_app, <- Hcat.
  destruct Hcases as [(Hinc & -> & _)|(batch & st1 & Hacc & Hres & Hway)].
  { rewrite Hinc, !app_nil_r. split_and!; try done.
    - by rewrite Hs, <- Hcat.
    - by exists new. }
  destruct (accumulate_pending _ _ _ _ Hacc) as (Henv & Hc1 & Hpend).
  pose proof (accumulate_counters _ _ _ _ Hacc) as Hcount.
  assert (success (prog st1)
          = (length (concat new ++ pending_updates st)
             + length (incoming result))%nat) as Hs1.
  { rewrite Hcat, <- Hs, Hilen.
    destruct Hres as [(sku & data & Hr)|(sku & Hr)]; rewrite Hr in Hcount |- *;
      destruct Hcount as (_ & -> & _); lia. }
  assert (Forall enriched (pending_updates st ++ incoming result)) as Hen1
    by (by apply Forall_app).
  destruct Hway as [[Hb ->]|(b & -> & Hb & Hwrite)].
  - rewrite tick_never. destruct (tick_writes n st1) as (-> & -> & _).
    rewrite Hc1, Hc, Henv.
    destruct Hpend as [(_ & -> & ->)|(_ & _ & ->)].
    + destruct Hb as [?|[= Hnil]]; [done|].
      apply app_eq_nil in Hnil as [Hp Hi]. rewrite Hp, Hi in *.
      split_and!; try done. exists new. by rewrite !app_nil_r.
    + split_and!; try done. exists new. by rewrite app_assoc.
  - destruct Hpend as [(_ & [= ->] & Hnil)|(_ & [=] & _)].
    destruct (Haccepted (db (env st1)) (pending_updates st ++ incoming result))
      as [db' Hdb']; [done| |].
    { intros u Hu. apply Hsub. rewrite <- app_assoc.
      apply elem_of_app. by right. }
    rewrite Hdb' in Hwrite. rewrite Hwrite, tick_never.
    match goal with
    | |- context [tick n ?s] => destruct (tick_writes n s) as (-> & -> & _)
    end.
    simpl. rewrite Hnil, Hc1, Hc, Henv, Hw.
    split_and!; try done.
    exists (new ++ [pending_updates st ++ incoming result]).
    split; [by rewrite app_assoc|].
    rewrite concat_app. simpl. by rewrite !app_nil_r, app_assoc.
Qed.

Lemma consume_all_written n ws futures : ∀ done st,
  all_written ws done st →
  (∀ u, u ∈ omap task_update (done ++ futures) → u ∈ updates) →
  all_written ws (done ++ futures) (consume n st futures).
Proof.
  induction futures as [|[now wp] futures IH]; intros done st Hall Hsub.
  { by rewrite app_nil_r. }
  simpl. rewrite (proj1 Hall).
  replace (done ++ (now, wp) :: futures)
    with ((done ++ [(now, wp)]) ++ futures) in *
    by (by rewrite <- app_assoc).
  apply IH; [|done].
  apply handle_all_written; [done|].
  intros u Hu. apply Hsub. rewrite omap_app. apply elem_of_app. by left.
Qed.

Lemma finish_all_written n ws done st :
  all_written ws done st →
  (∀ u, u ∈ omap task_update done → u ∈ updates) →
  ∃ new w',
    finish n st
    = (JobDone (Summary site n (length (omap task_update done))
                  (failed (prog st)) false false), w')
    ∧ writes w' = ws ++ new
    ∧ concat new = omap task_update done.
Proof.
  intros (Hc & Hen & Hs & new & Hw & Hcat) Hsub.
  unfold Job.finish. rewrite Hc, Hs. simpl.
  case_bool_decide as Hnil; simpl.
  - rewrite Hnil, app_nil_r in Hcat. exists new. eexists. by split_and!.
  - destruct (Haccepted (db (env st)) (pending_updates st)) as [db' ->];
      [done| |].
    { intros u Hu. apply Hsub. rewrite <- Hcat. apply elem_of_app. by right. }
    simpl. exists (new ++ [pending_updates st]). eexists.
    split; [done|]. simpl. rewrite Hw.
    split; [by rewrite app_assoc|].
    by rewrite concat_app, <- Hcat; simpl; rewrite app_nil_r.
Qed.

End uncancelled.

(** X19: an uncancelled run whose writes succeed loses nothing.  When the
    oracle never answers "cancelled", the catalogue is not empty and the
    writer raises on no batch made of the updates of the run's tasks, the
    job returns, not cancelled, and the batches it has written are, laid
    end to end, the updates of the successful tasks in their order of
    completion, each once; [success] counts them, and the table is the one
    these batches leave. *)
Theorem uncancelled_run_writes_all pool fuel w woo_products :
  site ∈ SITES → (∀ n, oracle n = false) →
  (get_all_products up fuel).1 = Listed woo_products → woo_products ≠ [] →
  accepted site (omap (task_update up site) (pool woo_products)) →
  ∃ new s,
    (full_sync_site pool fuel w).1 = JobDone s
    ∧ summary_cancelled s = false ∧ summary_error s = false
    ∧ summary_total s = length woo_products
    ∧ writes (full_sync_site pool fuel w).2 = writes w ++ new
    ∧ concat new = omap (task_update up site) (pool woo_products)
    ∧ summary_success s = length (concat new)
    ∧ replay site new (db w) = Some (db (full_sync_site pool fuel w).2).
Proof.
  intros Hsite Hnever Hlist Hne Haccepted.
  destruct (full_sync_site_replay up oracle site pool fuel w)
    as (new' & Hw' & Hrep & _).
  assert (∃ w1, prepare fuel w = inr (woo_products, w1)
                ∧ writes w1 = writes w) as (w1 & Hprep & Hws).
  { unfold Job.prepare. rewrite bool_decide_eq_true_2 by done.
    cbn [negb]. rewrite Hlist. destruct woo_products; [done|].
    unfold check_if_cancelled. rewrite Hnever. by eexists. }
  unfold Job.full_sync_site in *. rewrite Hprep in *.
  destruct (finish_all_written _ Haccepted (length woo_products) (writes w1)
              (pool woo_products)
              (consume (length woo_products) (start w1) (pool woo_products)))
    as (new & w2 & Hfin & Hw2 & Hcat); [|done|].
  { apply (consume_all_written Hnever _ Haccepted _ _ _ []); [|done].
    unfold Loop.all_written. simpl. split_and!; try done.
    exists []. by rewrite app_nil_r. }
  rewrite Hfin in *. simpl in Hw', Hrep. simpl.
  rewrite Hw2, Hws in Hw'. apply app_inv_head in Hw' as <-.
  exists new. eexists. split; [done|]. simpl.
  split_and!; try done.
  - by rewrite Hw2, Hws.
  - by rewrite Hcat.
Qed.

(** X26: a batch write that fails inside the result loop is swallowed.
    When the round that fills the batch (fewer than 300 updates pending
    before it) hands it to the writer and the writer raises, the round ends
    there: the table, the status rows and the write log are as before the
    round, the pending updates are gone with the batch, not kept for a
    later write, and the item that filled the batch has been counted as a
    success. *)
Theorem failed_flush_is_swallowed n st now woo_product batch st1 :
  (length (pending_updates st) < BATCH_SIZE)%nat →
  accumulate st
    (process_woo_product up site (cancelled (prog st)) now woo_product)
  = (Some batch, st1) →
  batch_update_products (db (env st1)) batch site = None →
  handle n st now woo_product = st1
  ∧ env st1 = env st
  ∧ pending_updates st1 = []
  ∧ (∃ data, batch = pending_updates st ++ [data])
  ∧ success (prog st1) = (success (prog st) + 1)%nat
  ∧ completed (prog st1) = (completed (prog st) + 1)%nat.
Proof.
  intros Hlen Hacc Hfail.
  destruct (accumulate_pending _ _ _ _ Hacc) as (Henv & _ & Hpend).
  pose proof (accumulate_counters _ _ _ _ Hacc) as Hcount.
  destruct Hpend as [(Hfull & [= ->] & Hnil)|(_ & [=] & _)].
  pose proof (handle_cases n st now woo_product) as Hcases.
  cbn zeta in Hcases.
  destruct (process_woo_product up site (cancelled (prog st)) now woo_product)
    as [| |sku data|sku] eqn:Hres.
  1,2,4: simpl in Hfull; rewrite app_nil_r in Hfull; lia.
  destruct Hcount as (Hc & Hs & _).
  assert (incoming (TaskOk sku data) = [data]) as Hinc.
  { unfold incoming in *. destruct (Py.truthy (VDict data)); [done|].
    simpl in Hfull. rewrite app_nil_r in Hfull. lia. }
  rewrite Hinc in *.
  destruct Hcases as [(_ & _ & [?|?])|(batch' & st1' & Hacc' & _ & Hway)];
    [done..|].
  rewrite Hacc in Hacc'. injection Hacc' as <- <-.
  destruct Hway as [[[?|Hb] _]|(b & [= <-] & _ & Hw)]; [done| |].
  - injection Hb as Hb. by apply app_eq_nil in Hb as [_ ?].
  - rewrite Hfail in Hw. split_and!; try done. by exists data.
Qed.

End job_loop.

Lemma uncancelled_run_writes_all_witness :
  ∃ new s,
    Sample.uk_sync.1 = Job.JobDone s
    ∧ Job.summary_cancelled s = false
    ∧ Job.writes Sample.uk_sync.2 = Job.writes Sample.stocked ++ new
    ∧ concat new
      = omap (Loop.task_update (H:=Sample.float_of_number)
                Sample.one_product_shop "uk")
          (Sample.in_order [VDict Sample.jersey])
    ∧ Job.summary_success s = length (concat new).
Proof.
  assert (Enricher.process_woo_product (H:=Sample.float_of_number)
            Sample.one_product_shop "uk" false "2024-01-01T00:00:00"
            (VDict Sample.jersey)
          = Enricher.TaskOk (VStr "A1") Sample.uk_sync_update) as Hrun
    by exact (eq_refl (Enricher.TaskOk (VStr "A1") Sample.uk_sync_update)
              <: Enricher.process_woo_product (H:=Sample.float_of_number)
                   Sample.one_product_shop "uk" false "2024-01-01T00:00:00"
                   (VDict Sample.jersey)
                 = Enricher.TaskOk (VStr "A1") Sample.uk_sync_update).
  destruct (uncancelled_run_writes_all (H:=Sample.float_of_number)
              Sample.one_product_shop Sample.never_cancelled "uk"
              Sample.in_order 5 Sample.stocked [VDict Sample.jersey])
    as (new & s & Hs & Hc & _ & _ & Hw & Hcat & Hn & _).
  - unfold SITES. set_solver.
  - reflexivity.
  - vm_compute. reflexivity.
  - discriminate.
  - intros db batch _ Hsub.
    assert (∀ u, u ∈ batch → u = Sample.uk_sync_update) as Hall.
    { intros u Hu. apply Hsub in Hu. unfold Loop.task_update in Hu.
      cbn -[Enricher.process_woo_product] in Hu. rewrite Hrun in Hu.
      by apply list_elem_of_singleton in Hu. }
    apply batch_update_products_is_Some; apply Forall_forall; intros u Hu;
      rewrite (Hall u Hu).
    + by apply (process_woo_product_update _ _ _ _ _ _ _ Hrun).
    + exists "A1". by apply (process_woo_product_update _ _ _ _ _ _ _ Hrun).
  - exists new, s. exact (conj Hs (conj Hc (conj Hw (conj Hcat Hn)))).
Defined.

(** ** The job at the edges of the catalogue *)

Section job_edges.
Import WooCommerceClient Outcome Trace Enricher Datastore Batch Job.
Context `{PyFloat}.
Context (up : upstream) (oracle : nat → bool) (site : string).

(** A page request that fails at all three attempts raises. *)
Lemma get_products_page_fails page :
  (∀ n, (n < 3)%nat → Outcome.failed (up (ProductsPage page 100) n) = true) →
  raising_page (λ page, get_products_page up page 100) page.
Proof.
  intros Hfail. left. unfold get_products_page, fetch_json.
  rewrite (request_fails_three_times _ Hfail). by eexists.
Qed.

(** A page request answered at once, without a 4xx or 5xx status. *)
Lemma get_products_page_answered page r :
  up (ProductsPage page 100) 0%nat = Answered r →
  raises_for_status r = false →
  get_products_page up page 100
  = match json r with Some v => inr v | None => inl JSONDecodeError end.
Proof.
  intros Hget Hok. unfold get_products_page, fetch_json.
  unfold _request_with_retry, _request_with_retry_n. simpl. rewrite Hget.
  assert ((status_code r =? 503) = false) as ->.
  { apply Z.eqb_neq. intros Hs. unfold raises_for_status in Hok.
    rewrite Hs in Hok. done. }
  simpl. rewrite Hok. simpl. by destruct (json r).
Qed.

(** X20: a page of the catalogue that fails at all three attempts ends the
    job in the status "error", whatever was read before it: after the first
    "running" row the job writes an "error" row with all counters 0 and
    returns; it does not ask whether it is cancelled and leaves the table
    and the write log as they were. *)
Theorem failing_page_ends_job (k : nat) pool fuel w :
  site ∈ SITES → (k < fuel)%nat →
  (∀ p, (1 ≤ p ≤ k)%nat → full_page (λ page, get_products_page up page 100) p) →
  (∀ n, (n < 3)%nat → Outcome.failed (up (ProductsPage (S k) 100) n) = true) →
  full_sync_site up oracle site pool fuel w
  = (JobDone (Summary site 0 0 0 false true),
     World (db w)
       (reports w ++ [Report "running" site 0 0 0 0;
                      Report "error" site 0 0 0 0])
       (polls w) (writes w)).
Proof.
  intros Hsite Hfuel Hfull Hfail.
  unfold Job.full_sync_site, Job.prepare, get_all_products.
  rewrite bool_decide_eq_true_2 by done. cbn [negb].
  rewrite (reader_raises_after_full_pages _ k fuel Hfuel Hfull)
    by (by apply get_products_page_fails).
  cbn [fst]. unfold update_progress. simpl. by rewrite <- app_assoc.
Qed.

(** X21: when the first page of the catalogue is answered with an empty
    list, or any other falsy body, the job ends in the status "completed"
    with all counters 0, without asking whether it is cancelled: a
    cancellation requested before the run has no effect on it. *)
Theorem empty_catalogue_completes pool fuel w r v :
  site ∈ SITES → (1 ≤ fuel)%nat →
  up (ProductsPage 1 100) 0%nat = Answered r →
  raises_for_status r = false →
  json r = Some v → Py.truthy v = false →
  full_sync_site up oracle site pool fuel w
  = (JobDone (Summary site 0 0 0 false false),
     World (db w)
       (reports w ++ [Report "running" site 0 0 0 0;
                      Report "completed" site 0 0 0 0])
       (polls w) (writes w)).
Proof.
  intros Hsite Hfuel Hget Hok Hjson Hfalsy.
  unfold Job.full_sync_site, Job.prepare, get_all_products,
    get_all_products_with.
  rewrite bool_decide_eq_true_2 by done. cbn [negb].
  destruct fuel as [|fuel]; [lia|]. cbn [get_all_products_from].
  rewrite (get_products_page_answered 1 r Hget Hok), Hjson, Hfalsy.
  cbn [negb fst]. unfold update_progress. simpl. by rewrite <- app_assoc.
Qed.

End job_edges.

Lemma failing_page_ends_job_witness :
  Job.full_sync_site (H:=Sample.float_of_number)
    (λ _ _, WooCommerceClient.TransportFailed) Sample.never_cancelled "uk"
    Sample.in_order 5 Sample.stocked
  = (Job.JobDone (Job.Summary "uk" 0 0 0 false true),
     Job.World (Job.db Sample.stocked)
       (Job.reports Sample.stocked
        ++ [Job.Report "running" "uk" 0 0 0 0; Job.Report "error" "uk" 0 0 0 0])
       (Job.polls Sample.stocked) (Job.writes Sample.stocked)).
Proof.
  apply (failing_page_ends_job (H:=Sample.float_of_number)
           (λ _ _, WooCommerceClient.TransportFailed) Sample.never_cancelled
           "uk" 0 Sample.in_order 5 Sample.stocked).
  - unfold SITES. set_solver.
  - lia.
  - intros p Hp. lia.
  - reflexivity.
Defined.

Lemma empty_catalogue_completes_witness :
  Job.full_sync_site (H:=Sample.float_of_number)
    (λ _ _, WooCommerceClient.Answered
              (WooCommerceClient.Response 200 (Some (VList []))))
    (λ _, true) "uk" Sample.in_order 5 Sample.stocked
  = (Job.JobDone (Job.Summary "uk" 0 0 0 false false),
     Job.World (Job.db Sample.stocked)
       (Job.reports Sample.stocked
        ++ [Job.Report "running" "uk" 0 0 0 0;
            Job.Report "completed" "uk" 0 0 0 0])
       (Job.polls Sample.stocked) (Job.writes Sample.stocked)).
Proof.
  apply (empty_catalogue_completes (H:=Sample.float_of_number)
           (λ _ _, WooCommerceClient.Answered
                     (WooCommerceClient.Response 200 (Some (VList []))))
           (λ _, true) "uk" Sample.in_order 5 Sample.stocked
           (WooCommerceClient.Response 200 (Some (VList []))) (VList [])).
  - unfold SITES. set_solver.
  - lia.
  - reflexivity.
  - reflexivity.
  - reflexivity.
  - reflexivity.
Defined.

Lemma failed_flush_is_swallowed_witness :
  Job.pending_updates
    (Job.handle (H:=Sample.float_of_number) Sample.one_product_shop
       Sample.never_cancelled "uk" 400 Shop.almost_full "2024-01-01T00:00:00"
       (VDict Shop.list_sku_jersey))
  = [].
Proof.
  destruct (failed_flush_is_swallowed (H:=Sample.float_of_number)
              Sample.one_product_shop Sample.never_cancelled "uk" 400
              Shop.almost_full "2024-01-01T00:00:00" (VDict Shop.list_sku_jersey)
              (default [] Shop.filling_round.1) Shop.filling_round.2)
    as (Hround & _ & Hpending & _).
  - apply Nat.ltb_lt.
    exact (eq_refl true
           <: (length (Job.pending_updates Shop.almost_full) <? Job.BATCH_SIZE)%nat
              = true).
  - exact (eq_refl (Some (default [] Shop.filling_round.1), Shop.filling_round.2)
           <: Shop.filling_round
              = (Some (default [] Shop.filling_round.1), Shop.filling_round.2)).
  - vm_compute. reflexivity.
  - rewrite Hround. exact Hpending.
Defined.

(** ** One product: [pull_product_from_site] *)

Section single_product.
Import WooCommerceClient Enricher Datastore Batch Single.
Context `{PyFloat}.
Context (up : upstream) (site : string).

(** The update of a successful fetch: its SKU and all nine per-site
    fields, each with the one key of the site. *)
Lemma fetch_product_from_woo_update now sku woo_id data :
  fetch_product_from_woo up now sku woo_id site = TaskOk sku data →
  data !! "sku" = Some sku ∧ well_formed site data.
Proof.
  intros Hok.
  apply fetch_product_from_woo_ok in Hok as (wp & base & _ & Hbase & Hfin).
  destruct (site_update_data_lookup _ _ _ _ _ Hbase)
    as (Hbsku & _ & _ & _ & _ & _ & Hper).
  destruct (finish_update_data_variations _ _ _ _ _ _ Hfin) as [Hv Hc].
  split.
  - by rewrite (finish_update_data_other _ _ _ _ _ _ _ Hfin)
      by (solve_key_notin || done).
  - intros field Hf. unfold PER_SITE_FIELDS in Hf.
    apply elem_of_app with (l1 := ["prices"; "regular_prices"; "stock_quantities";
                                   "stock_statuses"; "statuses"; "content";
                                   "sync_status"])
                           (l2 := ["variations"; "variation_counts"]) in Hf
      as [Hf|Hf].
    + destruct (Hper field Hf) as [x Hx]. exists x.
      rewrite (finish_update_data_other _ _ _ _ _ _ field Hfin); [done|..].
      * intros Hs. revert Hf.
        repeat (apply elem_of_cons in Hs as [->|Hs]; [solve_key_notin|]).
        by apply elem_of_nil in Hs.
      * intros ->. revert Hf. solve_key_notin.
      * intros ->. revert Hf. solve_key_notin.
    + apply elem_of_cons in Hf as [->|Hf]; [by eexists|].
      apply elem_of_cons in Hf as [->|Hf]; [by eexists|].
      by apply elem_of_nil in Hf.
Qed.

Lemma fetch_product_from_woo_sku now sku woo_id :
  match fetch_product_from_woo up now sku woo_id site with
  | TaskOk sku' _ | TaskFailed sku' => sku' = sku
  | _ => False
  end.
Proof.
  unfold fetch_product_from_woo.
  by destruct (_ ≫= _).
Qed.

(** X22: what pulling one product does to the table, when the write does
    not raise.  The function returns what the fetch returned.  When the
    fetch failed (unknown site, failing request, a price that is not a
    number) the writer is not called and the table is as before.  When it
    succeeded, under a text SKU, the row under the SKU has, in each
    per-site column, the fetched entry for the site; the entries of the
    other sites in that row, and all other rows, are what they were. *)
Theorem pull_product_effect now (db : table) k woo_id result db' :
  pull_product_from_site up now db (VStr k) woo_id site = Some (result, db') →
  result = fetch_product_from_woo up now (VStr k) woo_id site
  ∧ match result with
    | TaskOk _ data =>
        (∀ field, field ∈ PER_SITE_FIELDS →
           ∃ x, data !! field = Some (per_site site x)
                ∧ site_entry db' k field site = Some x)
        ∧ (∀ field other, field ∈ PER_SITE_FIELDS → other ≠ site →
             site_entry db' k field other = site_entry db k field other)
        ∧ (∀ k', k' ≠ k → db' !! k' = db !! k')
    | _ => db' = db
    end.
Proof.
  unfold pull_product_from_site. intros Hpull.
  pose proof (fetch_product_from_woo_sku now (VStr k) woo_id) as Hsku.
  destruct (fetch_product_from_woo up now (VStr k) woo_id site)
    as [| |sku data|sku] eqn:Hfetch; try done; [|by simplify_eq].
  subst sku.
  destruct (fetch_product_from_woo_update _ _ _ _ Hfetch) as [Hk Hwf].
  assert (Py.truthy (VDict data) = true) as Htruthy.
  { simpl. apply negb_true_iff, bool_decide_eq_false. intros ->.
    by rewrite lookup_empty in Hk. }
  rewrite Htruthy in Hpull.
  destruct (batch_update_products db [data] site) as [db1|] eqn:Hb; [|done].
  simpl in Hpull. simplify_eq. split; [done|]. split_and!.
  - intros field Hf. destruct (Hwf field Hf) as [x Hx]. exists x.
    split; [done|].
    destruct (batch_update_products_written db [] data [] site db' k Hb Hk)
      as (Hper & _); [intros u Hu; by apply elem_of_nil in Hu|].
    eapply Hper; [done|exact Hx|]. by rewrite lookup_singleton_eq.
  - intros field other Hf Hne.
    eapply batch_update_products_frame; [exact Hb| |done..].
    intros u Hu. apply list_elem_of_singleton in Hu as ->.
    by apply well_formed_only_site.
  - intros k' Hne.
    eapply batch_update_products_other_rows; [exact Hb|].
    intros u Hu. apply list_elem_of_singleton in Hu as ->.
    rewrite Hk. congruence.
Qed.

End single_product.

Lemma pull_product_effect_witness :
  Batch.site_entry Shop.pulled_table "A1" "prices" "com"
  = Batch.site_entry (Job.db Sample.stocked) "A1" "prices" "com".
Proof.
  destruct (pull_product_effect (H:=Sample.float_of_number)
              Sample.one_product_shop "uk" "2024-01-01T00:00:00"
              (Job.db Sample.stocked) "A1" (VInt 7)
              Shop.pulled_result Shop.pulled_table) as (_ & Heffect).
  - exact (eq_refl (Some (Shop.pulled_result, Shop.pulled_table))
           <: Single.pull_product_from_site (H:=Sample.float_of_number)
                Sample.one_product_shop "2024-01-01T00:00:00"
                (Job.db Sample.stocked) (VStr "A1") (VInt 7) "uk"
              = Some (Shop.pulled_result, Shop.pulled_table)).
  - assert (∃ sku data, Shop.pulled_result = Enricher.TaskOk sku data)
      as (sku & data & Hres) by (by eexists _, _).
    rewrite Hres in Heffect. destruct Heffect as (_ & Hframe & _).
    apply Hframe; [|done]. unfold Batch.PER_SITE_FIELDS. set_solver.
Defined.

(** ** The scan of the [products] table *)

Section table_scan.
Import Scan.

Lemma page_size_pos : (0 < page_size)%nat.
Proof. unfold page_size. lia. Qed.

#[local] Opaque page_size.

Context (rows : list dict) (range : nat → nat → list dict).
Context (Hrange : ranges_over rows range).
Context (q r : nat).
Context (Hlen : length rows = (q * page_size + r)%nat) (Hr : (r < page_size)%nat).

Lemma range_page offset :
  range offset (offset + page_size - 1) = take page_size (drop offset rows).
Proof.
  rewrite Hrange. f_equal. pose proof page_size_pos. lia.
Qed.

Lemma scan_from fuel : ∀ j acc,
  (j ≤ q)%nat → (q - j < fuel)%nat →
  get_all_products_from range fuel (j * page_size) acc
  = (Scanned (acc ++ drop (j * page_size) rows),
     (λ i, i * page_size)%nat <$> seq j (S (q - j))).
Proof.
  pose proof page_size_pos as Hpos.
  induction fuel as [|fuel IH]; intros j acc Hj Hfuel; [lia|].
  cbn [get_all_products_from]. rewrite range_page.
  destruct (decide (j = q)) as [->|Hne].
  - replace (q - q)%nat with 0%nat by lia. cbn [seq fmap list_fmap].
    assert (length (drop (q * page_size) rows) = r) as Hdrop
      by (rewrite length_drop; lia).
    rewrite take_ge by lia.
    case_bool_decide as Hnil.
    + by rewrite Hnil, app_nil_r.
    + by rewrite (proj2 (Nat.ltb_lt _ _)) by lia.
  - assert ((S j) * page_size ≤ q * page_size)%nat as Hle
      by (apply Nat.mul_le_mono_r; lia).
    assert (length (take page_size (drop (j * page_size) rows)) = page_size)
      as Htake.
    { rewrite length_take, length_drop. simpl in Hle. lia. }
    rewrite bool_decide_eq_false_2.
    2:{ intros Hnil. rewrite Hnil in Htake. simpl in Htake. lia. }
    rewrite Htake, Nat.ltb_irrefl.
    replace (j * page_size + page_size)%nat with (S j * page_size)%nat
      by (simpl; lia).
    rewrite IH by lia. cbn [fst snd]. f_equal.
    + f_equal. rewrite <- app_assoc. f_equal.
      rewrite <- (take_drop page_size (drop (j * page_size) rows)) at 2.
      f_equal. rewrite drop_drop. f_equal. simpl. lia.
    + replace (q - j)%nat with (S (q - S j)) by lia. done.
Qed.

End table_scan.

(** X23: the scan returns the whole table.  Over a datastore that answers
    each range request with the rows of that range, of a table of
    [q * 1000 + r] rows with [r < 1000], the scan returns all the rows, in
    the order of the table, after [q + 1] requests at the offsets 0, 1000,
    ..., [q * 1000]; so a table of an exact multiple of 1000 rows costs one
    more request, which comes back empty. *)
Theorem scan_returns_all_rows (rows : list dict) range (q r fuel : nat) :
  Scan.ranges_over rows range →
  length rows = (q * Scan.page_size + r)%nat → (r < Scan.page_size)%nat →
  (q < fuel)%nat →
  Scan.get_all_products range fuel
  = (Scan.Scanned rows, (λ i, i * Scan.page_size)%nat <$> seq 0 (S q)).
Proof.
  intros Hrange Hlen Hr Hfuel. unfold Scan.get_all_products.
  change 0%nat with (0 * Scan.page_size)%nat at 1.
  rewrite (scan_from rows range Hrange q r Hlen Hr fuel 0 []) by lia.
  by rewrite Nat.sub_0_r.
Qed.

Lemma scan_returns_all_rows_witness :
  Scan.get_all_products
    (λ from to, take (S to - from) (drop from [Sample.jersey; Sample.uk_price]))
    3
  = (Scan.Scanned [Sample.jersey; Sample.uk_price], [0%nat]).
Proof.
  apply (scan_returns_all_rows [Sample.jersey; Sample.uk_price]
           (λ from to, take (S to - from)
                         (drop from [Sample.jersey; Sample.uk_price]))
           0 2 3).
  - intros from to. reflexivity.
  - reflexivity.
  - unfold Scan.page_size. lia.
  - lia.
Defined.

(** ** All sites: [full_sync_all] *)

Section all_sites.
Import WooCommerceClient Datastore Batch Job SyncAll.
Context `{PyFloat}.
Context (ups : string → upstream) (oracle : nat → bool).
Context (pool : list value → list (string * value)) (fuel : nat).

#[local] Abbreviation sync_sites := (sync_sites ups oracle pool fuel).
#[local] Abbreviation full_sync_all := (full_sync_all ups oracle pool fuel).

(** The ways through one round of [for site in sites]. *)
Lemma sync_sites_cons site sites results w :
  (∃ s, site = VStr s ∧ s ∈ SITES
        ∧ sync_sites (site :: sites) results w
          = match full_sync_site (ups s) oracle s pool fuel w with
            | (JobDone r, w') => sync_sites sites (<[s := r]> results) w'
            | (JobRaised, w') => (AllRaised, w')
            | (JobRunning, w') => (AllRunning, w')
            end)
  ∨ ((∀ s, site = VStr s → s ∉ SITES)
     ∧ (sync_sites (site :: sites) results w = sync_sites sites results w
        ∨ sync_sites (site :: sites) results w = (AllRaised, w))).
Proof.
  destruct site as [| | | |s| |]; simpl;
    try (right; split; [by intros ? [=]|by auto]).
  case_bool_decide as Hin; simpl.
  - left. by exists s.
  - right. split; [by intros ? [= <-]|by left].
Qed.

Lemma sync_sites_keys sites : ∀ results w results' w',
  sync_sites sites results w = (AllDone results', w') →
  ∀ s, is_Some (results' !! s)
       ↔ is_Some (results !! s) ∨ (s ∈ SITES ∧ VStr s ∈ sites).
Proof.
  induction sites as [|site sites IH]; intros results w results' w' Hrun s.
  { simpl in Hrun. simplify_eq. split; [by left|].
    intros [?|[_ Hin]]; [done|]. by apply elem_of_nil in Hin. }
  destruct (sync_sites_cons site sites results w)
    as [(k & -> & Hk & Heq)|[Hno [Heq|Heq]]]; rewrite Heq in Hrun.
  - destruct (full_sync_site _ _ _ _ _ _) as [[r| |] w1]; [|done..].
    rewrite (IH _ _ _ _ Hrun s), elem_of_cons.
    destruct (decide (s = k)) as [->|Hne].
    + rewrite lookup_insert_eq. split; [|by eauto]. intros _. right. by auto.
    + rewrite lookup_insert_ne by done. split; [tauto|].
      intros [?|[? [[= ?]|?]]]; tauto.
  - rewrite (IH _ _ _ _ Hrun s), elem_of_cons. split; [tauto|].
    intros [?|[Hs [<-|?]]]; [tauto| |tauto]. by destruct (Hno s).
  - done.
Qed.

Lemma sync_sites_frame sites sku field other : ∀ results w,
  field ∈ PER_SITE_FIELDS → VStr other ∉ sites →
  site_entry (db (sync_sites sites results w).2) sku field other
  = site_entry (db w) sku field other.
Proof.
  induction sites as [|site sites IH]; intros results w Hf Hout; [done|].
  apply not_elem_of_cons in Hout as [Hne Hout].
  destruct (sync_sites_cons site sites results w)
    as [(k & -> & Hk & Heq)|[Hno [Heq|Heq]]]; rewrite Heq; [| |done].
  - pose proof (full_sync_site_frame (ups k) oracle k pool fuel w sku field
                  other Hf) as Hframe.
    destruct (full_sync_site _ _ _ _ _ _) as [[r| |] w1]; simpl in *.
    + rewrite IH by done. apply Hframe. congruence.
    + apply Hframe. congruence.
    + apply Hframe. congruence.
  - by apply IH.
Qed.

(** X24: the result of a run over a list of sites has one entry for each
    configured site named in the list, and no other: names that are not
    configured, and elements that are not texts, are skipped. *)
Theorem full_sync_all_keys sites w results w' :
  full_sync_all (Some sites) w = (AllDone results, w') →
  ∀ s, is_Some (results !! s) ↔ s ∈ SITES ∧ VStr s ∈ sites.
Proof.
  unfold SyncAll.full_sync_all. intros Hrun s.
  rewrite (sync_sites_keys _ _ _ _ _ Hrun s), lookup_empty.
  split; [intros [[? [=]]|?]; done|by right].
Qed.

(** X25: a run over a list of sites leaves alone, in every per-site column
    of every row, the entries of each site that is not named in the list,
    however the run ends. *)
Theorem full_sync_all_frame sites w sku field other :
  field ∈ PER_SITE_FIELDS → VStr other ∉ sites →
  site_entry (db (full_sync_all (Some sites) w).2) sku field other
  = site_entry (db w) sku field other.
Proof. intros Hf Hout. by apply sync_sites_frame. Qed.

End all_sites.

Lemma full_sync_all_keys_witness :
  is_Some (Shop.two_names_results !! "uk")
  ↔ "uk" ∈ SITES ∧ VStr "uk" ∈ Shop.two_names.
Proof.
  apply (full_sync_all_keys (H:=Sample.float_of_number)
           (λ _, Sample.one_product_shop) Sample.never_cancelled
           Sample.in_order 5 Shop.two_names Sample.stocked
           Shop.two_names_results Shop.two_names_sync.2).
  rewrite <- (eq_refl (SyncAll.AllDone Shop.two_names_results)
              <: Shop.two_names_sync.1 = SyncAll.AllDone Shop.two_names_results).
  exact (surjective_pairing Shop.two_names_sync).
Defined.

Lemma full_sync_all_frame_witness :
  Batch.site_entry (Job.db Shop.two_names_sync.2) "A1" "prices" "com"
  = Batch.site_entry (Job.db Sample.stocked) "A1" "prices" "com".
Proof.
  apply (full_sync_all_frame (H:=Sample.float_of_number)
           (λ _, Sample.one_product_shop) Sample.never_cancelled
           Sample.in_order 5 Shop.two_names Sample.stocked "A1" "prices" "com").
  - unfold Batch.PER_SITE_FIELDS. set_solver.
  - unfold Shop.two_names. intros Hin.
    repeat (apply elem_of_cons in Hin as [[=]|Hin]).
    by apply elem_of_nil in Hin.
Defined.
